(** * twoblock: robust centring and scaling utilities

    A shallow embedding of [src/twoblock/_preproc_utilities.py] and the
    properties of it that the specification states.

    The Python module computes on NumPy arrays of IEEE binary64 numbers.
    The embedding is written once, over an interface [Arith] of scalar
    operations, and is run at two instances:
    - [binary64]: Rocq's primitive floats, i.e. the arithmetic CPython and
      NumPy execute, used to evaluate the code on concrete inputs;
    - [exact]: rationals extended with a not-a-number element, the
      "real-valued, possibly missing" entries of the specification's data
      model, used for the algebraic laws that hold up to rounding only.

    External library routines ([scipy.optimize.minimize],
    [scipy.stats.norm], [scipy.stats.trim_mean], [numpy.sqrt],
    [numpy.power]) are not part
    of the repository; they appear as section variables or as explicit
    call nodes of the [py] monad.

    Contents: the scalars; Python values, exceptions and NumPy arrays; the
    functions of the module; the vocabulary of the properties; the
    properties the specification states; further properties of the code. *)

From Stdlib Require Import String List ZArith QArith Qcanon Qcabs Bool Lia.
From Stdlib Require Import Permutation Sorted.
From Stdlib Require Import Floats Uint63.
Import ListNotations.
Close Scope Qc_scope.
Close Scope Q_scope.

Set Implicit Arguments.

(* ================================================================== *)
(** * Scalars *)
(* ================================================================== *)

(** The scalar operations the module uses.  Comparisons are the IEEE
    ones: they answer [false] as soon as one operand is not a number. *)
Class Arith (F : Type) : Type := {
  lit : Q -> F;                    (* a numeric literal or an integer *)
  add : F -> F -> F;
  sub : F -> F -> F;
  mul : F -> F -> F;
  div : F -> F -> F;
  opp : F -> F;
  fabs : F -> F;
  eqb : F -> F -> bool;
  ltb : F -> F -> bool;
  leb : F -> F -> bool;
  isnan : F -> bool
}.

Declare Scope arith_scope.
Delimit Scope arith_scope with A.
Infix "+" := add : arith_scope.
Infix "-" := sub : arith_scope.
Infix "*" := mul : arith_scope.
Infix "/" := div : arith_scope.
Infix "==" := eqb (at level 70, no associativity) : arith_scope.
Infix "<?" := ltb : arith_scope.
Infix "<=?" := leb : arith_scope.

Definition zero {F} `{Arith F} : F := lit 0.
Definition one {F} `{Arith F} : F := lit 1.
Definition two {F} `{Arith F} : F := lit 2.
Definition of_nat {F} `{Arith F} (n : nat) : F := lit (inject_Z (Z.of_nat n)).
Definition of_Z {F} `{Arith F} (z : Z) : F := lit (inject_Z z).
(** Python's [a > b]. *)
Definition gtb {F} `{Arith F} (a b : F) : bool := ltb b a.

(* ------------------------------------------------------------------ *)
(** ** binary64 *)

Module Binary64.

Definition float_of_Z (z : Z) : float :=
  match z with
  | Z0 => PrimFloat.zero
  | Zpos _ => PrimFloat.of_uint63 (Uint63.of_Z z)
  | Zneg p => PrimFloat.opp (PrimFloat.of_uint63 (Uint63.of_Z (Zpos p)))
  end.

(** A literal [n/d] is the correctly rounded quotient of two integers,
    which is the double nearest to it when both are below 2^53. *)
Definition float_lit (q : Q) : float :=
  match Qden q with
  | xH => float_of_Z (Qnum q)
  | d => PrimFloat.div (float_of_Z (Qnum q)) (float_of_Z (Zpos d))
  end.

End Binary64.

#[export] Instance binary64 : Arith float := {
  lit := Binary64.float_lit;
  add := PrimFloat.add;
  sub := PrimFloat.sub;
  mul := PrimFloat.mul;
  div := PrimFloat.div;
  opp := PrimFloat.opp;
  fabs := PrimFloat.abs;
  eqb := PrimFloat.eqb;
  ltb := PrimFloat.ltb;
  leb := PrimFloat.leb;
  isnan := PrimFloat.is_nan
}.


(* ------------------------------------------------------------------ *)
(** ** Exact arithmetic with a not-a-number element *)

Module Exact.

(** [None] is not-a-number.  There are no infinities: a division by
    zero answers not-a-number. *)
Definition xreal : Type := option Qc.

Definition lift1 (f : Qc -> Qc) (a : xreal) : xreal :=
  match a with Some x => Some (f x) | None => None end.

Definition lift2 (f : Qc -> Qc -> Qc) (a b : xreal) : xreal :=
  match a, b with Some x, Some y => Some (f x y) | _, _ => None end.

Definition xdiv (a b : xreal) : xreal :=
  match a, b with
  | Some x, Some y => if Qeq_bool y 0 then None else Some (x / y)%Qc
  | _, _ => None
  end.

Definition xcmp (c : Q -> Q -> bool) (a b : xreal) : bool :=
  match a, b with Some x, Some y => c x y | _, _ => false end.

Definition Qlt_bool (x y : Q) : bool := negb (Qle_bool y x).

Definition xisnan (a : xreal) : bool :=
  match a with Some _ => false | None => true end.

End Exact.

#[export] Instance exact : Arith Exact.xreal := {
  lit := fun q => Some (Q2Qc q);
  add := Exact.lift2 Qcplus;
  sub := Exact.lift2 Qcminus;
  mul := Exact.lift2 Qcmult;
  div := Exact.xdiv;
  opp := Exact.lift1 Qcopp;
  fabs := Exact.lift1 Qcabs;
  eqb := Exact.xcmp Qeq_bool;
  ltb := Exact.xcmp Exact.Qlt_bool;
  leb := Exact.xcmp Qle_bool;
  isnan := Exact.xisnan
}.

(* ================================================================== *)
(** * Python values, exceptions and effects *)
(* ================================================================== *)

Inductive exn : Type :=
| ValueError (msg : string)
| TypeError (msg : string)
| IndexError (msg : string)
| UnboundLocalError (name : string)
| FloatingPointError (msg : string)
| OverflowError (msg : string).

(** Outcome of code that computes without calling the optimiser. *)
Inductive result (T : Type) : Type :=
| Ok (t : T)
| Err (e : exn).
Arguments Ok {T} t.
Arguments Err {T} e.

Definition rbind {T U} (r : result T) (k : T -> result U) : result U :=
  match r with Ok t => k t | Err e => Err e end.

Declare Scope result_scope.
Delimit Scope result_scope with result.
Notation "x <- r ;; k" := (rbind r (fun x => k))
  (at level 61, r at next level, right associativity) : result_scope.

(** [np.seterr(divide=..., invalid=...)]: what NumPy does when a divisor
    is zero.  [Warn] (the default) emits a RuntimeWarning and stores
    inf or nan; [RaiseFPE] raises FloatingPointError. *)
Inductive errstate : Type := Warn | RaiseFPE.

(** Python's [seq[i]] with an integer index: negative indices count from
    the end, and an index outside the sequence raises IndexError. *)
Definition py_index {T} (l : list T) (i : Z) : result T :=
  let n := Z.of_nat (length l) in
  let j := if (i <? 0)%Z then (i + n)%Z else i in
  if ((j <? 0) || (n <=? j))%Z
  then Err (IndexError "index out of bounds")
  else match nth_error l (Z.to_nat j) with
       | Some t => Ok t
       | None => Err (IndexError "index out of bounds")
       end.

(** [zip]-wise application, as NumPy applies a binary ufunc to two
    operands of equal shape. *)
Fixpoint map2 {T U V} (f : T -> U -> V) (u : list T) (v : list U) : list V :=
  match u, v with
  | a :: u', b :: v' => f a b :: map2 f u' v'
  | _, _ => []
  end.

(* ================================================================== *)
(** * NumPy arrays *)
(* ================================================================== *)

Section NumPy.

Context {F : Type} {AF : Arith F}.
Local Open Scope arith_scope.

(** A one-dimensional array of shape [(n,)] or a two-dimensional one of
    shape [(n, ncols)], stored by rows. *)
Inductive ndarray : Type :=
| Arr1 (v : list F)
| Arr2 (ncols : nat) (rows : list (list F)).

Definition shape (X : ndarray) : list nat :=
  match X with
  | Arr1 v => [length v]
  | Arr2 p rows => [length rows; p]
  end.

(** The number of columns as the module reads it off the shape: the
    second entry of a two-entry shape, and 1 for a vector. *)
Definition ncols_of (X : ndarray) : nat :=
  match X with
  | Arr1 _ => 1
  | Arr2 p _ => p
  end.

(** Every row of a two-dimensional array has [ncols] entries. *)
Definition rectangular (X : ndarray) : Prop :=
  match X with
  | Arr1 _ => True
  | Arr2 p rows => Forall (fun r => length r = p) rows
  end.

Definition flat (X : ndarray) : list F :=
  match X with
  | Arr1 v => v
  | Arr2 _ rows => concat rows
  end.

(** [np.isnan(X).any()] *)
Definition any_nan (X : ndarray) : bool := existsb isnan (flat X).

(** Column [j] of a list of rows, and all [p] columns. *)
Definition column (j : nat) (rows : list (list F)) : list F :=
  map (fun r => nth j r zero) rows.

Definition columns (p : nat) (rows : list (list F)) : list (list F) :=
  map (fun j => column j rows) (seq 0 p).

(** ** Reductions *)

(** [np.sum] of a flat sequence, as a running sum from zero.  NumPy adds
    fewer than eight contiguous entries in this order; eight or more it
    adds pairwise, in blocks, which is the same sum in exact arithmetic
    and can differ from this one in the last bits on binary64. *)
Definition np_sum (l : list F) : F := fold_left add l zero.

(** [np.nansum]: not-a-number entries count as zero. *)
Definition np_nansum (l : list F) : F :=
  np_sum (map (fun x => if isnan x then zero else x) l).

Definition count_not_nan (l : list F) : nat :=
  length (filter (fun x => negb (isnan x)) l).

(** [np.mean] and [np.nanmean] of a flat sequence. *)
Definition np_mean1 (l : list F) : F := np_sum l / of_nat (length l).

Definition np_nanmean1 (l : list F) : F :=
  np_nansum l / of_nat (count_not_nan l).

(** [np.sort]: ascending, not-a-number entries last. *)
Definition np_lt (a b : F) : bool :=
  (a <? b) || (isnan b && negb (isnan a)).

Fixpoint insert (x : F) (l : list F) : list F :=
  match l with
  | [] => [x]
  | y :: l' => if np_lt x y then x :: l else y :: insert x l'
  end.

Fixpoint np_sort (l : list F) : list F :=
  match l with
  | [] => []
  | x :: l' => insert x (np_sort l')
  end.

(** [np.median] of a flat sequence: the mean of the middle element of
    the sorted sequence, or of the two middle ones when the length is
    even; the mean of nothing, hence nan, when the sequence is empty. *)
Definition np_median1 (l : list F) : F :=
  let s := np_sort l in
  let n := length l in
  np_mean1 (if Nat.even n
            then firstn 2 (skipn (n / 2 - 1) s)
            else firstn 1 (skipn (n / 2) s)).

(** [np.nanmedian]: the median of the entries that are numbers. *)
Definition np_nanmedian1 (l : list F) : F :=
  np_median1 (filter (fun x => negb (isnan x)) l).

(** A reduction along [axis=0]: of the whole vector for a
    one-dimensional array, of each column for a two-dimensional one. *)
Definition along_axis0 (f : list F -> F) (X : ndarray) : list F :=
  match X with
  | Arr1 v => [f v]
  | Arr2 p rows => map f (columns p rows)
  end.

(** A reduction along [axis=1] of a two-dimensional array. *)
Definition along_axis1 (f : list F -> F) (rows : list (list F)) : list F :=
  map f rows.

(** ** Broadcasting *)

(** The common length of two axes, when they are compatible. *)
Definition bdim (p q : nat) : option nat :=
  if (p =? q)%nat then Some p
  else if (p =? 1)%nat then Some q
  else if (q =? 1)%nat then Some p
  else None.

(** One axis of a broadcast operation; the axes are compatible. *)
Definition bc_row {T} (op : T -> T -> T) (u v : list T) : list T :=
  if (length u =? length v)%nat then map2 op u v
  else match u, v with
       | a :: nil, _ => map (op a) v
       | _, b :: nil => map (fun x => op x b) u
       | _, _ => []
       end.

Definition broadcast_error : exn :=
  ValueError "operands could not be broadcast together".

(** A binary ufunc on two arrays of at most two dimensions. *)
Definition np_binop (op : F -> F -> F) (X Y : ndarray) : result ndarray :=
  match X, Y with
  | Arr1 u, Arr1 v =>
      match bdim (length u) (length v) with
      | Some _ => Ok (Arr1 (bc_row op u v))
      | None => Err broadcast_error
      end
  | Arr2 p rows, Arr1 v =>
      match bdim p (length v) with
      | Some q => Ok (Arr2 q (map (fun r => bc_row op r v) rows))
      | None => Err broadcast_error
      end
  | Arr1 u, Arr2 q rows =>
      match bdim (length u) q with
      | Some p => Ok (Arr2 p (map (fun r => bc_row op u r) rows))
      | None => Err broadcast_error
      end
  | Arr2 p rows, Arr2 q rows' =>
      match bdim (length rows) (length rows'), bdim p q with
      | Some _, Some c => Ok (Arr2 c (bc_row (bc_row op) rows rows'))
      | _, _ => Err broadcast_error
      end
  end.

(** The in-place forms [X op= Y]: the result must have the shape of [X]. *)
Definition np_ibinop (op : F -> F -> F) (X Y : ndarray) : result ndarray :=
  match np_binop op X Y with
  | Ok Z =>
      if list_eq_dec Nat.eq_dec (shape Z) (shape X) then Ok Z
      else Err (ValueError "non-broadcastable output operand")
  | Err e => Err e
  end.

(** An array and a Python scalar. *)
Definition np_map (f : F -> F) (X : ndarray) : ndarray :=
  match X with
  | Arr1 v => Arr1 (map f v)
  | Arr2 p rows => Arr2 p (map (map f) rows)
  end.

Definition np_square (X : ndarray) : ndarray := np_map (fun x => x * x) X.
Definition np_abs (X : ndarray) : ndarray := np_map fabs X.

(** Division under the given error state.  With [RaiseFPE] a zero among
    the divisors of a well-shaped division raises instead of storing inf
    or nan.  (The trap here is on every zero divisor; NumPy itself lets a
    quiet nan / 0 pass.) *)
Definition trap_zero {T} (es : errstate) (Y : ndarray) (r : result T)
  : result T :=
  match es, r with
  | RaiseFPE, Ok _ =>
      if existsb (fun d => d == zero) (flat Y)
      then Err (FloatingPointError "divide by zero encountered")
      else r
  | _, _ => r
  end.

Definition np_divide (es : errstate) (X Y : ndarray) : result ndarray :=
  trap_zero es Y (np_binop div X Y).

Definition np_idivide (es : errstate) (X Y : ndarray) : result ndarray :=
  trap_zero es Y (np_ibinop div X Y).

Definition scalar_divide (es : errstate) (x d : F) : result F :=
  match es with
  | RaiseFPE =>
      if d == zero
      then Err (FloatingPointError "divide by zero encountered")
      else Ok (x / d)
  | Warn => Ok (x / d)
  end.

End NumPy.

Arguments ndarray F : clear implicits.

(* ================================================================== *)
(** * The module [_preproc_utilities] *)
(* ================================================================== *)

Section Twoblock.

Context {F : Type} {AF : Arith F}.
Local Open Scope arith_scope.
Local Open Scope result_scope.

(** Routines of NumPy and SciPy the module calls and does not define. *)
Variable np_sqrt : F -> F.
Variables norm_cdf norm_pdf norm_ppf : F -> F.
Variable trim_mean : ndarray F -> F -> list F.

(** The floating-point error state in force, [np.geterr()]. *)
Variable es : errstate.

(** What the module receives where it expects a location or a scale:
    a Python or NumPy scalar, a one-dimensional array, or an object that
    is neither (a list, say). *)
Inductive pyval : Type :=
| PyFloat (x : F)
| PyArray (v : list F)
| PyList (v : list F)
| PyNone.

Definition unpack_error : exn :=
  ValueError "not enough values to unpack (expected 2, got 1)".

(** ** Scalar and vector statistics *)

(** [_handle_zeros_in_scale(scale, copy=True)].  The value returned is
    the same for both settings of [copy], which only decides whether the
    caller's array is overwritten as well.  An argument that is neither a
    scalar nor an array falls off the end of the function. *)
Definition _handle_zeros_in_scale (scale : pyval) : pyval :=
  match scale with
  | PyFloat x => PyFloat (if x == lit 0 then lit 1 else x)
  | PyArray v => PyArray (map (fun x => if x == lit 0 then lit 1 else x) v)
  | _ => PyNone
  end.

Definition _check_trimming (t : F) : result unit :=
  if gtb t (lit (99 # 100)) || (t <? lit 0)
  then Err (ValueError "Trimming fraction must be in [0,1)")
  else Ok tt.

(** [median(X)]: column-wise, one-dimensional result. *)
Definition median (X : ndarray F) : list F :=
  if any_nan X
  then along_axis0 np_nanmedian1 X
  else along_axis0 np_median1 X.

(** [mad(X, c)] *)
Definition mad (X : ndarray F) (c : F) : result (list F) :=
  d <- np_binop sub X (Arr1 (median X)) ;;
  Ok (map (fun x => x / c) (median (np_abs d))).

Definition mad_default_c : F := lit (6744897501960817 # 10000000000000000).

(** [mean(X, trimming)] *)
Definition mean (X : ndarray F) (trimming : F) : list F :=
  if trimming == lit 0
  then if any_nan X
       then along_axis0 np_nanmean1 X
       else along_axis0 np_mean1 X
  else trim_mean X trimming.

(** ** The L1-median *)

Definition _euclidnorm (x : list F) : F :=
  if existsb isnan x
  then np_sqrt (np_nansum (map (fun e => e * e) x))
  else np_sqrt (np_sum (map (fun e => e * e) x)).

(** [np.tile(a, (n, 1))] for a one-dimensional [a]. *)
Definition tile_rows (a : list F) (n : nat) : ndarray F :=
  Arr2 (length a) (repeat a n).

Definition _diffmat_objective (a : list F) (X : ndarray F)
  : result (ndarray F) :=
  match X with
  | Arr1 _ => Err unpack_error
  | Arr2 p rows => np_binop sub X (tile_rows a (length rows))
  end.

(** [np.apply_along_axis(f, 1, D)] *)
Definition apply_along_axis1 (f : list F -> F) (D : ndarray F)
  : result (list F) :=
  match D with
  | Arr1 _ => Err (ValueError "axis 1 is out of bounds for array of dimension 1")
  | Arr2 _ [] =>
      Err (ValueError
             "Cannot apply_along_axis when any iteration dimensions are 0")
  | Arr2 _ rows => Ok (along_axis1 f rows)
  end.

Definition _l1m_objective (a : list F) (X : ndarray F) : result F :=
  if any_nan X
  then D <- _diffmat_objective a X ;;
       norms <- apply_along_axis1 _euclidnorm D ;;
       Ok (np_nansum norms)
  else D <- _diffmat_objective a X ;;
       norms <- apply_along_axis1 _euclidnorm D ;;
       Ok (np_sum norms).

(** [np.tile(np.array(dists).reshape(n, 1), (1, p))] *)
Definition tile_columns (dists : list F) (n p : nat) : result (ndarray F) :=
  if (length dists =? n)%nat
  then Ok (Arr2 p (map (fun d => repeat d p) dists))
  else Err (ValueError "cannot reshape array").

Definition _l1m_jacobian (a : list F) (X : ndarray F)
  : result (list F) :=
  match X with
  | Arr1 _ => Err unpack_error
  | Arr2 p rows =>
      let n := length rows in
      dX <- _diffmat_objective a X ;;
      dists <- apply_along_axis1 _euclidnorm dX ;;
      match _handle_zeros_in_scale (PyArray dists) with
      | PyArray dists =>
          T <- tile_columns dists n p ;;
          dX <- np_idivide es dX T ;;
          if any_nan X
          then Ok (map opp (along_axis0 np_nansum dX))
          else Ok (map opp (along_axis0 np_sum dX))
      | _ => Err (TypeError "unsupported operand")
      end
  end.

(** The arguments of one call of [scipy.optimize.minimize], and the
    part of its answer the module reads. *)
Record minimize_call : Type := {
  m_fun : list F -> ndarray F -> result F;
  m_x0 : list F;
  m_args : ndarray F;
  m_jac : list F -> ndarray F -> result (list F);
  m_tol : F;
  m_options : list (string * Z);
  m_method : string
}.

Record OptimizeResult : Type := {
  res_x : list F;
  res_success : bool
}.

(** Code that may call the optimiser: it returns, raises, or asks for a
    minimisation and goes on with its answer. *)
Inductive py (T : Type) : Type :=
| Ret (t : T)
| Raise (e : exn)
| Minimize (c : minimize_call) (k : OptimizeResult -> py T).
Arguments Ret {T} t.
Arguments Raise {T} e.
Arguments Minimize {T} c k.

Fixpoint pbind {T U} (c : py T) (f : T -> py U) : py U :=
  match c with
  | Ret t => f t
  | Raise e => Raise e
  | Minimize a k => Minimize a (fun r => pbind (k r) f)
  end.

Definition lift {T} (r : result T) : py T :=
  match r with Ok t => Ret t | Err e => Raise e end.

(** An optimiser, and the outcome of a computation that uses it. *)
Definition solver_t : Type := minimize_call -> result OptimizeResult.

Fixpoint run {T} (solver : solver_t) (c : py T) : result T :=
  match c with
  | Ret t => Ok t
  | Raise e => Err e
  | Minimize a k =>
      match solver a with
      | Ok r => run solver (k r)
      | Err e => Err e
      end
  end.

(** The keyword arguments [l1median] forwards. *)
Record kwargs : Type := {
  kw_x0 : option (list F);
  kw_method : option string;
  kw_tol : option F;
  kw_options : option (list (string * Z))
}.

Definition no_kwargs : kwargs :=
  {| kw_x0 := None; kw_method := None; kw_tol := None; kw_options := None |}.

Definition default {T} (o : option T) (d : T) : T :=
  match o with Some t => t | None => d end.

(** [_l1median(X, x0, method="SLSQP", tol=1e-8,
               options={"maxiter": 2000}, **kwargs)] *)
Definition _l1median (X : ndarray F) (x0 : list F)
           (kw : kwargs) : py OptimizeResult :=
  Minimize {| m_fun := _l1m_objective;
              m_x0 := x0;
              m_args := X;
              m_jac := _l1m_jacobian;
              m_tol := default (kw_tol kw) (lit (1 # 100000000));
              m_options := default (kw_options kw) [("maxiter"%string, 2000%Z)];
              m_method := default (kw_method kw) "SLSQP"%string |}
           (fun mu => Ret mu).

(** [l1median(X, **kwargs)].  The local [x0] is bound only when the
    caller passed no [x0]; reading it unbound raises. *)
Definition l1median (X : ndarray F) (kw : kwargs)
  : py (list F) :=
  let x0 : option (list F) :=
    match kw_x0 kw with
    | None => Some (median X)
    | Some _ => None
    end in
  (* an [np.matrix] is turned into a plain array, which has the same
     rows; [p] is the second entry of a two-entry shape and 1 otherwise *)
  let p := match X with Arr2 p _ => p | Arr1 _ => 1%nat end in
  if (p <? 2)%nat
  then Ret (median X)
  else match x0 with
       | Some x0 => pbind (_l1median X x0 kw) (fun mu => Ret (res_x mu))
       | None => Raise (UnboundLocalError "x0")
       end.

(** ** K-step LTS *)

(** Python's built-in [max] over a sequence: the running maximum is
    replaced by an item that compares greater. *)
Definition py_max (l : list F) : result F :=
  match l with
  | [] => Err (ValueError "max() arg is an empty sequence")
  | x :: l' => Ok (fold_left (fun m y => if gtb y m then y else m) l' x)
  end.

(** [np.where(mask)[0]] for a one-dimensional mask. *)
Definition np_where (mask : list bool) : list nat :=
  map fst (filter snd (combine (seq 0 (length mask)) mask)).

Fixpoint rmap {T U} (f : T -> result U) (l : list T) : result (list U) :=
  match l with
  | [] => Ok []
  | t :: l' => u <- f t ;; us <- rmap f l' ;; Ok (u :: us)
  end.

(** [X[idx, :]] *)
Definition take_rows (X : ndarray F) (idx : list nat) : result (ndarray F) :=
  match X with
  | Arr1 _ => Err (IndexError "too many indices for array")
  | Arr2 p rows =>
      rs <- rmap (fun i => py_index rows (Z.of_nat i)) idx ;;
      Ok (Arr2 p rs)
  end.

(** [np.array(v).reshape((p,))] *)
Definition reshape1 (v : list F) (p : nat) : result (list F) :=
  if (length v =? p)%nat then Ok v
  else Err (ValueError "cannot reshape array").

(** A reduction with [axis=1]. *)
Definition reduce_axis1 (f : list F -> F) (D : ndarray F)
  : result (list F) :=
  match D with
  | Arr1 _ => Err (ValueError "axis 1 is out of bounds for array of dimension 1")
  | Arr2 _ rows => Ok (along_axis1 f rows)
  end.

(** One pass of the body of the loop of [kstepLTS], up to the new [m2]. *)
Definition lts_update (X : ndarray F) (n p : nat) (m1 : list F)
  : result (list F) :=
  D <- np_binop sub X (Arr1 m1) ;;
  dists <- (if any_nan X
            then reduce_axis1 np_nansum (np_square D)
            else reduce_axis1 np_sum (np_square D)) ;;
  cutdist <- py_index (np_sort dists) ((Z.of_nat n + 1) / 2 - 1) ;;
  let hsubset := np_where (map (fun d => d <=? cutdist) dists) in
  Xh <- take_rows X hsubset ;;
  reshape1 (mean Xh (lit 0)) p.

(** [max(abs(m1 - m2))] *)
Definition max_abs_diff (m1 m2 : list F) : result F :=
  D <- np_binop sub (Arr1 m1) (Arr1 m2) ;;
  py_max (flat (np_abs D)).

(** The [while] loop; [remaining] is [maxit - iteration]. *)
Fixpoint kstep_loop (remaining : nat) (X : ndarray F) (n p : nat) (tol : F)
         (m1 m2 : list F) (unconverged : bool) : result (list F) :=
  match remaining with
  | O => Ok m2
  | S remaining' =>
      if unconverged
      then m2 <- lts_update X n p m1 ;;
           c <- max_abs_diff m1 m2 ;;
           kstep_loop remaining' X n p tol m2 m2 (gtb c tol)
      else Ok m2
  end.

Definition kstepLTS (X : ndarray F) (maxit : Z) (tol : F) : py (list F) :=
  match X with
  | Arr1 _ => Raise unpack_error
  | Arr2 p rows =>
      let n := length rows in
      pbind (l1median X no_kwargs) (fun m1 =>
      lift (kstep_loop (Z.to_nat maxit) X n p tol m1 m1 true))
  end.

Definition kstepLTS_default_maxit : Z := 5.
Definition kstepLTS_default_tol : F := lit (1 # 10000000000).

(** ** scaleTau2 *)

(** The [consistency] argument: [False], [True] or a string. *)
Inductive consistency_arg : Type :=
| CBool (b : bool)
| CStr (s : string).

(** Python's truth value, and [consistency == "finiteSample"]. *)
Definition truthy (c : consistency_arg) : bool :=
  match c with
  | CBool b => b
  | CStr s => negb (String.eqb s "")
  end.

Definition is_finiteSample (c : consistency_arg) : bool :=
  match c with
  | CBool _ => false
  | CStr s => String.eqb s "finiteSample"
  end.

Definition Erho (b : F) : F :=
  lit 2 * (((lit 1 - b * b) * norm_cdf b - b * norm_pdf b) + b * b) - lit 1.

Definition Es2 (c2 : F) : F := Erho (c2 * norm_ppf (lit (3 # 4))).

(** [np.where(A > t)[0]]: the row index of every entry of the
    two-dimensional [A] that exceeds [t], in row-major order. *)
Definition where_gt_rows (A : list (list F)) (t : F) : list nat :=
  concat (map (fun ir => map (fun _ => fst ir)
                           (filter (fun e => gtb e t) (snd ir)))
              (combine (seq 0 (length A)) A)).

(** [A[idx] = value] for a list [idx] of row indices. *)
Definition assign_rows (A : list (list F)) (idx : list nat) (value : F)
  : list (list F) :=
  map (fun ir => if existsb (Nat.eqb (fst ir)) idx
                 then map (fun _ => value) (snd ir)
                 else snd ir)
      (combine (seq 0 (length A)) A).

(** The normalising constant [nEs2]. *)
Definition tau2_normaliser (n : nat) (c2 : F) (consistency : consistency_arg)
  : F :=
  if truthy consistency
  then if is_finiteSample consistency
       then of_Z (Z.of_nat n - 2) * Es2 c2
       else of_nat n * Es2 c2
  else of_nat n.

(** The body of [scaleTau2] down to [rho = np.square(x)]: the values of
    [sigma0] and [rho] at that point. *)
Definition tau2_squares (x0 : ndarray F) (c1 : F)
  : result (list F * ndarray F) :=
  match x0 with
  | Arr1 _ => Err unpack_error
  | Arr2 p rows =>
      let x := x0 in
      let summ := fun A : ndarray F =>
                    if any_nan x then np_nansum (flat A) else np_sum (flat A) in
      let medx := median x in
      D <- np_binop sub x (Arr1 medx) ;;
      let xc := np_abs D in
      let sigma0 := median xc in
      mu <- (if gtb c1 (lit 0)
             then xc <- np_idivide es xc (Arr1 (map (fun s => s * c1) sigma0)) ;;
                  let w := np_map (fun u => lit 1 - u) (np_square xc) in
                  let w := np_square (np_map (fun w => (fabs w + w) / lit 2) w) in
                  xw <- np_binop mul x w ;;
                  q <- scalar_divide es (summ xw) (summ w) ;;
                  Ok (PyFloat q)
             else Ok (PyArray medx)) ;;
      x <- match mu with
           | PyFloat q => Ok (np_map (fun e => e - q) x)
           | PyArray v => np_ibinop sub x (Arr1 v)
           | _ => Err (TypeError "unsupported operand")
           end ;;
      x <- np_idivide es x (Arr1 sigma0) ;;
      Ok (sigma0, np_square x)
  end.

(** [c2 ** 2] for a Python float [c2]: the square, or OverflowError
    when the square of a finite number is not finite.  A number [x] is
    finite when [x - x] is zero.  (The default [c2 = 3] is an int, whose
    square is exact.) *)
Definition is_finite (x : F) : bool := (x - x) == zero.

Definition py_square (c : F) : result F :=
  if is_finite c && negb (is_finite (c * c))
  then Err (OverflowError "(34, 'Numerical result out of range')")
  else Ok (c * c).

(** [rho[np.where(rho > c2**2)[0]] = c2**2] *)
Definition tau2_cap (rho : ndarray F) (c2 : F) : result (ndarray F) :=
  match rho with
  | Arr2 q rows =>
      c22 <- py_square c2 ;;
      Ok (Arr2 q (assign_rows rows (where_gt_rows rows c22) c22))
  | Arr1 _ => Err unpack_error
  end.

Definition scaleTau2 (x0 : ndarray F) (c1 c2 : F)
           (consistency : consistency_arg) : result (list F) :=
  match x0 with
  | Arr1 _ => Err unpack_error
  | Arr2 p rows =>
      let n := length rows in
      let summ := fun A : ndarray F =>
                    if any_nan x0 then np_nansum (flat A) else np_sum (flat A) in
      sr <- tau2_squares x0 c1 ;;
      let sigma0 := fst sr in
      rho <- tau2_cap (snd sr) c2 ;;
      let nEs2 := tau2_normaliser n c2 consistency in
      q <- scalar_divide es (summ rho) nEs2 ;;
      reshape1 (map (fun s => s * np_sqrt q) sigma0) p
  end.

Definition scaleTau2_default_c1 : F := lit (9 # 2).
Definition scaleTau2_default_c2 : F := lit 3.

(** ** scale_data *)

(** [float(m)].  A one-dimensional array is no scalar for NumPy (2.4 and
    later), whatever its length: the conversion raises TypeError. *)
Definition py_float (m : pyval) : result F :=
  match m with
  | PyFloat x => Ok x
  | PyArray _ =>
      Err (TypeError "only 0-dimensional arrays can be converted to Python scalars")
  | _ => Err (TypeError "float() argument must be a string or a real number")
  end.

(** [np.array([v for i in range(1, n + 1)])] *)
Definition stack (v : pyval) (n : nat) : result (ndarray F) :=
  match v with
  | PyFloat x => Ok (Arr1 (repeat x n))
  | PyArray a | PyList a =>
      Ok (match n with
          | O => Arr1 []
          | S _ => Arr2 (length a) (repeat a n)
          end)
  | PyNone => Err (TypeError "unsupported operand type(s): 'float' and 'NoneType'")
  end.

(** [X / s] for a scalar or array [s]. *)
Definition divide_by (X : ndarray F) (s : pyval) : result (ndarray F) :=
  match s with
  | PyFloat d => np_divide es X (Arr1 [d])
  | PyArray v | PyList v => np_divide es X (Arr1 v)
  | PyNone => Err (TypeError "unsupported operand type(s): 'float' and 'NoneType'")
  end.

Definition scale_data (X : ndarray F) (m s : pyval) : result (ndarray F) :=
  let p := match X with Arr2 p _ => p | Arr1 _ => 1%nat end in
  let n := match X with Arr2 _ rows => length rows | Arr1 v => length v end in
  let s := _handle_zeros_in_scale s in
  if (p =? 1)%nat
  then m <- py_float m ;;
       let Xm := np_map (fun x => x - m) X in
       divide_by Xm s
  else M <- stack m n ;;
       Xm <- np_binop sub X M ;;
       S <- stack s n ;;
       np_divide es Xm S.

End Twoblock.

Arguments Ret {F T} t.
Arguments Raise {F T} e.
Arguments Minimize {F T} c k.
Arguments py F T : clear implicits.
Arguments solver_t F : clear implicits.
Arguments kwargs F : clear implicits.
Arguments pyval F : clear implicits.
Arguments minimize_call F : clear implicits.
Arguments OptimizeResult F : clear implicits.

(* ================================================================== *)
(** * The module [_preproc_utilities]: [std] *)
(* ================================================================== *)

Section TwoblockStd.

Context {F : Type} {AF : Arith F}.
Local Open Scope arith_scope.
Local Open Scope result_scope.

(** [np.sqrt] and [scipy.stats.trim_mean] as above, and [np.power]. *)
Variable np_sqrt : F -> F.
Variable np_power : F -> F -> F.
Variable trim_mean : ndarray F -> F -> list F.

(** [np.var] of a flat sequence (with [ddof=0]): the mean is subtracted,
    the deviations are squared and summed, and the sum is divided by the
    number of entries. *)
Definition np_var1 (l : list F) : F :=
  let arrmean := np_sum l / of_nat (length l) in
  np_sum (map (fun x => (x - arrmean) * (x - arrmean)) l) / of_nat (length l).

(** [np.nanvar]: the entries that are not numbers count as zero in the
    sum that gives the mean, and their deviations are set to zero; both
    sums are divided by the number of entries that are numbers.  With no
    such entry the quotient is 0/0, not-a-number, which is what NumPy
    stores for an all-NaN slice. *)
Definition np_nanvar1 (l : list F) : F :=
  let cnt := of_nat (count_not_nan l) in
  let avg := np_nansum l / cnt in
  np_sum (map (fun x => if isnan x then zero else (x - avg) * (x - avg)) l)
  / cnt.

(** [std(X, trimming)].  [scipy.stats.trim_mean] answers a scalar for a
    one-dimensional array; it is held here as a vector of one entry. *)
Definition std (X : ndarray F) (trimming : F) : result (list F) :=
  if trimming == lit 0
  then Ok (map (fun v => np_power v (lit (1 # 2)))
               (if any_nan X
                then along_axis0 np_nanvar1 X
                else along_axis0 np_var1 X))
  else D <- np_binop sub X (Arr1 (trim_mean X trimming)) ;;
       let var := trim_mean (np_square D) trimming in
       Ok (map np_sqrt var).

End TwoblockStd.

(* ================================================================== *)
(** * The vocabulary of the properties *)
(* ================================================================== *)

(** A computation that ends in an exception, and one that ends in
    FloatingPointError. *)
Definition raises {T} (r : result T) : Prop := exists e, r = Err e.

Definition is_fpe {T} (r : result T) : bool :=
  match r with
  | Err (FloatingPointError _) => true
  | _ => false
  end.

(** Literals of the two arithmetics. *)
Definition fl (q : Q) : float := lit q.
Definition xq (q : Q) : Exact.xreal := lit q.

(** The laws of the scalar operations that the general properties use.
    Both arithmetics satisfy them. *)
Class ArithLaws {F : Type} (AF : Arith F) : Prop := {
  zero_eq_zero : eqb (lit 0) (lit 0) = true;
  one_nonzero : eqb (lit 1) (lit 0) = false;
  ltb_asym : forall a b, ltb a b = true -> ltb b a = false;
  ltb_nan : forall a b, isnan a = true -> ltb a b = false /\ ltb b a = false
}.

(** An optimiser that makes no step and answers its starting point. *)
Definition start_point_solver {F : Type} : solver_t F :=
  fun c => Ok {| res_x := m_x0 c; res_success := true |}.



Section Vocabulary.

Context {F : Type} {AF : Arith F}.
Local Open Scope arith_scope.

(** ** Zero divisors *)

Definition remap_zero (x : F) : F := if x == lit 0 then lit 1 else x.

Definition is_zero (x : F) : bool := x == zero.

(** ** scaleTau2 as the specification words it *)

(** The estimate the specification describes: for each column, [sigma0]
    times the root of that column's sum of capped squares over the
    normalising constant. *)
Definition tau2_per_column (np_sqrt : F -> F) (sigma0 : list F) (p : nat)
           (rho : list (list F)) (summ : list F -> F) (nEs2 : F) : list F :=
  map2 (fun s col => s * np_sqrt (summ col / nEs2)) sigma0 (columns p rho).

(** The capping the specification describes: entry by entry. *)
Definition winsorize (rho : list (list F)) (c : F) : list (list F) :=
  map (map (fun e => if gtb e c then c else e)) rho.

(** What the assignment through row indices does: a row with one entry
    above the bound is overwritten as a whole. *)
Definition cap_row (c : F) (r : list F) : list F :=
  if existsb (fun e => gtb e c) r then map (fun _ => c) r else r.

(** ** scale_data as the specification words it *)

(** The standardised matrix: every row minus [m], over [s]. *)
Definition standardised (rows : list (list F)) (m s : list F)
  : list (list F) :=
  map (fun r => map2 div (map2 sub r m) s) rows.

(** The inverse transform [Xs * s + m] of the specification. *)
Definition inverse_transform (Xs : ndarray F) (m s : list F)
  : result (ndarray F) :=
  (Y <- np_binop mul Xs (Arr1 s) ;; np_binop add Y (Arr1 m))%result.

(** ** Sorting *)

(** In the order of [np.sort] (numbers ascending, then not-a-number), no
    value is followed by one that comes strictly before it. *)
Definition ascending (a b : F) : Prop := np_lt b a = false.

(** ** The K-step LTS iteration as the specification words it

    For a data matrix of rows [rows] with [p] columns and a current
    estimate [m1]. *)

Variable trim_mean : ndarray F -> F -> list F.
Variable p : nat.
Variable rows : list (list F).

(** The squared distance of a row to [m1]; summed over the entries that
    are numbers when the data hold a not-a-number. *)
Definition sq_distance (m1 row : list F) : F :=
  let squares := map (fun d => d * d) (map2 sub row m1) in
  if any_nan (Arr2 p rows) then np_nansum squares else np_sum squares.

(** The value at rank [k], counted from 1, of the sorted values. *)
Definition value_at_rank (k : nat) (l : list F) : F :=
  nth (k - 1) (np_sort l) zero.

(** The cut distance: rank floor((n + 1) / 2) of the distances. *)
Definition cut_distance (m1 : list F) : F :=
  value_at_rank ((length rows + 1) / 2) (map (sq_distance m1) rows).

(** The h-subset: the rows at distance at most the cut distance. *)
Definition h_subset (m1 : list F) : list (list F) :=
  filter (fun row => sq_distance m1 row <=? cut_distance m1) rows.

(** The refined estimate: the column mean of the h-subset. *)
Definition lts_refine (m1 : list F) : list F :=
  mean trim_mean (Arr2 p (h_subset m1)) (lit 0).

(** The estimate after [k] refinements of the seed [m0]. *)
Definition lts_iterate (k : nat) (m0 : list F) : list F :=
  Nat.iter k lts_refine m0.

(** The largest absolute coordinate-wise change. *)
Definition max_change (m1 m2 : list F) : F :=
  match map2 (fun a b => fabs (a - b)) m1 m2 with
  | [] => zero
  | c :: cs => fold_left (fun m y => if gtb y m then y else m) cs c
  end.

(** The change between consecutive estimates exceeds, or is below, the
    tolerance. *)
Definition change_exceeds (tol : F) (m1 m2 : list F) : bool :=
  gtb (max_change m1 m2) tol.

Definition change_below (tol : F) (m1 m2 : list F) : bool :=
  max_change m1 m2 <? tol.

End Vocabulary.

Section FurtherVocabulary.

Context {F : Type} {AF : Arith F}.
Local Open Scope arith_scope.

(** ** The L1-median objective *)

(** The reduction, [np.sum] or [np.nansum], that the module picks for
    the data [X]. *)
Definition summ_of (X : ndarray F) (l : list F) : F :=
  if any_nan X then np_nansum l else np_sum l.

(** The direction from the point [a] to the row [r]: their difference
    over its Euclidean norm, a norm of zero being replaced by one. *)
Definition unit_direction (np_sqrt : F -> F) (a r : list F) : list F :=
  let d := map2 sub r a in
  map (fun x => x / remap_zero (_euclidnorm np_sqrt d)) d.

(** ** The median *)

(** The middle of a sorted sequence: its middle entry, or the mean of
    its two middle entries when their number is even; not-a-number (0/0)
    when there is none. *)
Definition middle (s : list F) : F :=
  match length s with
  | O => zero / zero
  | n => if Nat.even n
         then (nth (n / 2 - 1) s zero + nth (n / 2) s zero) / two
         else nth (n / 2) s zero
  end.

(** ** The initial scale of scaleTau2 *)

(** [sigma0]: the column-wise median of the absolute deviations from the
    column-wise median. *)
Definition tau2_sigma0 (x : ndarray F) : result (list F) :=
  (D <- np_binop sub x (Arr1 (median x)) ;; Ok (median (np_abs D)))%result.

(** ** One pass of the K-step LTS loop, in the words of the specification

    Nothing here is written with the functions of the module or with the
    sort of the embedding: a sorted sequence is one in order, the mean is
    a sum over a count. *)

(** [a] may come before [b] in a sorted sequence: [b] is not less than
    [a], and numbers come before what is not a number. *)
Definition in_order (a b : F) : Prop :=
  (b <? a) = false /\ (isnan a = true -> isnan b = true).

(** The column mean of a matrix [H] of [p] columns: for each column the
    sum of its entries over their number; when [H] holds an entry that
    is not a number, the sum and the number of the entries that are
    numbers. *)
Definition column_mean (p : nat) (H : list (list F)) : list F :=
  map (fun j =>
         let col := map (fun r => nth j r zero) H in
         if existsb isnan (concat H)
         then np_nansum col
              / of_nat (length (filter (fun x => negb (isnan x)) col))
         else np_sum col / of_nat (length col))
      (seq 0 p).

(** [m2] is the refinement of [m1] on the data [rows]: with the squared
    distances of the rows to [m1] put in order, the cut distance is the
    one at rank floor((n + 1) / 2), counted from 1, the h-subset holds
    the rows at distance at most the cut distance, and [m2] is its
    column mean. *)
Definition half_sample_step (p : nat) (rows : list (list F))
           (m1 m2 : list F) : Prop :=
  exists sorted : list F,
    Permutation (map (sq_distance p rows m1) rows) sorted
    /\ Sorted in_order sorted
    /\ m2 = column_mean p
               (filter (fun row =>
                          sq_distance p rows m1 row
                          <=? nth ((length rows + 1) / 2 - 1) sorted zero)
                       rows).

(** ** Closeness *)




End FurtherVocabulary.

(** ** Translation, in exact arithmetic *)

Module Shift.

Import Exact.
Local Open Scope arith_scope.

(** The number [n] as an exact scalar. *)
Definition xnat (n : nat) : Qc := Q2Qc (inject_Z (Z.of_nat n)).

Definition not_nan (x : xreal) : bool := negb (isnan x).

(** [x + c], [m + v] and [X + v] for numbers [c] and a vector [v] of
    numbers. *)
Definition shift (c : Qc) (x : xreal) : xreal := x + Some c.

Definition shift_vec (v : list Qc) (m : list xreal) : list xreal :=
  map2 add m (map Some v).

Definition shift_rows (v : list Qc) (rows : list (list xreal))
  : list (list xreal) :=
  map (shift_vec v) rows.


(** A call of the optimiser with the start point and the data shifted,
    and its answer shifted. *)
Definition shift_call (v : list Qc) (c : minimize_call xreal)
  : minimize_call xreal :=
  {| m_fun := m_fun c;
     m_x0 := shift_vec v (m_x0 c);
     m_args := match m_args c with
               | Arr2 p rows => Arr2 p (shift_rows v rows)
               | Arr1 u => Arr1 u
               end;
     m_jac := m_jac c;
     m_tol := m_tol c;
     m_options := m_options c;
     m_method := m_method c |}.

Definition shift_answer (v : list Qc) (r : result (OptimizeResult xreal))
  : result (OptimizeResult xreal) :=
  match r with
  | Ok r => Ok {| res_x := shift_vec v (res_x r);
                  res_success := res_success r |}
  | Err e => Err e
  end.

(** The objective and the Jacobian of a call do not change when the
    point and the data are shifted by the same vector. *)
Definition invariant_objective (v : list Qc) (c : minimize_call xreal)
           (rows : list (list xreal)) : Prop :=
  forall a : list xreal,
    length a = length v ->
    m_fun c (shift_vec v a) (Arr2 (length v) (shift_rows v rows))
    = m_fun c a (Arr2 (length v) rows)
    /\ m_jac c (shift_vec v a) (Arr2 (length v) (shift_rows v rows))
       = m_jac c a (Arr2 (length v) rows).

(** What is assumed of [scipy.optimize.minimize]: its answer has the
    dimension of the start point, and for an objective that does not
    change under a common shift of the point and the data, on a
    rectangular data matrix, with start point and data shifted by the
    same vector, it answers the shifted point. *)
Definition translation_equivariant (solver : solver_t xreal) : Prop :=
  (forall c r, solver c = Ok r -> length (res_x r) = length (m_x0 c))
  /\ (forall (v : list Qc) (c : minimize_call xreal) (rows : list (list xreal)),
         m_args c = Arr2 (length v) rows ->
         rectangular (Arr2 (length v) rows) ->
         length (m_x0 c) = length v ->
         invariant_objective v c rows ->
         solver (shift_call v c) = shift_answer v (solver c)).

End Shift.

(** ** Inputs of the examples *)

Definition tau2_input_a : ndarray float :=
  Arr2 2 [[fl 0; fl 0]; [fl 1; fl 2]; [fl 2; fl 4]].

Definition tau2_input_b : ndarray float :=
  Arr2 2 [[fl (-1); fl (-1)]; [fl 0; fl 0]; [fl 1; fl 10]].

Definition outlier_rows : list (list float) :=
  [[fl 1; fl 2]; [fl 3; fl 4]; [fl 5; fl 6]; [fl 100; fl 200]].

Definition exact_outlier_rows : list (list Exact.xreal) :=
  [[xq 1; xq 2]; [xq 3; xq 4]; [xq 5; xq 6]; [xq 100; xq 200]].

Definition skewed_rows : list (list float) :=
  [[fl 0]; [fl 1]; [fl 2]; [fl 4]; [fl 100]].


(* ================================================================== *)
(** * The laws of the two arithmetics *)
(* ================================================================== *)

Module Binary64Facts.

Lemma SFcompare_antisym (x y : spec_float) :
  SFcompare y x = option_map CompOpp (SFcompare x y).
Proof.
  destruct x as [sx| sx| |sx mx ex], y as [sy| sy| |sy my ey]; simpl;
    try reflexivity;
    try (destruct sx; reflexivity);
    try (destruct sy; reflexivity);
    try (destruct sx, sy; reflexivity).
  change (Pos.compare_cont Eq mx my) with (Pos.compare mx my).
  change (Pos.compare_cont Eq my mx) with (Pos.compare my mx).
  rewrite (Z.compare_antisym ex ey), (Pos.compare_antisym mx my).
  destruct sx, sy; try reflexivity;
    destruct (ex ?= ey)%Z; simpl; try reflexivity;
    destruct (mx ?= my)%positive; reflexivity.
Qed.

Lemma SFcompare_refl (x : spec_float) :
  SFcompare x x = match x with S754_nan => None | _ => Some Eq end.
Proof.
  destruct x as [sx| sx| |sx mx ex]; simpl; try reflexivity.
  - destruct sx; reflexivity.
  - rewrite Z.compare_refl.
    change (Pos.compare_cont Eq mx mx) with (Pos.compare mx mx).
    rewrite Pos.compare_refl. destruct sx; reflexivity.
Qed.

Lemma is_nan_Prim2SF (x : float) :
  PrimFloat.is_nan x = true <-> Prim2SF x = S754_nan.
Proof.
  unfold PrimFloat.is_nan. rewrite FloatAxioms.eqb_spec. unfold SFeqb.
  rewrite SFcompare_refl.
  destruct (Prim2SF x); simpl; split; congruence.
Qed.

Lemma SFcompare_not_nan (x y : spec_float) :
  x <> S754_nan -> y <> S754_nan -> exists c, SFcompare x y = Some c.
Proof.
  destruct x, y; simpl; intros; try congruence; eauto.
Qed.

(** On numbers, [a < b] is the negation of [b <= a]. *)
Lemma float_ltb_leb (a b : float) :
  PrimFloat.is_nan a = false -> PrimFloat.is_nan b = false ->
  PrimFloat.ltb a b = negb (PrimFloat.leb b a).
Proof.
  intros Ha Hb.
  rewrite FloatAxioms.ltb_spec, FloatAxioms.leb_spec. unfold SFltb, SFleb.
  rewrite (SFcompare_antisym (Prim2SF a) (Prim2SF b)).
  destruct (SFcompare_not_nan (x := Prim2SF a) (y := Prim2SF b)) as [c Hc].
  - intros E. apply is_nan_Prim2SF in E. congruence.
  - intros E. apply is_nan_Prim2SF in E. congruence.
  - rewrite Hc. destruct c; reflexivity.
Qed.

(** A comparison with not-a-number is false. *)
Lemma float_ltb_nan (a b : float) :
  PrimFloat.is_nan a = true ->
  PrimFloat.ltb a b = false /\ PrimFloat.ltb b a = false.
Proof.
  intros Ha. apply is_nan_Prim2SF in Ha.
  rewrite !FloatAxioms.ltb_spec. unfold SFltb. rewrite Ha.
  split; [reflexivity|]. destruct (Prim2SF b); reflexivity.
Qed.

Lemma float_ltb_asym (a b : float) :
  PrimFloat.ltb a b = true -> PrimFloat.ltb b a = false.
Proof.
  rewrite !FloatAxioms.ltb_spec. unfold SFltb.
  rewrite (SFcompare_antisym (Prim2SF a) (Prim2SF b)).
  destruct (SFcompare (Prim2SF a) (Prim2SF b)) as [[]|]; simpl; congruence.
Qed.

End Binary64Facts.

Module ExactFacts.

Import Exact.

Lemma xltb_asym (a b : xreal) :
  xcmp Qlt_bool a b = true -> xcmp Qlt_bool b a = false.
Proof.
  destruct a as [x|], b as [y|]; simpl; try discriminate; auto.
  unfold Qlt_bool. intros H. apply negb_true_iff in H.
  apply negb_false_iff, Qle_bool_iff.
  destruct (Qlt_le_dec x y) as [L|L].
  - apply Qlt_le_weak, L.
  - apply Qle_bool_iff in L. congruence.
Qed.

Lemma xltb_nan (a b : xreal) :
  xisnan a = true -> xcmp Qlt_bool a b = false /\ xcmp Qlt_bool b a = false.
Proof.
  destruct a as [x|]; [discriminate|]. intros _.
  split; [reflexivity | destruct b; reflexivity].
Qed.

End ExactFacts.

Lemma binary64_laws : ArithLaws binary64.
Proof.
  split.
  - reflexivity.
  - reflexivity.
  - exact Binary64Facts.float_ltb_asym.
  - exact Binary64Facts.float_ltb_nan.
Qed.

Lemma exact_laws : ArithLaws exact.
Proof.
  split.
  - reflexivity.
  - reflexivity.
  - exact ExactFacts.xltb_asym.
  - exact ExactFacts.xltb_nan.
Qed.

#[export] Existing Instance binary64_laws.
#[export] Existing Instance exact_laws.

Example lit_099 : lit (99 # 100) = 0x1.fae147ae147aep-1%float.
Proof. reflexivity. Qed.

(* ================================================================== *)
(** * Properties: the L1-median wrapper *)
(* ================================================================== *)

Section L1MedianProps.

Context {F : Type} {AF : Arith F}.
Variable np_sqrt : F -> F.
Variable es : errstate.

(** When the caller passes no [x0], an input with two or more columns
    goes to the optimiser, started at the column-wise median. *)
Lemma l1median_default_start (p : nat) (rows : list (list F)) (kw : kwargs F) :
  (2 <= p)%nat -> kw_x0 kw = None ->
  exists c k,
    l1median np_sqrt es (Arr2 p rows) kw = Minimize c k
    /\ m_x0 c = median (Arr2 p rows)
    /\ m_args c = Arr2 p rows
    /\ forall r, k r = Ret (res_x r).
Proof.
  intros Hp Hkw. unfold l1median. rewrite Hkw.
  destruct (Nat.ltb_spec p 2) as [L|L]; [lia|].
  simpl. eexists _, _. repeat split.
Qed.

(** C4. For an input with fewer than two columns, a vector or an n x 1
    matrix, [l1median] returns [median(X)] itself: the result is a plain
    return, with no call of the optimiser on the way, whatever keyword
    arguments were passed and whatever optimiser is installed. *)
Theorem l1median_univariate_is_median (X : ndarray F) (kw : kwargs F) :
  (ncols_of X < 2)%nat ->
  l1median np_sqrt es X kw = Ret (median X)
  /\ forall solver, run solver (l1median np_sqrt es X kw) = Ok (median X).
Proof.
  intros Hp. assert (E : l1median np_sqrt es X kw = Ret (median X)).
  { unfold l1median.
    replace (match X with Arr1 _ => 1%nat | Arr2 p _ => p end) with (ncols_of X)
      by (destruct X; reflexivity).
    apply Nat.ltb_lt in Hp. rewrite Hp. reflexivity. }
  split; [exact E|]. intros solver. rewrite E. reflexivity.
Qed.

(** C8. What the code does when the caller supplies [x0] for an input
    with two or more columns: the local variable [x0] was never bound,
    and reading it raises UnboundLocalError before the optimiser is
    reached.  The supplied starting point is not used. *)
Theorem l1median_supplied_x0_raises
        (p : nat) (rows : list (list F)) (x0 : list F) (kw : kwargs F) :
  (2 <= p)%nat -> kw_x0 kw = Some x0 ->
  l1median np_sqrt es (Arr2 p rows) kw = Raise (UnboundLocalError "x0").
Proof.
  intros Hp Hkw. unfold l1median. rewrite Hkw.
  destruct (Nat.ltb_spec p 2) as [L|L]; [lia|]. reflexivity.
Qed.

End L1MedianProps.

Lemma l1median_univariate_is_median_witness :
  let X := Arr2 1 [[fl 1]; [fl 5]; [fl 3]] in
  (ncols_of X < 2)%nat
  /\ l1median PrimFloat.sqrt Warn X no_kwargs = Ret (median X)
  /\ forall solver, run solver (l1median PrimFloat.sqrt Warn X no_kwargs)
                    = Ok (median X).
Proof.
  intros X.
  assert (H : (ncols_of X < 2)%nat) by (simpl; lia).
  split; [exact H|].
  exact (@l1median_univariate_is_median float _ PrimFloat.sqrt Warn X no_kwargs H).
Defined.

Lemma l1median_supplied_x0_raises_witness :
  let rows := [[fl 0; fl 0]; [fl 1; fl 1]; [fl 2; fl 2]] in
  let kw := {| kw_x0 := Some [fl 0; fl 0]; kw_method := None;
               kw_tol := None; kw_options := None |} in
  (2 <= 2)%nat /\ kw_x0 kw = Some [fl 0; fl 0]
  /\ l1median PrimFloat.sqrt Warn (Arr2 2 rows) kw
     = Raise (UnboundLocalError "x0").
Proof.
  intros rows kw.
  assert (H1 : (2 <= 2)%nat) by lia.
  assert (H2 : kw_x0 kw = Some [fl 0; fl 0]) by reflexivity.
  split; [exact H1|]. split; [exact H2|].
  exact (@l1median_supplied_x0_raises float _ PrimFloat.sqrt Warn 2%nat rows _ kw H1 H2).
Defined.

(* ================================================================== *)
(** * Properties: validation of the trimming fraction *)
(* ================================================================== *)

Lemma raises_Err {T} (e : exn) : raises (@Err T e).
Proof. exists e. reflexivity. Qed.

Lemma raises_Ok {T} (t : T) : ~ raises (Ok t).
Proof. intros [e H]. discriminate. Qed.

(** [_check_trimming] on binary64, in terms of the two comparisons. *)
Lemma check_trimming_raises_iff (t : float) :
  raises (_check_trimming t) <->
  PrimFloat.ltb (fl (99 # 100)) t = true \/ PrimFloat.ltb t (fl 0) = true.
Proof.
  unfold _check_trimming, gtb. cbn [ltb binary64]. fold (fl (99 # 100)) (fl 0).
  destruct (PrimFloat.ltb (fl (99 # 100)) t), (PrimFloat.ltb t (fl 0)); simpl;
    split; intros H; auto using raises_Err;
    try (exfalso; apply (raises_Ok H));
    destruct H; discriminate.
Qed.

(** C6, as the code has it. On binary64, [_check_trimming] raises exactly
    when the fraction is a number outside the closed interval [0, 0.99]:
    0.99 itself is accepted (and so is not-a-number). It raises for 1.0 and
    -0.1 and passes for 0, 0.5, 0.98 and 0.99. *)
Theorem check_trimming_closed_interval :
  (forall t : float,
      raises (_check_trimming t) <->
      isnan t = false
      /\ ~ (leb (fl 0) t = true /\ leb t (fl (99 # 100)) = true))
  /\ raises (_check_trimming (fl 1))
  /\ raises (_check_trimming (fl (-1 # 10)))
  /\ _check_trimming (fl 0) = Ok tt
  /\ _check_trimming (fl (1 # 2)) = Ok tt
  /\ _check_trimming (fl (98 # 100)) = Ok tt
  /\ _check_trimming (fl (99 # 100)) = Ok tt.
Proof.
  split; [|repeat split; try reflexivity; apply raises_Err].
  intros t. rewrite check_trimming_raises_iff. cbn [isnan leb binary64].
  destruct (PrimFloat.is_nan t) eqn:N.
  - destruct (Binary64Facts.float_ltb_nan t (fl (99 # 100)) N) as [_ H1].
    destruct (Binary64Facts.float_ltb_nan t (fl 0) N) as [H2 _].
    rewrite H1, H2. split; [intros [H|H]; discriminate | intros [H _]; discriminate].
  - rewrite (Binary64Facts.float_ltb_leb (fl (99 # 100)) t eq_refl N).
    rewrite (Binary64Facts.float_ltb_leb t (fl 0) N eq_refl).
    destruct (PrimFloat.leb t (fl (99 # 100))), (PrimFloat.leb (fl 0) t); simpl;
      split; intros H; try tauto;
      try (destruct H; discriminate);
      try (split; [reflexivity | intros [A B]; discriminate]);
      try (exfalso; destruct H as [_ H]; apply H; split; reflexivity).
Qed.

(** C6 as stated fails at 0.99: the value lies outside the half-open
    interval [0, 0.99), and [_check_trimming] does not raise. *)
Lemma check_trimming_half_open_counterexample :
  ~ (raises (_check_trimming (fl (99 # 100))) <->
     ~ (leb (fl 0) (fl (99 # 100)) = true
        /\ ltb (fl (99 # 100)) (fl (99 # 100)) = true)).
Proof.
  intros [_ H].
  assert (R : raises (_check_trimming (fl (99 # 100)))).
  { apply H. intros [_ L]. vm_compute in L. discriminate. }
  revert R. apply raises_Ok.
Qed.

(* ================================================================== *)
(** * Properties: zero scales and zero distances *)
(* ================================================================== *)

Section ZeroDivisors.

Context {F : Type} {AF : Arith F} {LF : ArithLaws AF}.
Variable np_sqrt : F -> F.
Local Open Scope arith_scope.

Lemma remap_zero_nonzero (x : F) : is_zero (remap_zero x) = false.
Proof.
  unfold is_zero, remap_zero, zero.
  destruct (x == lit 0) eqn:E; [apply one_nonzero | exact E].
Qed.

Lemma remap_zero_spec (x : F) :
  (is_zero x = true -> remap_zero x = lit 1)
  /\ (is_zero x = false -> remap_zero x = x).
Proof.
  unfold is_zero, remap_zero, zero. destruct (x == lit 0); split; congruence.
Qed.

Lemma no_zero_map_remap (v : list F) :
  existsb is_zero (map remap_zero v) = false.
Proof.
  induction v as [|x v IH]; simpl; [reflexivity|].
  rewrite remap_zero_nonzero, IH. reflexivity.
Qed.

Lemma existsb_repeat {T} (f : T -> bool) (x : T) (n : nat) :
  f x = false -> existsb f (repeat x n) = false.
Proof. intros H. induction n; simpl; [reflexivity|]. rewrite H, IHn. reflexivity. Qed.

Lemma existsb_concat_false {T} (f : T -> bool) (ll : list (list T)) :
  Forall (fun l => existsb f l = false) ll -> existsb f (concat ll) = false.
Proof.
  induction 1 as [|l ll Hl _ IH]; simpl; [reflexivity|].
  rewrite existsb_app, Hl, IH. reflexivity.
Qed.

Lemma np_divide_no_zero (es : errstate) (X Y : ndarray F) :
  existsb is_zero (flat Y) = false ->
  np_divide es X Y = np_binop div X Y.
Proof.
  intros H. unfold np_divide, trap_zero. fold is_zero. rewrite H.
  destruct es, (np_binop div X Y); reflexivity.
Qed.

Lemma np_idivide_no_zero (es : errstate) (X Y : ndarray F) :
  existsb is_zero (flat Y) = false ->
  np_idivide es X Y = np_ibinop div X Y.
Proof.
  intros H. unfold np_idivide, trap_zero. fold is_zero. rewrite H.
  destruct es, (np_ibinop div X Y); reflexivity.
Qed.

Lemma np_divide_errstate (es : errstate) (X Y : ndarray F) :
  existsb is_zero (flat Y) = false ->
  np_divide es X Y = np_divide Warn X Y.
Proof. intros H. rewrite np_divide_no_zero by exact H. reflexivity. Qed.

Lemma np_idivide_errstate (es : errstate) (X Y : ndarray F) :
  existsb is_zero (flat Y) = false ->
  np_idivide es X Y = np_idivide Warn X Y.
Proof. intros H. rewrite np_idivide_no_zero by exact H. reflexivity. Qed.

(** The divisor [scale_data] builds from a remapped scale has no zero. *)
Lemma stack_remapped_no_zero (s : pyval F) (n : nat) (S : ndarray F) :
  stack (_handle_zeros_in_scale s) n = Ok S ->
  existsb is_zero (flat S) = false.
Proof.
  destruct s as [x|v|v|]; simpl; try discriminate.
  - intros E. injection E as <-. simpl.
    apply existsb_repeat. apply remap_zero_nonzero.
  - intros E. injection E as <-. destruct n; [reflexivity|].
    cbn [flat].
    apply existsb_concat_false.
    change (S n) with (1 + n)%nat.
    apply Forall_forall. intros l Hl. apply repeat_spec in Hl. subst l.
    apply no_zero_map_remap.
Qed.

Lemma tile_columns_remapped_no_zero (dists : list F) (n p : nat) (T : ndarray F) :
  tile_columns (map remap_zero dists) n p = Ok T ->
  existsb is_zero (flat T) = false.
Proof.
  unfold tile_columns. destruct (_ =? _)%nat; [|discriminate].
  intros E. injection E as <-. cbn [flat].
  apply existsb_concat_false. apply Forall_forall. intros l Hl.
  apply in_map_iff in Hl. destruct Hl as [d [<- Hd]].
  apply existsb_repeat.
  apply in_map_iff in Hd. destruct Hd as [x [<- _]].
  apply remap_zero_nonzero.
Qed.

(** Whatever the error state, [scale_data] computes the same: the trap
    on a zero divisor has nothing to fire on. *)
Lemma scale_data_errstate (es : errstate) (X : ndarray F) (m s : pyval F) :
  scale_data es X m s = scale_data Warn X m s.
Proof.
  unfold scale_data.
  destruct (_ =? 1)%nat.
  - destruct (py_float m) as [m0|e]; simpl; [|reflexivity].
    destruct s as [x|v|v|]; simpl; try reflexivity.
    + apply np_divide_errstate. simpl. fold (remap_zero x).
      rewrite remap_zero_nonzero. reflexivity.
    + apply np_divide_errstate. simpl. apply no_zero_map_remap.
  - destruct (stack m _) as [M|e]; simpl; [|reflexivity].
    destruct (np_binop sub X M) as [Xm|e]; simpl; [|reflexivity].
    destruct (stack (_handle_zeros_in_scale s) _) as [S|e] eqn:E; simpl;
      [|reflexivity].
    apply stack_remapped_no_zero in E.
    apply np_divide_errstate, E.
Qed.

Lemma l1m_jacobian_errstate (es : errstate) (a : list F) (X : ndarray F) :
  _l1m_jacobian np_sqrt es a X = _l1m_jacobian np_sqrt Warn a X.
Proof.
  unfold _l1m_jacobian. destruct X as [v|p rows]; [reflexivity|].
  destruct (_diffmat_objective a (Arr2 p rows)) as [dX|e]; simpl; [|reflexivity].
  destruct (apply_along_axis1 (_euclidnorm np_sqrt) dX) as [dists|e]; simpl;
    [|reflexivity].
  fold remap_zero.
  destruct (tile_columns (map remap_zero dists) (length rows) p) as [T|e] eqn:E;
    simpl; [|reflexivity].
  apply tile_columns_remapped_no_zero in E.
  rewrite (np_idivide_errstate es _ _ E). reflexivity.
Qed.

(** ** With warnings only, nothing raises FloatingPointError *)

Lemma np_binop_not_fpe (op : F -> F -> F) (X Y : ndarray F) :
  is_fpe (np_binop op X Y) = false.
Proof.
  destruct X, Y; simpl;
    repeat match goal with |- context [bdim ?a ?b] => destruct (bdim a b) end;
    reflexivity.
Qed.

Lemma np_ibinop_not_fpe (op : F -> F -> F) (X Y : ndarray F) :
  is_fpe (np_ibinop op X Y) = false.
Proof.
  unfold np_ibinop. pose proof (np_binop_not_fpe op X Y) as H.
  destruct (np_binop op X Y) as [Z|e]; [|exact H].
  destruct (list_eq_dec _ _ _); reflexivity.
Qed.

Lemma rbind_not_fpe {T U} (r : result T) (k : T -> result U) :
  is_fpe r = false -> (forall t, is_fpe (k t) = false) ->
  is_fpe (rbind r k) = false.
Proof. intros Hr Hk. destruct r as [t|e]; simpl; [apply Hk | exact Hr]. Qed.

Lemma scale_data_warn_not_fpe (X : ndarray F) (m s : pyval F) :
  is_fpe (scale_data Warn X m s) = false.
Proof.
  unfold scale_data. destruct (_ =? 1)%nat.
  - apply rbind_not_fpe; [destruct m as [x|[|x [|y v]]|v|]; reflexivity|].
    intros m0. destruct s; simpl; try reflexivity; apply np_binop_not_fpe.
  - apply rbind_not_fpe; [destruct m as [x|v|v|]; reflexivity|]. intros M.
    apply rbind_not_fpe; [apply np_binop_not_fpe|]. intros Xm.
    apply rbind_not_fpe; [destruct s as [x|v|v|]; reflexivity|]. intros S.
    apply np_binop_not_fpe.
Qed.

Lemma l1m_jacobian_warn_not_fpe (a : list F) (X : ndarray F) :
  is_fpe (_l1m_jacobian np_sqrt Warn a X) = false.
Proof.
  unfold _l1m_jacobian. destruct X as [v|p rows]; [reflexivity|].
  apply rbind_not_fpe; [apply np_binop_not_fpe|]. intros dX.
  apply rbind_not_fpe; [destruct dX as [v|q [|r rs]]; reflexivity|]. intros dists.
  simpl. apply rbind_not_fpe.
  { unfold tile_columns. destruct (_ =? _)%nat; reflexivity. }
  intros T. apply rbind_not_fpe; [apply np_ibinop_not_fpe|]. intros dX'.
  destruct (any_nan _); reflexivity.
Qed.

(** C5. The two places where a computed scale or distance becomes a
    divisor.  [_handle_zeros_in_scale] replaces each zero by 1.0 and keeps
    every other value, so its result holds no zero; and with NumPy set to
    raise on a zero divisor, [scale_data] (for every array, location and
    scale, constant columns included) and [_l1m_jacobian] (for every
    candidate point, one that coincides with a data row included) behave
    exactly as with the trap off and never raise FloatingPointError. *)
Theorem zero_divisors_are_remapped :
  (forall x : F,
      _handle_zeros_in_scale (PyFloat x) = PyFloat (remap_zero x))
  /\ (forall v : list F,
         _handle_zeros_in_scale (PyArray v) = PyArray (map remap_zero v))
  /\ (forall x : F,
         (is_zero x = true -> remap_zero x = lit 1)
         /\ (is_zero x = false -> remap_zero x = x)
         /\ is_zero (remap_zero x) = false)
  /\ (forall (X : ndarray F) (m s : pyval F),
         scale_data RaiseFPE X m s = scale_data Warn X m s
         /\ is_fpe (scale_data RaiseFPE X m s) = false)
  /\ (forall (a : list F) (X : ndarray F),
         _l1m_jacobian np_sqrt RaiseFPE a X = _l1m_jacobian np_sqrt Warn a X
         /\ is_fpe (_l1m_jacobian np_sqrt RaiseFPE a X) = false).
Proof.
  split; [reflexivity|]. split; [reflexivity|]. split.
  { intros x. destruct (remap_zero_spec x) as [A B].
    repeat split; auto using remap_zero_nonzero. }
  split.
  - intros X m s. rewrite scale_data_errstate.
    split; [reflexivity | apply scale_data_warn_not_fpe].
  - intros a X. rewrite l1m_jacobian_errstate.
    split; [reflexivity | apply l1m_jacobian_warn_not_fpe].
Qed.

End ZeroDivisors.

Lemma zero_divisors_are_remapped_witness :
  let X := Arr2 2 [[fl 1; fl 7]; [fl 3; fl 7]] in
  (scale_data RaiseFPE X (PyArray [fl 2; fl 7]) (PyArray [fl 1; fl 0])
   = scale_data Warn X (PyArray [fl 2; fl 7]) (PyArray [fl 1; fl 0])
   /\ is_fpe (scale_data RaiseFPE X (PyArray [fl 2; fl 7])
                         (PyArray [fl 1; fl 0])) = false)
  /\ (_l1m_jacobian PrimFloat.sqrt RaiseFPE [fl 1; fl 7] X
      = _l1m_jacobian PrimFloat.sqrt Warn [fl 1; fl 7] X
      /\ is_fpe (_l1m_jacobian PrimFloat.sqrt RaiseFPE [fl 1; fl 7] X) = false).
Proof.
  intros X.
  destruct (@zero_divisors_are_remapped float binary64 binary64_laws
              PrimFloat.sqrt) as [_ [_ [_ [Hs Hj]]]].
  split; [apply Hs | apply Hj].
Defined.

(** A constant column and a point on a data row, on binary64 with the
    trap on: the scale 0.0 of the constant second column divides as 1.0,
    and the zero distance of the first row to itself likewise. *)
Example scale_data_constant_column :
  scale_data RaiseFPE (Arr2 2 [[fl 1; fl 7]; [fl 3; fl 7]])
             (PyArray [fl 2; fl 7]) (PyArray [fl 1; fl 0])
  = Ok (Arr2 2 [[fl (-1); fl 0]; [fl 1; fl 0]]).
Proof. reflexivity. Qed.

Example l1m_jacobian_on_data_row :
  _l1m_jacobian PrimFloat.sqrt RaiseFPE [fl 0; fl 0]
                (Arr2 2 [[fl 0; fl 0]; [fl 3; fl 4]])
  = Ok [fl (-3 # 5); fl (-4 # 5)].
Proof. reflexivity. Qed.

(* ================================================================== *)
(** * Properties: scaleTau2 *)
(* ================================================================== *)

Section ScaleTau2Props.

Context {F : Type} {AF : Arith F}.
Variable np_sqrt : F -> F.
Variables norm_cdf norm_pdf norm_ppf : F -> F.
Variable es : errstate.
Local Open Scope arith_scope.

(** The normalising constant of the three consistency modes. *)
Lemma tau2_normaliser_modes (n : nat) (c2 : F) :
  tau2_normaliser norm_cdf norm_pdf norm_ppf n c2 (CBool false) = of_nat n
  /\ tau2_normaliser norm_cdf norm_pdf norm_ppf n c2 (CBool true)
     = of_nat n * Es2 norm_cdf norm_pdf norm_ppf c2
  /\ tau2_normaliser norm_cdf norm_pdf norm_ppf n c2 (CStr "finiteSample")
     = of_Z (Z.of_nat n - 2) * Es2 norm_cdf norm_pdf norm_ppf c2.
Proof. repeat split. Qed.

Lemma existsb_eqb_lt (i : nat) (l : list nat) :
  Forall (fun j => j <> i) l -> existsb (Nat.eqb i) l = false.
Proof.
  induction 1 as [|j l Hj _ IH]; simpl; [reflexivity|].
  rewrite IH, orb_false_r. apply Nat.eqb_neq. congruence.
Qed.

Lemma where_rows_from_ge (c : F) (A : list (list F)) (k : nat) :
  Forall (fun j => (k <= j)%nat)
         (concat (map (fun ir : nat * list F =>
                         map (fun _ => fst ir)
                             (filter (fun e => gtb e c) (snd ir)))
                      (combine (seq k (length A)) A))).
Proof.
  revert k. induction A as [|r A IH]; intros k; simpl; [constructor|].
  apply Forall_app. split.
  - apply Forall_forall. intros j Hj. apply in_map_iff in Hj.
    destruct Hj as [_ [<- _]]. lia.
  - eapply Forall_impl; [|apply (IH (S k))]. simpl. intros; lia.
Qed.

Lemma assign_rows_from (c : F) (A : list (list F)) (k : nat) (pre : list nat) :
  Forall (fun j => (j < k)%nat) pre ->
  map (fun ir : nat * list F =>
         if existsb (Nat.eqb (fst ir))
                    (pre ++ concat (map (fun ir : nat * list F =>
                                           map (fun _ => fst ir)
                                               (filter (fun e => gtb e c) (snd ir)))
                                        (combine (seq k (length A)) A)))
         then map (fun _ => c) (snd ir) else snd ir)
      (combine (seq k (length A)) A)
  = map (cap_row c) A.
Proof.
  revert k pre. induction A as [|r A IH]; intros k pre Hpre; [reflexivity|].
  cbn [length seq combine map concat fst snd]. f_equal.
  - unfold cap_row. rewrite !existsb_app.
    rewrite (existsb_eqb_lt (i := k) (l := pre)).
    2:{ eapply Forall_impl; [|exact Hpre]. simpl. intros; lia. }
    rewrite (existsb_eqb_lt (i := k)
               (l := concat (map _ (combine (seq (S k) (length A)) A)))).
    2:{ eapply Forall_impl; [|apply where_rows_from_ge]. simpl. intros; lia. }
    rewrite orb_false_r. simpl.
    assert (E : existsb (Nat.eqb k)
                  (map (fun _ : F => k) (filter (fun e => gtb e c) r))
                = existsb (fun e => gtb e c) r).
    { induction r as [|e r IHr]; simpl; [reflexivity|].
      destruct (gtb e c); simpl; [rewrite Nat.eqb_refl; reflexivity | exact IHr]. }
    rewrite E. reflexivity.
  - rewrite app_assoc. apply IH.
    apply Forall_app. split.
    + eapply Forall_impl; [|exact Hpre]. simpl. intros; lia.
    + apply Forall_forall. intros j Hj. apply in_map_iff in Hj.
      destruct Hj as [_ [<- _]]. lia.
Qed.

(** [tau2_cap] caps row by row, at the square that [c2 ** 2] returns. *)
Lemma tau2_cap_rowwise (q : nat) (rho : list (list F)) (c2 : F) :
  tau2_cap (Arr2 q rho) c2
  = rbind (py_square c2) (fun c22 => Ok (Arr2 q (map (cap_row c22) rho))).
Proof.
  unfold tau2_cap. destruct (py_square c2) as [c22|e]; [|reflexivity].
  cbn [rbind]. unfold assign_rows, where_gt_rows. do 2 f_equal.
  apply (assign_rows_from c22 rho (k := 0) (pre := [])). constructor.
Qed.

(** On a single column the two cappings agree. *)
Lemma cap_row_single (c e : F) : cap_row c [e] = [if gtb e c then c else e].
Proof. unfold cap_row. simpl. rewrite orb_false_r. destruct (gtb e c); reflexivity. Qed.

(** C9. What the code does on a one-dimensional array: the shape has one
    entry, its unpacking into [n, p] raises ValueError, and no estimate is
    returned, whatever the tuning constants and the consistency mode. *)
Theorem scaleTau2_vector_raises
        (v : list F) (c1 c2 : F) (consistency : consistency_arg) :
  scaleTau2 np_sqrt norm_cdf norm_pdf norm_ppf es (Arr1 v) c1 c2 consistency
  = Err unpack_error.
Proof. reflexivity. Qed.

End ScaleTau2Props.

(** ** scaleTau2 on binary64 *)

(** C2. The code on x0 = [[0,0],[1,2],[2,4]] with c1 = 4.5, c2 = 3 and
    consistency=False.  No square exceeds c2**2, the capped squares are
    [[2.25, 0.5625], [0.25, 0.0625], [0.25, 1.5625]] up to rounding, and
    sigma0 = [1, 2].  [summ(rho)] adds all six entries, so both entries of
    the result are sigma0 times the root of (4.9375 / 3): about
    [1.2829, 2.5658].  The column-wise estimate of the specification is
    about [0.9574, 1.7078]. *)
Theorem scaleTau2_sums_over_all_columns :
  forall cdf pdf ppf : float -> float,
  exists (sigma0 : list float) (rho : list (list float)),
    tau2_squares Warn tau2_input_a (fl (9 # 2)) = Ok (sigma0, Arr2 2 rho)
    /\ tau2_cap (Arr2 2 rho) (fl 3) = Ok (Arr2 2 rho)
    /\ scaleTau2 PrimFloat.sqrt cdf pdf ppf Warn tau2_input_a
                 (fl (9 # 2)) (fl 3) (CBool false)
       = Ok [0x1.486c2871a1fa3p+0%float; 0x1.486c2871a1fa3p+1%float]
    /\ map (fun s => mul s (PrimFloat.sqrt (div (np_sum (concat rho)) (fl 3))))
           sigma0
       = [0x1.486c2871a1fa3p+0%float; 0x1.486c2871a1fa3p+1%float]
    /\ tau2_per_column PrimFloat.sqrt sigma0 2 rho np_sum (fl 3)
       = [0x1.ea33e2c83c141p-1%float; 0x1.b534070e9620cp+0%float]
    /\ scaleTau2 PrimFloat.sqrt cdf pdf ppf Warn tau2_input_a
                 (fl (9 # 2)) (fl 3) (CBool false)
       <> Ok (tau2_per_column PrimFloat.sqrt sigma0 2 rho np_sum (fl 3)).
Proof.
  intros cdf pdf ppf.
  exists [fl 1; fl 2],
    [[0x1.2000000000002p+1%float; 0x1.2000000000002p-1%float];
     [0x1.0000000000004p-2%float; 0x1.ffffffffffff8p-5%float];
     [0x1.ffffffffffff8p-3%float; 0x1.9p+0%float]].
  repeat split; try (vm_compute; reflexivity).
  intros E.
  apply (f_equal (fun r => match r with Ok (x :: _) => x | _ => fl 0 end)) in E.
  vm_compute in E.
  assert (H : PrimFloat.eqb 0x1.486c2871a1fa3p+0%float
                            0x1.ea33e2c83c141p-1%float = true)
    by (rewrite E at 1; reflexivity).
  vm_compute in H. discriminate.
Qed.

(** C3. The code on x0 = [[-1,-1],[0,0],[1,10]] with c1 = 4.5 and c2 = 3.
    In the last row the squared standardised values are about 1.42 and
    103.87.  Only the second exceeds c2**2 = 9, yet the assignment goes
    through the row index and sets both to 9: the entry 1.42, which does
    not exceed the bound, is not left unchanged. *)
Theorem tau2_cap_overwrites_whole_row :
  exists (sigma0 : list float) (rho capped : list (list float)),
    tau2_squares Warn tau2_input_b (fl (9 # 2)) = Ok (sigma0, Arr2 2 rho)
    /\ tau2_cap (Arr2 2 rho) (fl 3) = Ok (Arr2 2 capped)
    /\ nth 2 rho [] = [0x1.6ba1cd6ce3dbap+0%float; 0x1.9f7e2cf70974ep+6%float]
    /\ gtb 0x1.6ba1cd6ce3dbap+0%float (mul (fl 3) (fl 3)) = false
    /\ nth 2 capped [] = [fl 9; fl 9]
    /\ nth 2 (winsorize rho (mul (fl 3) (fl 3)))  []
       = [0x1.6ba1cd6ce3dbap+0%float; fl 9]
    /\ capped <> winsorize rho (mul (fl 3) (fl 3)).
Proof.
  exists [fl 1; fl 1],
    [[0x1.4e6a139758e15p-1%float; 0x1.4e6a139758e15p-1%float];
     [0x1.2d6d738904c2dp-5%float; 0x1.2d6d738904c2dp-5%float];
     [0x1.6ba1cd6ce3dbap+0%float; 0x1.9f7e2cf70974ep+6%float]],
    [[0x1.4e6a139758e15p-1%float; 0x1.4e6a139758e15p-1%float];
     [0x1.2d6d738904c2dp-5%float; 0x1.2d6d738904c2dp-5%float];
     [fl 9; fl 9]].
  repeat split; try (vm_compute; reflexivity).
  intros E. apply (f_equal (fun l => nth 0 (nth 2 l []) (fl 0))) in E.
  vm_compute in E.
  assert (H : PrimFloat.eqb 0x1.2p+3%float 0x1.6ba1cd6ce3dbap+0%float = true)
    by (rewrite E at 1; reflexivity).
  vm_compute in H. discriminate.
Qed.

(* ================================================================== *)
(** * Properties: scale_data *)
(* ================================================================== *)

Section BroadcastLemmas.

Context {F : Type} {AF : Arith F}.

Lemma bdim_same (p : nat) : bdim p p = Some p.
Proof. unfold bdim. rewrite Nat.eqb_refl. reflexivity. Qed.

Lemma bc_row_same_length {T} (op : T -> T -> T) (u v : list T) :
  length u = length v -> bc_row op u v = map2 op u v.
Proof. intros H. unfold bc_row. rewrite H, Nat.eqb_refl. reflexivity. Qed.

Lemma map2_length {T U V} (f : T -> U -> V) (u : list T) (v : list U) :
  length u = length v -> length (map2 f u v) = length u.
Proof.
  revert v. induction u as [|a u IH]; intros [|b v] H; simpl in *;
    try discriminate; auto.
Qed.

Lemma map2_repeat {T U V} (f : T -> U -> V) (l : list T) (c : U) (n : nat) :
  length l = n -> map2 f l (repeat c n) = map (fun t => f t c) l.
Proof.
  revert n. induction l as [|t l IH]; intros [|n] H; simpl in *;
    try discriminate; auto.
  f_equal. apply IH. lia.
Qed.

Lemma map_ext_Forall {T U} (f g : T -> U) (l : list T) :
  Forall (fun t => f t = g t) l -> map f l = map g l.
Proof. induction 1; simpl; congruence. Qed.

(** A matrix and a vector of its row length: the vector is applied to
    every row. *)
Lemma np_binop_matrix_vector (op : F -> F -> F) (p : nat)
      (rows : list (list F)) (v : list F) :
  rectangular (Arr2 p rows) -> length v = p ->
  np_binop op (Arr2 p rows) (Arr1 v)
  = Ok (Arr2 p (map (fun r => map2 op r v) rows)).
Proof.
  intros R Hv. simpl. rewrite Hv, bdim_same. do 2 f_equal.
  apply map_ext_Forall. simpl in R.
  eapply Forall_impl; [|exact R]. simpl. intros r Hr.
  apply bc_row_same_length. congruence.
Qed.

(** A matrix and the stack of [n] copies of a vector. *)
Lemma np_binop_matrix_stack (op : F -> F -> F) (p : nat)
      (rows : list (list F)) (v : list F) :
  rectangular (Arr2 p rows) -> length v = p ->
  np_binop op (Arr2 p rows) (Arr2 p (repeat v (length rows)))
  = Ok (Arr2 p (map (fun r => map2 op r v) rows)).
Proof.
  intros R Hv. simpl. rewrite repeat_length, !bdim_same. do 2 f_equal.
  rewrite bc_row_same_length by (rewrite repeat_length; reflexivity).
  rewrite map2_repeat by reflexivity.
  apply map_ext_Forall. simpl in R.
  eapply Forall_impl; [|exact R]. simpl. intros r Hr.
  apply bc_row_same_length. congruence.
Qed.

Lemma rectangular_map2 (op : F -> F -> F) (p : nat)
      (rows : list (list F)) (v : list F) :
  rectangular (Arr2 p rows) -> length v = p ->
  rectangular (Arr2 p (map (fun r => map2 op r v) rows)).
Proof.
  simpl. intros R Hv. apply Forall_map.
  eapply Forall_impl; [|exact R]. simpl. intros r Hr.
  rewrite map2_length; congruence.
Qed.

End BroadcastLemmas.

Section ScaleDataProps.

Context {F : Type} {AF : Arith F}.
Variable es : errstate.
Local Open Scope arith_scope.

Lemma remap_zero_id (v : list F) :
  existsb is_zero v = false -> map remap_zero v = v.
Proof.
  induction v as [|x v IH]; simpl; [reflexivity|].
  intros H. apply orb_false_iff in H. destruct H as [Hx Hv].
  rewrite (IH Hv). f_equal. apply remap_zero_spec, Hx.
Qed.

Lemma existsb_concat_repeat {T} (f : T -> bool) (v : list T) (n : nat) :
  existsb f v = false -> existsb f (concat (repeat v n)) = false.
Proof.
  intros H. induction n; simpl; [reflexivity|].
  rewrite existsb_app, H, IHn. reflexivity.
Qed.

(** Two columns or more (or none): location and scale are stacked. *)
Lemma scale_data_matrix (p : nat) (rows : list (list F)) (m s : list F) :
  rectangular (Arr2 p rows) -> (1 <= length rows)%nat -> p <> 1%nat ->
  length m = p -> length s = p ->
  existsb is_zero s = false ->
  scale_data es (Arr2 p rows) (PyArray m) (PyArray s)
  = Ok (Arr2 p (standardised rows m s)).
Proof.
  intros R Hn Hp Hm Hs Hz. unfold scale_data, standardised.
  cbn [_handle_zeros_in_scale]. fold remap_zero. rewrite (remap_zero_id s Hz).
  destruct (Nat.eqb_spec p 1) as [E|E].
  - contradiction.
  - cbn [stack]. destruct (length rows) as [|n'] eqn:En; [lia|].
    rewrite <- En. cbn [rbind].
    rewrite Hm, Hs.
    rewrite (np_binop_matrix_stack sub _ R Hm). cbn [rbind].
    rewrite np_divide_no_zero
      by (cbn [flat]; apply existsb_concat_repeat, Hz).
    pose proof (rectangular_map2 sub _ R Hm) as R'.
    replace (length rows) with (length (map (fun r => map2 sub r m) rows))
      by apply length_map.
    rewrite (np_binop_matrix_stack div _ R' Hs).
    rewrite map_map. reflexivity.
Qed.

(** One column: the location is a scalar; a location that is an array
    stops [float(m)]. *)
Lemma scale_data_column (rows : list (list F)) (m0 s0 : F) :
  rectangular (Arr2 1 rows) -> is_zero s0 = false ->
  scale_data es (Arr2 1 rows) (PyFloat m0) (PyArray [s0])
  = Ok (Arr2 1 (map (map (fun x => (x - m0) / s0)) rows)).
Proof.
  intros R Hz. unfold scale_data.
  cbn [_handle_zeros_in_scale map Nat.eqb py_float rbind divide_by np_map].
  fold (remap_zero s0). rewrite (proj2 (remap_zero_spec s0) Hz).
  rewrite np_divide_no_zero by (cbn [flat existsb]; rewrite Hz; reflexivity).
  assert (R' : rectangular (Arr2 1 (map (map (fun x => x - m0)) rows))).
  { simpl. apply Forall_map. simpl in R.
    eapply Forall_impl; [|exact R]. simpl. intros r Hr.
    rewrite length_map. exact Hr. }
  rewrite (np_binop_matrix_vector div [s0] R' eq_refl).
  do 2 f_equal. rewrite map_map. apply map_ext_Forall. simpl in R.
  eapply Forall_impl; [|exact R]. simpl. intros r Hr.
  destruct r as [|x [|? ?]]; try discriminate. reflexivity.
Qed.



End ScaleDataProps.

(** ** The round trip in exact arithmetic *)

Section ExactScaleData.

Local Open Scope arith_scope.
Let xreal := Exact.xreal.





End ExactScaleData.




(* ================================================================== *)
(** * Properties: the K-step LTS loop *)
(* ================================================================== *)

Unset Implicit Arguments.

Section PyLemmas.

Context {F : Type} {AF : Arith F} {LF : ArithLaws AF}.

Lemma run_pbind {T U} (solver : solver_t F) (c : py F T) (k : T -> py F U) :
  run solver (pbind c k) = rbind (run solver c) (fun t => run solver (k t)).
Proof.
  induction c as [t|e|a k' IH]; simpl; try reflexivity.
  destruct (solver a) as [r|e]; simpl; [apply IH | reflexivity].
Qed.

Lemma run_lift {T} (solver : solver_t F) (r : result T) :
  run solver (lift r) = r.
Proof. destruct r; reflexivity. Qed.

Lemma py_index_nat {T} (l : list T) (k : nat) (d : T) :
  (k < length l)%nat -> py_index l (Z.of_nat k) = Ok (nth k l d).
Proof.
  intros H. unfold py_index.
  destruct (Z.ltb_spec (Z.of_nat k) 0) as [L|L]; [lia|].
  destruct (Z.ltb_spec (Z.of_nat k) 0) as [L'|L']; [lia|].
  destruct (Z.leb_spec (Z.of_nat (length l)) (Z.of_nat k)) as [G|G]; [lia|].
  simpl. rewrite Nat2Z.id.
  destruct (nth_error l k) as [t|] eqn:E.
  - f_equal. symmetry. apply nth_error_nth, E.
  - apply nth_error_None in E. lia.
Qed.

Lemma insert_length (x : F) (l : list F) : length (insert x l) = S (length l).
Proof.
  induction l as [|y l IH]; simpl; [reflexivity|].
  destruct (np_lt x y); simpl; congruence.
Qed.

Lemma np_sort_length (l : list F) : length (np_sort l) = length l.
Proof.
  induction l as [|x l IH]; simpl; [reflexivity|].
  rewrite insert_length. congruence.
Qed.

(** Selecting the rows at the positions where a test holds is filtering
    the rows by the test. *)
Lemma rmap_index_where {T} (f : T -> bool) (rows pre : list T) :
  rmap (fun i => py_index (pre ++ rows) (Z.of_nat i))
       (map fst (filter snd (combine (seq (length pre) (length rows))
                                     (map f rows))))
  = Ok (filter f rows).
Proof.
  revert pre. induction rows as [|r rows IH]; intros pre; [reflexivity|].
  cbn [length seq map combine filter snd].
  assert (Hrest :
    rmap (fun i => py_index (pre ++ r :: rows) (Z.of_nat i))
         (map fst (filter snd (combine (seq (S (length pre)) (length rows))
                                       (map f rows))))
    = Ok (filter f rows)).
  { specialize (IH (pre ++ [r])).
    rewrite <- app_assoc, length_app, Nat.add_1_r in IH. exact IH. }
  destruct (f r); cbn [map fst rmap]; [|exact Hrest].
  rewrite (py_index_nat (pre ++ r :: rows) (length pre) r)
    by (rewrite length_app; simpl; lia).
  rewrite nth_middle. cbn [rbind]. rewrite Hrest. reflexivity.
Qed.

Lemma take_rows_where (p : nat) (rows : list (list F)) (f : list F -> bool) :
  take_rows (Arr2 p rows) (np_where (map f rows))
  = Ok (Arr2 p (filter f rows)).
Proof.
  unfold take_rows, np_where. rewrite length_map.
  pose proof (rmap_index_where f rows []) as H. simpl in H.
  rewrite H. reflexivity.
Qed.

Lemma columns_length (p : nat) (rows : list (list F)) :
  length (columns p rows) = p.
Proof. unfold columns. rewrite length_map, length_seq. reflexivity. Qed.

Lemma along_axis0_length (f : list F -> F) (p : nat) (rows : list (list F)) :
  length (along_axis0 f (Arr2 p rows)) = p.
Proof. simpl. rewrite length_map. apply columns_length. Qed.

Lemma mean_untrimmed_length (trim_mean : ndarray F -> F -> list F)
      (p : nat) (rows : list (list F)) :
  length (mean trim_mean (Arr2 p rows) (lit 0)) = p.
Proof.
  unfold mean. rewrite zero_eq_zero.
  destruct (any_nan _); apply along_axis0_length.
Qed.

Lemma median_length (p : nat) (rows : list (list F)) :
  length (median (Arr2 p rows)) = p.
Proof. unfold median. destruct (any_nan _); apply along_axis0_length. Qed.

Lemma map_map2 {T U V W} (g : V -> W) (f : T -> U -> V)
      (u : list T) (v : list U) :
  map g (map2 f u v) = map2 (fun a b => g (f a b)) u v.
Proof.
  revert v. induction u as [|a u IH]; intros [|b v]; simpl; try reflexivity.
  f_equal. apply IH.
Qed.

End PyLemmas.

Section SortProps.

Context {F : Type} {AF : Arith F} {LF : ArithLaws AF}.

(** [np_sort] rearranges its argument. *)
Lemma insert_perm (x : F) (l : list F) : Permutation (x :: l) (insert x l).
Proof.
  induction l as [|y l IH]; simpl; [apply Permutation_refl|].
  destruct (np_lt x y); [apply Permutation_refl|].
  eapply Permutation_trans; [apply perm_swap|]. apply perm_skip, IH.
Qed.

Lemma np_sort_perm (l : list F) : Permutation l (np_sort l).
Proof.
  induction l as [|x l IH]; simpl; [apply Permutation_refl|].
  eapply Permutation_trans; [apply perm_skip, IH | apply insert_perm].
Qed.

Lemma np_lt_asym (a b : F) : np_lt a b = true -> np_lt b a = false.
Proof.
  unfold np_lt. intros H. apply orb_true_iff in H. destruct H as [H|H].
  - rewrite (ltb_asym a b H). simpl.
    destruct (isnan a) eqn:Na; [|reflexivity].
    destruct (ltb_nan a b Na) as [H' _]. congruence.
  - apply andb_true_iff in H. destruct H as [Nb Na].
    destruct (ltb_nan b a Nb) as [H' _]. rewrite H', Nb. simpl.
    apply andb_false_r.
Qed.

Lemma insert_sorted (x : F) (l : list F) :
  Sorted ascending l -> Sorted ascending (insert x l).
Proof.
  induction l as [|y l IH]; intros S; simpl.
  - repeat constructor.
  - destruct (np_lt x y) eqn:L.
    + constructor; [exact S|]. constructor. apply np_lt_asym, L.
    + apply Sorted_inv in S. destruct S as [S Hd].
      constructor; [apply IH, S|].
      destruct l as [|z l]; simpl.
      * constructor. exact L.
      * destruct (np_lt x z); constructor; [exact L|].
        apply HdRel_inv in Hd. exact Hd.
Qed.

Lemma np_sort_sorted (l : list F) : Sorted ascending (np_sort l).
Proof.
  induction l as [|x l IH]; simpl; [constructor | apply insert_sorted, IH].
Qed.

(** The order of [np.sort] in the words of the specification. *)
Lemma ascending_in_order (a b : F) : ascending a b -> in_order a b.
Proof.
  unfold ascending, in_order, np_lt. intros H.
  apply orb_false_iff in H. destruct H as [Hlt Hnan].
  split; [exact Hlt|]. intros Na. rewrite Na in Hnan.
  destruct (isnan b); [reflexivity | discriminate].
Qed.

Lemma Sorted_weaken {T} (R R' : T -> T -> Prop) (l : list T) :
  (forall a b, R a b -> R' a b) -> Sorted R l -> Sorted R' l.
Proof.
  intros HR. induction 1 as [|a l _ IH Hd]; constructor; [exact IH|].
  destruct Hd; constructor. apply HR. assumption.
Qed.

Lemma np_sort_in_order (l : list F) : Sorted in_order (np_sort l).
Proof.
  apply (Sorted_weaken ascending in_order); [apply ascending_in_order|].
  apply np_sort_sorted.
Qed.

End SortProps.

Section KstepProps.

Context {F : Type} {AF : Arith F} {LF : ArithLaws AF}.
Variable np_sqrt : F -> F.
Variable trim_mean : ndarray F -> F -> list F.
Variable es : errstate.
Local Open Scope arith_scope.

(** The data matrix: [rows], of [p] columns, with at least one row and
    one column. *)
Variable p : nat.
Variable rows : list (list F).

Hypothesis rows_rectangular : rectangular (Arr2 p rows).
Hypothesis rows_nonempty : (1 <= length rows)%nat.
Hypothesis columns_nonempty : (1 <= p)%nat.

Lemma lts_refine_length (m1 : list F) : length (lts_refine trim_mean p rows m1) = p.
Proof. apply mean_untrimmed_length. Qed.

Lemma lts_iterate_length (k : nat) (m0 : list F) :
  length m0 = p -> length (lts_iterate trim_mean p rows k m0) = p.
Proof. destruct k; simpl; [auto | intros _; apply lts_refine_length]. Qed.

Lemma half_rank_index :
  ((Z.of_nat (length rows) + 1) / 2 - 1)%Z
  = Z.of_nat ((length rows + 1) / 2 - 1).
Proof.
  assert (H : (1 <= (length rows + 1) / 2)%nat).
  { apply Nat.div_le_lower_bound; lia. }
  rewrite Nat2Z.inj_sub by exact H.
  rewrite Nat2Z.inj_div, Nat2Z.inj_add. reflexivity.
Qed.

Lemma half_rank_in_range : ((length rows + 1) / 2 - 1 < length rows)%nat.
Proof.
  assert (H : ((length rows + 1) / 2 <= length rows)%nat).
  { apply Nat.Div0.div_le_upper_bound; lia. }
  assert (H' : (1 <= (length rows + 1) / 2)%nat).
  { apply Nat.div_le_lower_bound; lia. }
  lia.
Qed.

(** One pass of the loop body computes the refinement. *)
Lemma lts_update_refine (m1 : list F) :
  length m1 = p ->
  lts_update trim_mean (Arr2 p rows) (length rows) p m1 = Ok (lts_refine trim_mean p rows m1).
Proof.
  intros Hm. unfold lts_update.
  rewrite (np_binop_matrix_vector sub m1 rows_rectangular Hm). cbn [rbind].
  assert (Hd : (if any_nan (Arr2 p rows)
                then reduce_axis1 np_nansum
                       (np_square (Arr2 p (map (fun r => map2 sub r m1) rows)))
                else reduce_axis1 np_sum
                       (np_square (Arr2 p (map (fun r => map2 sub r m1) rows))))
               = Ok (map (sq_distance p rows m1) rows)).
  { unfold sq_distance, reduce_axis1, along_axis1, np_square, np_map.
    destruct (any_nan (Arr2 p rows)); rewrite !map_map; reflexivity. }
  rewrite Hd. cbn [rbind].
  rewrite half_rank_index.
  rewrite (py_index_nat _ _ zero)
    by (rewrite np_sort_length, length_map; apply half_rank_in_range).
  cbn [rbind]. fold (value_at_rank ((length rows + 1) / 2)
                                   (map (sq_distance p rows m1) rows)).
  fold (cut_distance p rows m1). rewrite map_map.
  rewrite (take_rows_where p rows
             (fun row => sq_distance p rows m1 row <=? cut_distance p rows m1)).
  cbn [rbind]. fold (h_subset p rows m1). fold (lts_refine trim_mean p rows m1).
  unfold reshape1. rewrite lts_refine_length, Nat.eqb_refl. reflexivity.
Qed.

Lemma max_abs_diff_change (m1 m2 : list F) :
  length m1 = p -> length m2 = p ->
  max_abs_diff m1 m2 = Ok (max_change m1 m2).
Proof.
  intros H1 H2. unfold max_abs_diff, max_change. simpl.
  rewrite H1, H2, bdim_same. cbn [rbind np_abs np_map flat].
  rewrite bc_row_same_length by congruence.
  rewrite map_map2.
  destruct m1 as [|a m1]; [simpl in H1; lia|].
  destruct m2 as [|b m2]; [simpl in H2; lia|].
  reflexivity.
Qed.

Lemma change_below_not_exceeds (tol : F) (m1 m2 : list F) :
  change_below tol m1 m2 = true -> change_exceeds tol m1 m2 = false.
Proof. unfold change_below, change_exceeds, gtb. apply ltb_asym. Qed.

Lemma lts_iterate_shift (k : nat) (m : list F) :
  lts_iterate trim_mean p rows (S k) m = lts_iterate trim_mean p rows k (lts_refine trim_mean p rows m).
Proof. unfold lts_iterate. apply Nat.iter_succ_r. Qed.

(** The loop, entered with the flag [unconverged] set. *)
Lemma kstep_loop_iterates (tol : F) (fuel : nat) (m1 : list F) :
  length m1 = p ->
  exists k : nat,
    (k <= fuel)%nat
    /\ kstep_loop trim_mean fuel (Arr2 p rows) (length rows) p tol m1 m1 true
       = Ok (lts_iterate trim_mean p rows k m1)
    /\ ((0 < fuel)%nat -> (0 < k)%nat)
    /\ (forall j, (j + 1 < k)%nat ->
                  change_exceeds tol (lts_iterate trim_mean p rows j m1)
                                 (lts_iterate trim_mean p rows (j + 1) m1) = true)
    /\ ((k < fuel)%nat ->
        change_exceeds tol (lts_iterate trim_mean p rows (k - 1) m1) (lts_iterate trim_mean p rows k m1) = false).
Proof.
  revert m1. induction fuel as [|fuel IH]; intros m1 Hm.
  - exists 0%nat.
    split; [lia|]. split; [reflexivity|]. split; [lia|].
    split; intros; lia.
  - cbn [kstep_loop]. rewrite (lts_update_refine m1 Hm). cbn [rbind].
    rewrite (max_abs_diff_change m1 (lts_refine trim_mean p rows m1) Hm (lts_refine_length m1)).
    cbn [rbind]. fold (change_exceeds tol m1 (lts_refine trim_mean p rows m1)).
    destruct (change_exceeds tol m1 (lts_refine trim_mean p rows m1)) eqn:Ex.
    + destruct (IH (lts_refine trim_mean p rows m1) (lts_refine_length m1))
        as [k [Hk [Hrun [Hpos [Hbefore Hlast]]]]].
      exists (S k).
      split; [lia|]. split; [rewrite lts_iterate_shift; exact Hrun|].
      split; [lia|]. split.
      * intros j Hj. destruct j as [|j].
        -- exact Ex.
        -- replace (S j + 1)%nat with (S (j + 1)) by lia.
           rewrite !lts_iterate_shift. apply Hbefore. lia.
      * intros Hlt. assert (Hk0 : (0 < k)%nat) by (apply Hpos; lia).
        replace (S k - 1)%nat with (S (k - 1)) by lia.
        rewrite !lts_iterate_shift. apply Hlast. lia.
    + exists 1%nat.
      split; [lia|]. split; [destruct fuel; reflexivity|].
      split; [lia|]. split.
      * intros j Hj. lia.
      * intros _. exact Ex.
Qed.

(** ** The refinement in the words of the specification *)

(** The untrimmed [mean] of a matrix is its column mean. *)
Lemma mean_is_column_mean (H : list (list F)) :
  mean trim_mean (Arr2 p H) (lit 0) = column_mean p H.
Proof.
  unfold mean, column_mean, any_nan. rewrite zero_eq_zero. cbn [flat].
  destruct (existsb isnan (concat H));
    cbn [along_axis0]; unfold columns; rewrite map_map; reflexivity.
Qed.

Lemma lts_refine_step (m1 : list F) :
  half_sample_step p rows m1 (lts_refine trim_mean p rows m1).
Proof.
  exists (np_sort (map (sq_distance p rows m1) rows)).
  split; [apply np_sort_perm|]. split; [apply np_sort_in_order|].
  unfold lts_refine. rewrite mean_is_column_mean. reflexivity.
Qed.

Lemma lts_iterate_step (j : nat) (m0 : list F) :
  half_sample_step p rows (lts_iterate trim_mean p rows j m0)
                   (lts_iterate trim_mean p rows (j + 1) m0).
Proof.
  rewrite Nat.add_1_r. unfold lts_iterate. cbn [Nat.iter].
  apply lts_refine_step.
Qed.

End KstepProps.

(** C1. For an n x p matrix X (n >= 1, p >= 1) and the seed m0 that
    [l1median(X)] returns (a vector of length p), [kstepLTS(X, maxit, tol)]
    returns the last of a sequence m0, m1, ..., mk of estimates, with
    k <= maxit passes, where m(j+1) is the refinement of mj: the
    (NaN-aware) squared distances of the rows to mj are put in order,
    the cut distance is the one at rank floor((n+1)/2), counted from 1,
    the h-subset holds the rows at distance at most the cut distance,
    and m(j+1) is the column mean of the h-subset (for each column, the
    sum over the count).  At least one pass is made when maxit >= 1.
    The loop goes on past a pass only when the largest absolute
    coordinate-wise change exceeded tol, and it stops at the first pass
    whose change does not exceed tol: a change equal to tol stops it as
    a change below tol does.  When it stops before maxit passes the last
    change did not exceed tol.  The value returned is the latest
    estimate in either case.  The defaults are maxit = 5, tol = 1e-10. *)
Theorem kstepLTS_half_sample_iteration :
  forall (F : Type) (AF : Arith F) (LF : ArithLaws AF) (np_sqrt : F -> F)
         (trim_mean : ndarray F -> F -> list F) (es : errstate)
         (solver : solver_t F)
         (p : nat) (rows : list (list F)) (maxit : Z) (tol : F)
         (m0 : list F),
    rectangular (Arr2 p rows) ->
    (1 <= length rows)%nat ->
    (1 <= p)%nat ->
    run solver (l1median np_sqrt es (Arr2 p rows) no_kwargs) = Ok m0 ->
    length m0 = p ->
    exists (k : nat) (m : nat -> list F),
      m 0%nat = m0
      /\ (forall j, (j < k)%nat ->
                    half_sample_step p rows (m j) (m (j + 1)%nat))
      /\ (k <= Z.to_nat maxit)%nat
      /\ run solver (kstepLTS np_sqrt trim_mean es (Arr2 p rows) maxit tol)
         = Ok (m k)
      /\ ((0 < maxit)%Z -> (0 < k)%nat)
      /\ (forall j, (j + 1 < k)%nat ->
                    change_exceeds tol (m j) (m (j + 1)%nat) = true)
      /\ (forall j, (j < k)%nat ->
                    change_exceeds tol (m j) (m (j + 1)%nat) = false ->
                    (j + 1)%nat = k)
      /\ (forall j, (j < k)%nat ->
                    change_below tol (m j) (m (j + 1)%nat) = true ->
                    (j + 1)%nat = k)
      /\ ((k < Z.to_nat maxit)%nat ->
          change_exceeds tol (m (k - 1)%nat) (m k) = false)
      /\ kstepLTS_default_maxit = 5%Z
      /\ @kstepLTS_default_tol F AF = lit (1 # 10000000000).
Proof.
  intros F AF LF np_sqrt trim_mean es solver p rows maxit tol m0
         R Hn Hp Hseed Hm0.
  destruct (kstep_loop_iterates trim_mean p rows R Hn Hp tol
                                (Z.to_nat maxit) m0 Hm0)
    as [k [Hk [Hrun [Hpos [Hbefore Hlast]]]]].
  exists k, (fun j => lts_iterate trim_mean p rows j m0).
  assert (Hstop : forall j, (j < k)%nat ->
                   change_exceeds tol (lts_iterate trim_mean p rows j m0)
                                  (lts_iterate trim_mean p rows (j + 1) m0)
                   = false ->
                   (j + 1)%nat = k).
  { intros j Hj Hnot.
    destruct (Nat.eq_dec (j + 1) k) as [E|E]; [exact E|].
    assert (Hlt : (j + 1 < k)%nat) by lia.
    apply Hbefore in Hlt. congruence. }
  split; [reflexivity|].
  split; [intros j _; apply lts_iterate_step|].
  split; [exact Hk|]. split.
  { unfold kstepLTS. rewrite run_pbind, Hseed. cbn [rbind].
    rewrite run_lift. exact Hrun. }
  split; [intros; apply Hpos; lia|].
  split; [exact Hbefore|].
  split; [exact Hstop|].
  split.
  { intros j Hj Hbelow. apply (Hstop j Hj).
    apply change_below_not_exceeds. exact Hbelow. }
  split; [exact Hlast|]. split; reflexivity.
Qed.

(** Five rows of one column, skewed: from the median 2 the estimate moves
    to 7/4, to 1, and stays. *)
Lemma kstepLTS_half_sample_iteration_witness :
  let tol := fl (1 # 10000000000) in
  run start_point_solver
      (kstepLTS PrimFloat.sqrt (fun _ _ => []) Warn (Arr2 1 skewed_rows) 5 tol)
  = Ok [fl 1]
  /\ exists (k : nat) (m : nat -> list float),
      m 0%nat = [fl 2]
      /\ (forall j, (j < k)%nat ->
                    half_sample_step 1 skewed_rows (m j) (m (j + 1)%nat))
      /\ (k <= Z.to_nat 5)%nat
      /\ run start_point_solver
             (kstepLTS PrimFloat.sqrt (fun _ _ => []) Warn
                       (Arr2 1 skewed_rows) 5 tol)
         = Ok (m k)
      /\ ((0 < 5)%Z -> (0 < k)%nat)
      /\ (forall j, (j + 1 < k)%nat ->
                    change_exceeds tol (m j) (m (j + 1)%nat) = true)
      /\ (forall j, (j < k)%nat ->
                    change_exceeds tol (m j) (m (j + 1)%nat) = false ->
                    (j + 1)%nat = k)
      /\ (forall j, (j < k)%nat ->
                    change_below tol (m j) (m (j + 1)%nat) = true ->
                    (j + 1)%nat = k)
      /\ ((k < Z.to_nat 5)%nat ->
          change_exceeds tol (m (k - 1)%nat) (m k) = false)
      /\ kstepLTS_default_maxit = 5%Z
      /\ @kstepLTS_default_tol float binary64 = lit (1 # 10000000000).
Proof.
  intros tol. split; [vm_compute; reflexivity|].
  apply (kstepLTS_half_sample_iteration float binary64 binary64_laws
           PrimFloat.sqrt
           (fun _ _ => []) Warn start_point_solver 1 skewed_rows 5 tol
           [fl 2]).
  - repeat constructor.
  - simpl. lia.
  - lia.
  - vm_compute. reflexivity.
  - reflexivity.
Defined.

(** The same rows with tol = 1/4.  The first pass moves the estimate from
    2 to 7/4: the change is 1/4, equal to tol and not below it, and the
    loop stops there, after one of its five passes (a second pass would
    have moved the estimate to 1).  So the loop does not stop only at a
    change below tol. *)
Lemma kstepLTS_stops_at_change_equal_tol_counterexample :
  let tol := fl (1 # 4) in
  let run_kstep :=
    run start_point_solver
        (kstepLTS PrimFloat.sqrt (fun _ _ => []) Warn (Arr2 1 skewed_rows)
                  5 tol) in
  run start_point_solver
      (l1median PrimFloat.sqrt Warn (Arr2 1 skewed_rows) no_kwargs)
  = Ok [fl 2]
  /\ half_sample_step 1 skewed_rows [fl 2] [fl (7 # 4)]
  /\ half_sample_step 1 skewed_rows [fl (7 # 4)] [fl 1]
  /\ max_change [fl 2] [fl (7 # 4)] = tol
  /\ change_below tol [fl 2] [fl (7 # 4)] = false
  /\ run_kstep = Ok [fl (7 # 4)]
  /\ ~ (forall (k : nat) (m : nat -> list float),
          m 0%nat = [fl 2] ->
          (forall j, (j < k)%nat ->
                     half_sample_step 1 skewed_rows (m j) (m (j + 1)%nat)) ->
          run_kstep = Ok (m k) ->
          (k < Z.to_nat 5)%nat ->
          change_below tol (m (k - 1)%nat) (m k) = true).
Proof.
  intros tol run_kstep.
  assert (S1 : half_sample_step 1 skewed_rows [fl 2] [fl (7 # 4)]).
  { exists (np_sort (map (sq_distance 1 skewed_rows [fl 2]) skewed_rows)).
    split; [apply np_sort_perm|].
    split; [apply (np_sort_in_order (LF := binary64_laws))|].
    vm_compute. reflexivity. }
  assert (S2 : half_sample_step 1 skewed_rows [fl (7 # 4)] [fl 1]).
  { exists (np_sort (map (sq_distance 1 skewed_rows [fl (7 # 4)]) skewed_rows)).
    split; [apply np_sort_perm|].
    split; [apply (np_sort_in_order (LF := binary64_laws))|].
    vm_compute. reflexivity. }
  assert (Hrun : run_kstep = Ok [fl (7 # 4)]) by (vm_compute; reflexivity).
  split; [vm_compute; reflexivity|].
  split; [exact S1|]. split; [exact S2|].
  split; [vm_compute; reflexivity|].
  split; [vm_compute; reflexivity|].
  split; [exact Hrun|].
  intros H.
  specialize (H 1%nat (fun j => match j with
                                | O => [fl 2]
                                | S _ => [fl (7 # 4)]
                                end) eq_refl).
  assert (Hb : change_below tol [fl 2] [fl (7 # 4)] = true).
  { apply H.
    - intros j Hj. assert (j = 0)%nat by lia. subst j. exact S1.
    - exact Hrun.
    - simpl. lia. }
  vm_compute in Hb. discriminate.
Qed.

(* ================================================================== *)
(** * Properties: translation of the data, in exact arithmetic *)
(* ================================================================== *)

Module ExactLaws.

Import Exact Shift.
Local Open Scope arith_scope.

Lemma of_nat_xnat (n : nat) : (of_nat n : xreal) = Some (xnat n).
Proof. reflexivity. Qed.

Lemma xnat_S (n : nat) : xnat (S n) = (xnat n + 1)%Qc.
Proof.
  apply Qc_is_canon. unfold xnat, Qcplus, Q2Qc. cbn [this].
  rewrite !Qred_correct. rewrite Nat2Z.inj_succ.
  unfold Qeq, Qplus, inject_Z. simpl. lia.
Qed.

Lemma xnat_nonzero (n : nat) : (1 <= n)%nat -> Qeq_bool (xnat n) 0 = false.
Proof.
  intros H. destruct (Qeq_bool (xnat n) 0) eqn:E; [|reflexivity].
  apply Qeq_bool_iff in E. unfold xnat, Q2Qc in E. cbn [this] in E.
  rewrite Qred_correct in E. unfold Qeq, inject_Z in E. simpl in E. lia.
Qed.

Lemma xadd_assoc (a b c : xreal) : a + (b + c) = (a + b) + c.
Proof.
  destruct a, b, c; simpl; try reflexivity. f_equal. ring.
Qed.

Lemma xadd_comm (a b : xreal) : a + b = b + a.
Proof. destruct a, b; simpl; try reflexivity. f_equal. ring. Qed.

Lemma xadd_zero_r (a : xreal) : a + Some (Q2Qc 0) = a.
Proof. destruct a; simpl; try reflexivity. f_equal. ring. Qed.

Lemma isnan_shift (x : xreal) (c : Qc) : isnan (x + Some c) = isnan x.
Proof. destruct x; reflexivity. Qed.

Lemma sub_shift (a b : xreal) (c : Qc) : (a + Some c) - (b + Some c) = a - b.
Proof. destruct a, b; simpl; try reflexivity. f_equal. ring. Qed.

Lemma Qle_bool_shift (a b c : Qc) :
  Qle_bool (a + c)%Qc (b + c)%Qc = Qle_bool a b.
Proof.
  apply eq_true_iff_eq. rewrite !Qle_bool_iff.
  unfold Qcplus, Q2Qc. cbn [this]. rewrite !Qred_correct.
  apply Qplus_le_l.
Qed.

Lemma ltb_shift (a b : xreal) (c : Qc) :
  ((a + Some c) <? (b + Some c)) = (a <? b).
Proof.
  destruct a as [a|], b as [b|]; try reflexivity.
  change (Qlt_bool (a + c)%Qc (b + c)%Qc = Qlt_bool a b).
  unfold Qlt_bool. rewrite Qle_bool_shift. reflexivity.
Qed.

Lemma np_lt_shift (a b : xreal) (c : Qc) :
  np_lt (a + Some c) (b + Some c) = np_lt a b.
Proof. unfold np_lt. rewrite ltb_shift, !isnan_shift. reflexivity. Qed.

(** ** Sums and means of shifted values *)

Lemma fold_add_acc (l : list xreal) (b d : xreal) :
  fold_left add l (b + d) = fold_left add l b + d.
Proof.
  revert b. induction l as [|x l IH]; intros b; cbn [fold_left];
    [reflexivity|].
  rewrite <- IH. f_equal.
  rewrite <- !xadd_assoc. f_equal. apply xadd_comm.
Qed.

Lemma fold_add_shift (c : Qc) (l : list xreal) (a : xreal) :
  fold_left add (map (shift c) l) a
  = fold_left add l a + Some (xnat (length l) * c)%Qc.
Proof.
  revert a. induction l as [|x l IH]; intros a; cbn [map fold_left length].
  - replace (xnat 0 * c)%Qc with (Q2Qc 0)
      by (change (xnat 0) with (Q2Qc 0); ring).
    symmetry. apply xadd_zero_r.
  - rewrite IH. unfold shift at 1. rewrite xadd_assoc, fold_add_acc.
    rewrite <- xadd_assoc. f_equal.
    change (Some (c + xnat (length l) * c)%Qc
            = Some (xnat (S (length l)) * c)%Qc).
    f_equal. rewrite xnat_S. ring.
Qed.

Lemma np_sum_shift (c : Qc) (l : list xreal) :
  np_sum (map (shift c) l) = np_sum l + Some (xnat (length l) * c)%Qc.
Proof. apply fold_add_shift. Qed.

Lemma np_mean1_shift (c : Qc) (l : list xreal) :
  np_mean1 (map (shift c) l) = shift c (np_mean1 l).
Proof.
  unfold np_mean1. rewrite np_sum_shift, length_map, of_nat_xnat.
  destruct (length l) as [|n] eqn:En.
  - destruct (np_sum l); reflexivity.
  - destruct (np_sum l) as [s|]; [|reflexivity].
    unfold shift. cbn [add exact lift2 div xdiv].
    rewrite (xnat_nonzero (S n)) by lia. cbn. f_equal.
    assert (H : xnat (S n) <> Q2Qc 0).
    { intros E. pose proof (xnat_nonzero (S n) ltac:(lia)) as H.
      rewrite E in H. discriminate. }
    field. exact H.
Qed.

Lemma filter_not_nan_shift (c : Qc) (l : list xreal) :
  filter not_nan (map (shift c) l) = map (shift c) (filter not_nan l).
Proof.
  induction l as [|x l IH]; [reflexivity|]. cbn [map filter].
  replace (not_nan (shift c x)) with (not_nan x)
    by (unfold not_nan, shift; rewrite isnan_shift; reflexivity).
  destruct (not_nan x); cbn [map]; rewrite IH; reflexivity.
Qed.

Lemma fold_nansum_filter (l : list xreal) (a : xreal) :
  fold_left add (map (fun x => if isnan x then zero else x) l) a
  = fold_left add (filter not_nan l) a.
Proof.
  revert a. induction l as [|x l IH]; intros a; [reflexivity|].
  cbn [map fold_left filter]. unfold not_nan at 1.
  destruct (isnan x) eqn:N; cbn [negb fold_left].
  - rewrite <- IH. f_equal. apply xadd_zero_r.
  - apply IH.
Qed.

Lemma np_nanmean1_filter (l : list xreal) :
  np_nanmean1 l = np_mean1 (filter not_nan l).
Proof.
  unfold np_nanmean1, np_mean1, np_nansum, np_sum, count_not_nan.
  rewrite fold_nansum_filter. reflexivity.
Qed.

Lemma np_nanmean1_shift (c : Qc) (l : list xreal) :
  np_nanmean1 (map (shift c) l) = shift c (np_nanmean1 l).
Proof.
  rewrite !np_nanmean1_filter, filter_not_nan_shift. apply np_mean1_shift.
Qed.

Lemma insert_shift (c : Qc) (x : xreal) (l : list xreal) :
  insert (shift c x) (map (shift c) l) = map (shift c) (insert x l).
Proof.
  induction l as [|y l IH]; [reflexivity|].
  cbn [map insert]. unfold shift at 1 2. rewrite np_lt_shift.
  destruct (np_lt x y); cbn [map]; [reflexivity|].
  f_equal. exact IH.
Qed.

Lemma np_sort_shift (c : Qc) (l : list xreal) :
  np_sort (map (shift c) l) = map (shift c) (np_sort l).
Proof.
  induction l as [|x l IH]; [reflexivity|].
  cbn [map np_sort]. rewrite IH. apply insert_shift.
Qed.

Lemma np_median1_shift (c : Qc) (l : list xreal) :
  np_median1 (map (shift c) l) = shift c (np_median1 l).
Proof.
  unfold np_median1. rewrite np_sort_shift, length_map.
  destruct (Nat.even (length l));
    rewrite skipn_map, firstn_map; apply np_mean1_shift.
Qed.

Lemma np_nanmedian1_shift (c : Qc) (l : list xreal) :
  np_nanmedian1 (map (shift c) l) = shift c (np_nanmedian1 l).
Proof.
  unfold np_nanmedian1. fold not_nan.
  rewrite filter_not_nan_shift. apply np_median1_shift.
Qed.

(** ** Shifted vectors and matrices *)

Lemma shift_vec_length (v : list Qc) (m : list xreal) :
  length m = length v -> length (shift_vec v m) = length v.
Proof.
  intros H. unfold shift_vec. rewrite map2_length; rewrite ?length_map; auto.
Qed.

Lemma shift_rows_length (v : list Qc) (rows : list (list xreal)) :
  length (shift_rows v rows) = length rows.
Proof. apply length_map. Qed.

Lemma shift_rows_rectangular (v : list Qc) (rows : list (list xreal)) :
  rectangular (Arr2 (length v) rows) ->
  rectangular (Arr2 (length v) (shift_rows v rows)).
Proof.
  simpl. intros R. apply Forall_map.
  eapply Forall_impl; [|exact R]. simpl. intros r Hr.
  apply shift_vec_length, Hr.
Qed.

(** [X + v] as NumPy broadcasts it. *)
Lemma np_add_matrix_vector (v : list Qc) (rows : list (list xreal)) :
  rectangular (Arr2 (length v) rows) ->
  np_binop add (Arr2 (length v) rows) (Arr1 (map Some v))
  = Ok (Arr2 (length v) (shift_rows v rows)).
Proof.
  intros R. apply np_binop_matrix_vector; [exact R | apply length_map].
Qed.

Lemma nth_shift_vec (v : list Qc) (m : list xreal) (j : nat) :
  length m = length v -> (j < length v)%nat ->
  nth j (shift_vec v m) zero = shift (nth j v (Q2Qc 0)) (nth j m zero).
Proof.
  unfold shift_vec. revert m j.
  induction v as [|c v IH]; intros [|x m] j Hm Hj; simpl in *;
    try discriminate; try lia.
  destruct j as [|j]; [reflexivity|]. apply IH; lia.
Qed.

Lemma column_shift (v : list Qc) (rows : list (list xreal)) (j : nat) :
  rectangular (Arr2 (length v) rows) -> (j < length v)%nat ->
  column j (shift_rows v rows)
  = map (shift (nth j v (Q2Qc 0))) (column j rows).
Proof.
  intros R Hj. unfold column, shift_rows. rewrite !map_map.
  apply map_ext_Forall. simpl in R.
  eapply Forall_impl; [|exact R]. simpl. intros r Hr.
  apply nth_shift_vec; assumption.
Qed.

Lemma map2_seq_nth (g : xreal -> Qc -> xreal) (h : nat -> xreal)
      (v : list Qc) (k : nat) :
  map2 g (map h (seq k (length v))) v
  = map (fun j => g (h j) (nth (j - k) v (Q2Qc 0))) (seq k (length v)).
Proof.
  revert k. induction v as [|c v IH]; intros k; [reflexivity|].
  cbn [length seq map map2]. rewrite Nat.sub_diag. cbn [nth]. f_equal.
  rewrite IH. apply map_ext_in. intros j Hj. apply in_seq in Hj.
  replace (j - k)%nat with (S (j - S k)) by lia. reflexivity.
Qed.

Lemma map2_map_r {T U V W} (g : T -> V -> W) (k : U -> V)
      (u : list T) (v : list U) :
  map2 g u (map k v) = map2 (fun a b => g a (k b)) u v.
Proof.
  revert v. induction u as [|a u IH]; intros [|b v]; simpl; try reflexivity.
  f_equal. apply IH.
Qed.

(** A column-wise reduction that follows a shift of its column follows
    the shift of the matrix. *)
Lemma along_axis0_shift (f : list xreal -> xreal)
      (v : list Qc) (rows : list (list xreal)) :
  (forall c l, f (map (shift c) l) = shift c (f l)) ->
  rectangular (Arr2 (length v) rows) ->
  along_axis0 f (Arr2 (length v) (shift_rows v rows))
  = shift_vec v (along_axis0 f (Arr2 (length v) rows)).
Proof.
  intros Hf R. cbn [along_axis0]. unfold columns, shift_vec.
  rewrite !map_map, map2_map_r.
  rewrite (map2_seq_nth (fun a c => a + Some c)
                        (fun j => f (column j rows)) v 0).
  apply map_ext_in. intros j Hj. apply in_seq in Hj.
  rewrite (column_shift v rows j R) by lia.
  rewrite Hf, Nat.sub_0_r. reflexivity.
Qed.

Lemma existsb_isnan_shift_vec (v : list Qc) (r : list xreal) :
  length r = length v ->
  existsb isnan (shift_vec v r) = existsb isnan r.
Proof.
  unfold shift_vec. revert r.
  induction v as [|c v IH]; intros [|x r] H; simpl in *;
    try discriminate; try reflexivity.
  rewrite IH by lia. destruct x; reflexivity.
Qed.

Lemma any_nan_shift (v : list Qc) (rows : list (list xreal)) :
  rectangular (Arr2 (length v) rows) ->
  any_nan (Arr2 (length v) (shift_rows v rows))
  = any_nan (Arr2 (length v) rows).
Proof.
  unfold any_nan. cbn [flat rectangular].
  induction 1 as [|r rows Hr _ IH]; [reflexivity|].
  cbn [shift_rows map concat]. rewrite !existsb_app.
  rewrite existsb_isnan_shift_vec by exact Hr.
  f_equal. exact IH.
Qed.

Lemma median_shift (v : list Qc) (rows : list (list xreal)) :
  rectangular (Arr2 (length v) rows) ->
  median (Arr2 (length v) (shift_rows v rows))
  = shift_vec v (median (Arr2 (length v) rows)).
Proof.
  intros R. unfold median. rewrite (any_nan_shift v rows R).
  destruct (any_nan (Arr2 (length v) rows)).
  - apply along_axis0_shift; [apply np_nanmedian1_shift | exact R].
  - apply along_axis0_shift; [apply np_median1_shift | exact R].
Qed.

Lemma mean_shift (trim_mean : ndarray xreal -> xreal -> list xreal)
      (v : list Qc) (rows : list (list xreal)) :
  rectangular (Arr2 (length v) rows) ->
  mean trim_mean (Arr2 (length v) (shift_rows v rows)) (lit 0)
  = shift_vec v (mean trim_mean (Arr2 (length v) rows) (lit 0)).
Proof.
  intros R. unfold mean. rewrite zero_eq_zero, (any_nan_shift v rows R).
  destruct (any_nan (Arr2 (length v) rows)).
  - apply along_axis0_shift; [apply np_nanmean1_shift | exact R].
  - apply along_axis0_shift; [apply np_mean1_shift | exact R].
Qed.

Lemma sub_shift_vec (v : list Qc) (r m : list xreal) :
  length r = length v -> length m = length v ->
  map2 sub (shift_vec v r) (shift_vec v m) = map2 sub r m.
Proof.
  unfold shift_vec. revert r m.
  induction v as [|c v IH]; intros [|x r] [|y m] Hr Hm; simpl in *;
    try discriminate; try reflexivity.
  f_equal; [apply sub_shift | apply IH; lia].
Qed.

(** ** One refinement of a shifted estimate on shifted data *)

Lemma filter_map_Forall {T U} (g : U -> bool) (g' : T -> bool) (h : T -> U)
      (l : list T) :
  Forall (fun t => g (h t) = g' t) l ->
  filter g (map h l) = map h (filter g' l).
Proof.
  induction 1 as [|t l Ht _ IH]; [reflexivity|].
  cbn [map filter]. rewrite Ht, IH. destruct (g' t); reflexivity.
Qed.








(** ** The objective of the L1-median under translation *)

Lemma sub_rows_shift (v : list Qc) (rows : list (list xreal)) (m : list xreal) :
  rectangular (Arr2 (length v) rows) -> length m = length v ->
  map (fun r => map2 sub r (shift_vec v m)) (shift_rows v rows)
  = map (fun r => map2 sub r m) rows.
Proof.
  intros R Hm. unfold shift_rows. rewrite map_map. apply map_ext_Forall.
  simpl in R. eapply Forall_impl; [|exact R]. simpl. intros r Hr.
  apply sub_shift_vec; assumption.
Qed.

Lemma diffmat_shift (v : list Qc) (rows : list (list xreal)) (a : list xreal) :
  rectangular (Arr2 (length v) rows) -> length a = length v ->
  _diffmat_objective (shift_vec v a) (Arr2 (length v) (shift_rows v rows))
  = _diffmat_objective a (Arr2 (length v) rows).
Proof.
  intros R Ha. unfold _diffmat_objective, tile_rows.
  rewrite (shift_vec_length v a Ha), Ha.
  rewrite (np_binop_matrix_stack sub (shift_vec v a)
             (shift_rows_rectangular v rows R)
             (shift_vec_length v a Ha)).
  rewrite (np_binop_matrix_stack sub a R Ha).
  rewrite (sub_rows_shift v rows a R Ha). reflexivity.
Qed.

Lemma l1m_objective_shift (np_sqrt : xreal -> xreal)
      (v : list Qc) (rows : list (list xreal)) (a : list xreal) :
  rectangular (Arr2 (length v) rows) -> length a = length v ->
  _l1m_objective np_sqrt (shift_vec v a) (Arr2 (length v) (shift_rows v rows))
  = _l1m_objective np_sqrt a (Arr2 (length v) rows).
Proof.
  intros R Ha. unfold _l1m_objective.
  rewrite (any_nan_shift v rows R), (diffmat_shift v rows a R Ha).
  reflexivity.
Qed.

Lemma l1m_jacobian_shift (np_sqrt : xreal -> xreal) (es : errstate)
      (v : list Qc) (rows : list (list xreal)) (a : list xreal) :
  rectangular (Arr2 (length v) rows) -> length a = length v ->
  _l1m_jacobian np_sqrt es (shift_vec v a)
                (Arr2 (length v) (shift_rows v rows))
  = _l1m_jacobian np_sqrt es a (Arr2 (length v) rows).
Proof.
  intros R Ha. unfold _l1m_jacobian.
  rewrite (any_nan_shift v rows R), (diffmat_shift v rows a R Ha).
  rewrite shift_rows_length. reflexivity.
Qed.


(** ** The optimiser under translation *)

Lemma start_point_solver_equivariant :
  translation_equivariant (@start_point_solver xreal).
Proof.
  split; [intros c r E; injection E as <-; reflexivity | reflexivity].
Qed.







End ExactLaws.




(* ================================================================== *)
(** * scaleTau2 on matrices *)
(* ================================================================== *)

Section ScaleTau2Shape.

Context {F : Type} {AF : Arith F}.
Variable np_sqrt : F -> F.
Variables norm_cdf norm_pdf norm_ppf : F -> F.
Local Open Scope arith_scope.

Lemma np_binop_vec_ok (op : F -> F -> F) (p : nat) (rows : list (list F))
      (v : list F) :
  length v = p ->
  exists rows', np_binop op (Arr2 p rows) (Arr1 v) = Ok (Arr2 p rows')
                /\ length rows' = length rows.
Proof.
  intros Hv. simpl. rewrite Hv, bdim_same.
  eexists. split; [reflexivity | apply length_map].
Qed.

Lemma np_ibinop_vec_ok (op : F -> F -> F) (p : nat) (rows : list (list F))
      (v : list F) :
  length v = p ->
  exists rows', np_ibinop op (Arr2 p rows) (Arr1 v) = Ok (Arr2 p rows')
                /\ length rows' = length rows.
Proof.
  intros Hv. unfold np_ibinop.
  destruct (np_binop_vec_ok op p rows v Hv) as [rows' [E L]].
  rewrite E. cbn [shape]. rewrite L.
  destruct (list_eq_dec Nat.eq_dec _ _) as [_|N]; [|congruence].
  exists rows'. split; [reflexivity | exact L].
Qed.

Lemma np_binop_mat_ok (op : F -> F -> F) (p : nat)
      (rows rows2 : list (list F)) :
  length rows2 = length rows ->
  exists rows', np_binop op (Arr2 p rows) (Arr2 p rows2) = Ok (Arr2 p rows').
Proof.
  intros H. simpl. rewrite H, !bdim_same. eexists. reflexivity.
Qed.

Lemma tau2_squares_matrix_ok (p : nat) (rows : list (list F)) (c1 : F) :
  exists sigma0 rho,
    tau2_squares Warn (Arr2 p rows) c1 = Ok (sigma0, Arr2 p rho)
    /\ length sigma0 = p.
Proof.
  unfold tau2_squares.
  destruct (np_binop_vec_ok sub p rows (median (Arr2 p rows))
                            (median_length p rows)) as [D [ED LD]].
  rewrite ED. cbn [rbind np_abs np_map np_idivide trap_zero].
  assert (Hs : length (median (Arr2 p (map (map fabs) D))) = p)
    by apply median_length.
  destruct (gtb c1 (lit 0)).
  - match goal with
    | |- context [np_ibinop ?op (Arr2 p ?r) (Arr1 ?v)] =>
        destruct (np_ibinop_vec_ok op p r v) as [xc [Exc Lxc]];
          [rewrite length_map; exact Hs | rewrite Exc]
    end.
    cbn [rbind np_square np_map].
    match goal with
    | |- context [np_binop mul (Arr2 p rows) (Arr2 p ?w)] =>
        destruct (np_binop_mat_ok mul p rows w) as [xw Exw];
          [rewrite !length_map, Lxc, length_map; exact LD | rewrite Exw]
    end.
    cbn [rbind scalar_divide np_map].
    match goal with
    | |- context [np_ibinop ?op (Arr2 p ?r) (Arr1 ?v)] =>
        destruct (np_ibinop_vec_ok op p r v Hs) as [x'' [Ex'' _]];
          rewrite Ex''
    end.
    cbn [rbind np_square np_map]. eexists _, _. split; [reflexivity | exact Hs].
  - cbn [rbind].
    destruct (np_ibinop_vec_ok sub p rows (median (Arr2 p rows))
                (median_length p rows)) as [x' [Ex' _]].
    rewrite Ex'. cbn [rbind].
    destruct (np_ibinop_vec_ok div p x' _ Hs) as [x'' [Ex'' _]].
    rewrite Ex''. cbn [rbind np_square np_map].
    eexists _, _. split; [reflexivity | exact Hs].
Qed.

(** On a two-dimensional array, with warnings only and a [c2] whose
    square does not overflow, [scaleTau2] returns one value per column. *)
Lemma scaleTau2_matrix_returns (p : nat) (rows : list (list F)) (c1 c2 c22 : F)
      (consistency : consistency_arg) :
  py_square c2 = Ok c22 ->
  exists s,
    scaleTau2 np_sqrt norm_cdf norm_pdf norm_ppf Warn
              (Arr2 p rows) c1 c2 consistency = Ok s
    /\ length s = p.
Proof.
  intros Hc. unfold scaleTau2.
  destruct (tau2_squares_matrix_ok p rows c1) as [sigma0 [rho [E Hs]]].
  rewrite E. cbn [rbind fst snd tau2_cap]. rewrite Hc.
  cbn [rbind scalar_divide].
  unfold reshape1. rewrite length_map, Hs, Nat.eqb_refl.
  eexists. split; [reflexivity|]. rewrite length_map. exact Hs.
Qed.

End ScaleTau2Shape.

(* ================================================================== *)
(** * The two algebraic laws on binary64, on one input *)
(* ================================================================== *)

(** Shifting the four data rows by (10, -3) shifts the estimate by
    (10, -3): here no step rounds. *)
Example kstepLTS_translation_binary64 :
  run start_point_solver
      (kstepLTS PrimFloat.sqrt (fun _ _ => []) Warn (Arr2 2 outlier_rows)
                5 (fl (1 # 10000000000)))
  = Ok [fl 4; fl 5]
  /\ run start_point_solver
         (kstepLTS PrimFloat.sqrt (fun _ _ => []) Warn
                   (Arr2 2 (map (fun r => map2 add r [fl 10; fl (-3)])
                                outlier_rows))
                   5 (fl (1 # 10000000000)))
     = Ok [fl 14; fl 2].
Proof. split; reflexivity. Qed.

(** A round trip through [scale_data] that rounds: 0.1 standardised by
    m = 0.3 and s = 3 comes back as 0.099999999999999978, two units in
    the last place below 0.1. *)
Example scale_data_round_trip_binary64 :
  rbind (scale_data Warn (Arr2 1 [[fl (1 # 10)]])
                    (PyFloat (fl (3 # 10))) (PyArray [fl 3]))
        (fun Xs => inverse_transform Xs [fl (3 # 10)] [fl 3])
  = Ok (Arr2 1 [[0x1.9999999999998p-4%float]])
  /\ fl (1 # 10) = 0x1.999999999999ap-4%float.
Proof. split; reflexivity. Qed.

(** Ties at the cut distance: of the five rows 1, 2, 2, 9, 0 and the
    estimate 1, the distances are 0, 1, 1, 64, 1, the cut distance at rank
    3 is 1, and the h-subset holds four rows. *)
Example h_subset_ties_enlarge :
  let rows := [[fl 1]; [fl 2]; [fl 2]; [fl 9]; [fl 0]] in
  cut_distance 1 rows [fl 1] = fl 1
  /\ h_subset 1 rows [fl 1] = [[fl 1]; [fl 2]; [fl 2]; [fl 0]].
Proof. split; reflexivity. Qed.

(** The MAD of a constant column is zero; fed to [scale_data] with the
    trap on a zero divisor set, the column is divided by 1.0. *)
Example scale_data_after_mad_constant_column :
  let X := Arr2 2 [[fl 1; fl 7]; [fl 3; fl 7]] in
  mad X mad_default_c = Ok [0x1.7b8bd1a975674p+0%float; fl 0]
  /\ rbind (mad X mad_default_c)
           (fun s => scale_data RaiseFPE X (PyArray (median X)) (PyArray s))
     = Ok (Arr2 2 [[(-0x1.5956b87528a49p-1)%float; fl 0];
                   [0x1.5956b87528a49p-1%float; fl 0]]).
Proof. split; reflexivity. Qed.

(* ================================================================== *)
(** * Further properties: translation of the data *)
(* ================================================================== *)

(** In exact arithmetic, as for [kstepLTS] above: on binary64 every step
    rounds and the equalities hold up to that rounding only. *)

Section TranslationProps.

Import Exact Shift.
Local Open Scope arith_scope.

Variable np_sqrt : xreal -> xreal.
Variable np_power : xreal -> xreal -> xreal.
Variable trim_mean : ndarray xreal -> xreal -> list xreal.
Variable es : errstate.

Lemma existsb_isnan_shift (c : Qc) (l : list xreal) :
  existsb isnan (map (shift c) l) = existsb isnan l.
Proof.
  induction l as [|x l IH]; [reflexivity|]. cbn [map existsb].
  rewrite IH. destruct x; reflexivity.
Qed.

(** The centred matrix [X - m] does not see a common shift of [X] and
    [m]. *)
Lemma centred_shift (v : list Qc) (rows : list (list xreal)) (m : list xreal) :
  rectangular (Arr2 (length v) rows) -> length m = length v ->
  np_binop sub (Arr2 (length v) (shift_rows v rows)) (Arr1 (shift_vec v m))
  = np_binop sub (Arr2 (length v) rows) (Arr1 m).
Proof.
  intros R Hm.
  rewrite (np_binop_matrix_vector sub (shift_vec v m)
             (ExactLaws.shift_rows_rectangular v rows R)
             (ExactLaws.shift_vec_length v m Hm)).
  rewrite (np_binop_matrix_vector sub m R Hm).
  rewrite (ExactLaws.sub_rows_shift v rows m R Hm). reflexivity.
Qed.

Lemma count_not_nan_shift (c : Qc) (l : list xreal) :
  count_not_nan (map (shift c) l) = count_not_nan l.
Proof.
  unfold count_not_nan. fold not_nan.
  rewrite ExactLaws.filter_not_nan_shift. apply length_map.
Qed.

Lemma np_var1_shift (c : Qc) (l : list xreal) :
  np_var1 (map (shift c) l) = np_var1 l.
Proof.
  unfold np_var1. fold (np_mean1 (map (shift c) l)). fold (np_mean1 l).
  rewrite ExactLaws.np_mean1_shift, length_map, map_map.
  f_equal. f_equal. apply map_ext. intros x.
  unfold shift. rewrite ExactLaws.sub_shift. reflexivity.
Qed.

Lemma np_nanvar1_shift (c : Qc) (l : list xreal) :
  np_nanvar1 (map (shift c) l) = np_nanvar1 l.
Proof.
  unfold np_nanvar1.
  fold (np_nanmean1 (map (shift c) l)). fold (np_nanmean1 l).
  rewrite ExactLaws.np_nanmean1_shift, count_not_nan_shift, map_map.
  f_equal. f_equal. apply map_ext. intros x.
  unfold shift. rewrite ExactLaws.isnan_shift, ExactLaws.sub_shift.
  reflexivity.
Qed.

(** A column-wise reduction that does not see a shift of its column does
    not see a shift of the matrix. *)
Lemma along_axis0_shift_invariant (f : list xreal -> xreal)
      (v : list Qc) (rows : list (list xreal)) :
  (forall c l, f (map (shift c) l) = f l) ->
  rectangular (Arr2 (length v) rows) ->
  along_axis0 f (Arr2 (length v) (shift_rows v rows))
  = along_axis0 f (Arr2 (length v) rows).
Proof.
  intros Hf R. cbn [along_axis0]. unfold columns. rewrite !map_map.
  apply map_ext_in. intros j Hj. apply in_seq in Hj.
  rewrite (ExactLaws.column_shift v rows j R) by lia. apply Hf.
Qed.

(** X1. [median] is translation-equivariant, in exact arithmetic: adding
    a number c to every entry of a one-dimensional array adds c to its
    median, and for a rectangular matrix X of p columns and a vector v
    of p numbers, [median(X + v)] is [median(X) + v], where [X + v] is
    the broadcast sum NumPy computes.  Entries that are not numbers are
    allowed; a column without a number has median not-a-number on both
    sides. *)
Theorem median_translation_equivariant :
  (forall (c : Qc) (x : list xreal),
      median (Arr1 (map (shift c) x)) = map (shift c) (median (Arr1 x)))
  /\ (forall (v : list Qc) (rows : list (list xreal)),
         rectangular (Arr2 (length v) rows) ->
         np_binop add (Arr2 (length v) rows) (Arr1 (map Some v))
         = Ok (Arr2 (length v) (shift_rows v rows))
         /\ median (Arr2 (length v) (shift_rows v rows))
            = shift_vec v (median (Arr2 (length v) rows))).
Proof.
  split.
  - intros c x. unfold median, any_nan. cbn [flat along_axis0 map].
    rewrite existsb_isnan_shift. destruct (existsb isnan x).
    + rewrite ExactLaws.np_nanmedian1_shift. reflexivity.
    + rewrite ExactLaws.np_median1_shift. reflexivity.
  - intros v rows R. split.
    + apply ExactLaws.np_add_matrix_vector, R.
    + apply ExactLaws.median_shift, R.
Qed.

(** X2. The untrimmed [mean] ([trimming = 0]) is translation-equivariant,
    in exact arithmetic: [mean(x + c) = mean(x) + c] for a
    one-dimensional array and [mean(X + v) = mean(X) + v] for a
    rectangular matrix, with or without entries that are not numbers. *)
Theorem mean_translation_equivariant :
  (forall (c : Qc) (x : list xreal),
      mean trim_mean (Arr1 (map (shift c) x)) (lit 0)
      = map (shift c) (mean trim_mean (Arr1 x) (lit 0)))
  /\ (forall (v : list Qc) (rows : list (list xreal)),
         rectangular (Arr2 (length v) rows) ->
         mean trim_mean (Arr2 (length v) (shift_rows v rows)) (lit 0)
         = shift_vec v (mean trim_mean (Arr2 (length v) rows) (lit 0))).
Proof.
  split.
  - intros c x. unfold mean, any_nan. cbn [flat along_axis0 map].
    rewrite (zero_eq_zero (AF := exact)).
    rewrite existsb_isnan_shift. destruct (existsb isnan x).
    + rewrite ExactLaws.np_nanmean1_shift. reflexivity.
    + rewrite ExactLaws.np_mean1_shift. reflexivity.
  - intros v rows R. apply ExactLaws.mean_shift, R.
Qed.

(** X3. [mad] is translation-invariant, in exact arithmetic: for a
    rectangular matrix X of p columns, a vector v of p numbers and every
    constant c, [mad(X + v, c)] is [mad(X, c)] (the same values, or the
    same exception). *)
Theorem mad_translation_invariant :
  forall (v : list Qc) (rows : list (list xreal)) (c : xreal),
    rectangular (Arr2 (length v) rows) ->
    mad (Arr2 (length v) (shift_rows v rows)) c
    = mad (Arr2 (length v) rows) c.
Proof.
  intros v rows c R. unfold mad.
  rewrite (ExactLaws.median_shift v rows R).
  rewrite (centred_shift v rows _ R (median_length _ _)).
  reflexivity.
Qed.

(** X4. The untrimmed [std] ([trimming = 0]) is translation-invariant,
    in exact arithmetic and whatever [np.power] computes:
    [std(x + c) = std(x)] for a one-dimensional array and
    [std(X + v) = std(X)] for a rectangular matrix, with or without
    entries that are not numbers. *)
Theorem std_translation_invariant :
  (forall (c : Qc) (x : list xreal),
      std np_sqrt np_power trim_mean (Arr1 (map (shift c) x)) (lit 0)
      = std np_sqrt np_power trim_mean (Arr1 x) (lit 0))
  /\ (forall (v : list Qc) (rows : list (list xreal)),
         rectangular (Arr2 (length v) rows) ->
         std np_sqrt np_power trim_mean
             (Arr2 (length v) (shift_rows v rows)) (lit 0)
         = std np_sqrt np_power trim_mean (Arr2 (length v) rows) (lit 0)).
Proof.
  split.
  - intros c x. unfold std, any_nan. cbn [flat along_axis0].
    rewrite existsb_isnan_shift, np_var1_shift, np_nanvar1_shift.
    reflexivity.
  - intros v rows R. unfold std.
    rewrite (ExactLaws.any_nan_shift v rows R).
    rewrite (along_axis0_shift_invariant np_nanvar1 v rows np_nanvar1_shift R).
    rewrite (along_axis0_shift_invariant np_var1 v rows np_var1_shift R).
    reflexivity.
Qed.

(** X5. The objective of the L1-median and its Jacobian depend on the
    point and the data through their differences only: in exact
    arithmetic, whatever [np.sqrt] computes and whatever the error state,
    for a rectangular matrix X of p columns, a point a of p entries and
    a vector v of p numbers, [_l1m_objective(a + v, X + v)] is
    [_l1m_objective(a, X)] and [_l1m_jacobian(a + v, X + v)] is
    [_l1m_jacobian(a, X)].  (This is what makes a minimiser of the
    objective follow a translation of the data.) *)
Theorem l1m_objective_translation_invariant :
  forall (v : list Qc) (rows : list (list xreal)) (a : list xreal),
    rectangular (Arr2 (length v) rows) -> length a = length v ->
    _l1m_objective np_sqrt (shift_vec v a) (Arr2 (length v) (shift_rows v rows))
    = _l1m_objective np_sqrt a (Arr2 (length v) rows)
    /\ _l1m_jacobian np_sqrt es (shift_vec v a)
                     (Arr2 (length v) (shift_rows v rows))
       = _l1m_jacobian np_sqrt es a (Arr2 (length v) rows).
Proof.
  intros v rows a R Ha. split.
  - apply ExactLaws.l1m_objective_shift; assumption.
  - apply ExactLaws.l1m_jacobian_shift; assumption.
Qed.

End TranslationProps.

Lemma mad_translation_invariant_witness :
  let v := [Q2Qc 10; Q2Qc (-3)] in
  rectangular (Arr2 (length v) exact_outlier_rows)
  /\ mad (Arr2 (length v) (Shift.shift_rows v exact_outlier_rows))
         (xq (6744897501960817 # 10000000000000000))
     = mad (Arr2 (length v) exact_outlier_rows)
           (xq (6744897501960817 # 10000000000000000)).
Proof.
  intros v.
  assert (R : rectangular (Arr2 (length v) exact_outlier_rows))
    by (repeat constructor).
  split; [exact R|].
  apply (mad_translation_invariant v exact_outlier_rows _ R).
Defined.

Lemma l1m_objective_translation_invariant_witness :
  let v := [Q2Qc 10; Q2Qc (-3)] in
  let a := [xq 4; xq 5] in
  rectangular (Arr2 (length v) exact_outlier_rows)
  /\ length a = length v
  /\ _l1m_objective (fun x => x) (Shift.shift_vec v a)
                    (Arr2 (length v) (Shift.shift_rows v exact_outlier_rows))
     = _l1m_objective (fun x => x) a (Arr2 (length v) exact_outlier_rows)
  /\ _l1m_jacobian (fun x => x) RaiseFPE (Shift.shift_vec v a)
                   (Arr2 (length v) (Shift.shift_rows v exact_outlier_rows))
     = _l1m_jacobian (fun x => x) RaiseFPE a
                     (Arr2 (length v) exact_outlier_rows).
Proof.
  intros v a.
  assert (R : rectangular (Arr2 (length v) exact_outlier_rows))
    by (repeat constructor).
  split; [exact R|]. split; [reflexivity|].
  apply (l1m_objective_translation_invariant
           (fun x => x) RaiseFPE v exact_outlier_rows a R eq_refl).
Defined.

(* ================================================================== *)
(** * Further properties: entries that are not numbers, and order *)
(* ================================================================== *)

Section MissingEntries.

Import Exact Shift.
Local Open Scope arith_scope.

Variable np_sqrt : xreal -> xreal.
Variable np_power : xreal -> xreal -> xreal.
Variable trim_mean : ndarray xreal -> xreal -> list xreal.

Lemma filter_not_nan_id (l : list xreal) :
  existsb isnan l = false -> filter not_nan l = l.
Proof.
  induction l as [|x l IH]; [reflexivity|]. cbn [existsb filter].
  intros H. apply orb_false_iff in H. destruct H as [Hx Hl].
  unfold not_nan at 1. rewrite Hx. cbn [negb]. f_equal. apply IH, Hl.
Qed.

Lemma column_no_nan (j : nat) (rows : list (list xreal)) :
  existsb isnan (concat rows) = false ->
  existsb isnan (column j rows) = false.
Proof.
  induction rows as [|r rows IH]; [reflexivity|].
  cbn [concat column map existsb]. rewrite existsb_app.
  intros H. apply orb_false_iff in H. destruct H as [Hr Hrows].
  fold (column j rows). rewrite (IH Hrows), orb_false_r.
  destruct (nth_in_or_default j r zero) as [Hin | ->]; [|reflexivity].
  destruct (isnan (nth j r zero)) eqn:N; [|reflexivity].
  rewrite <- Hr. symmetry. apply existsb_exists.
  exists (nth j r zero). split; assumption.
Qed.

(** A column-wise statistic that skips the entries that are not numbers
    when the array holds one, and is the plain statistic otherwise. *)
Lemma along_axis0_skips_nan (f g : list xreal -> xreal) (X : ndarray xreal) :
  (forall l, g l = f (filter not_nan l)) ->
  (if any_nan X then along_axis0 g X else along_axis0 f X)
  = along_axis0 (fun col => f (filter not_nan col)) X.
Proof.
  intros Hg. destruct (any_nan X) eqn:N.
  - destruct X as [v|p rows]; cbn [along_axis0].
    + rewrite Hg. reflexivity.
    + apply map_ext. intros col. apply Hg.
  - unfold any_nan in N. destruct X as [v|p rows]; cbn [along_axis0 flat] in *.
    + rewrite (filter_not_nan_id v N). reflexivity.
    + unfold columns. rewrite !map_map. apply map_ext. intros j.
      rewrite (filter_not_nan_id _ (column_no_nan j rows N)). reflexivity.
Qed.

Lemma fold_nan_as_zero_filter (g : xreal -> xreal) (l : list xreal) (a : xreal) :
  fold_left add (map (fun x => if isnan x then zero else g x) l) a
  = fold_left add (map g (filter not_nan l)) a.
Proof.
  revert a. induction l as [|x l IH]; intros a; [reflexivity|].
  cbn [map fold_left filter]. unfold not_nan at 1.
  destruct (isnan x) eqn:N; cbn [negb map fold_left].
  - rewrite <- IH. f_equal. apply ExactLaws.xadd_zero_r.
  - apply IH.
Qed.

Lemma np_nanvar1_filter (l : list xreal) :
  np_nanvar1 l = np_var1 (filter not_nan l).
Proof.
  unfold np_nanvar1, np_var1, np_nansum, np_sum, count_not_nan.
  fold not_nan.
  rewrite ExactLaws.fold_nansum_filter, fold_nan_as_zero_filter.
  reflexivity.
Qed.

Lemma filter_not_nan_squares (x : list xreal) :
  filter not_nan (map (fun e => e * e) x)
  = map (fun e => e * e) (filter not_nan x).
Proof.
  apply ExactLaws.filter_map_Forall. apply Forall_forall.
  intros [e|] _; reflexivity.
Qed.

Lemma median_skips_nan (X : ndarray xreal) :
  median X = along_axis0 (fun col => np_median1 (filter not_nan col)) X.
Proof.
  unfold median.
  apply (along_axis0_skips_nan np_median1 np_nanmedian1 X (fun l => eq_refl)).
Qed.

Lemma mean_skips_nan (X : ndarray xreal) :
  mean trim_mean X (lit 0)
  = along_axis0 (fun col => np_mean1 (filter not_nan col)) X.
Proof.
  unfold mean. rewrite (zero_eq_zero (AF := exact)).
  apply along_axis0_skips_nan. apply ExactLaws.np_nanmean1_filter.
Qed.

Lemma std_skips_nan (X : ndarray xreal) :
  std np_sqrt np_power trim_mean X (lit 0)
  = Ok (map (fun v => np_power v (lit (1 # 2)))
            (along_axis0 (fun col => np_var1 (filter not_nan col)) X)).
Proof.
  unfold std. rewrite (zero_eq_zero (AF := exact)).
  rewrite (along_axis0_skips_nan np_var1 np_nanvar1 X np_nanvar1_filter).
  reflexivity.
Qed.

(** X6. Entries that are not numbers are skipped, column by column, in
    exact arithmetic: whether or not the array holds such an entry, the
    untrimmed [mean(X)] is the mean of the numbers of each column, the
    untrimmed [std(X)] is [np.power(., 0.5)] of the variance of the
    numbers of each column, and [_euclidnorm(x)] is [np.sqrt] of the sum
    of the squares of the numbers of x.  (The switch to the NaN-aware
    routines on [np.isnan(X).any()] changes no value.) *)
Theorem statistics_skip_missing_entries :
  (forall X : ndarray xreal,
      mean trim_mean X (lit 0)
      = along_axis0 (fun col => np_mean1 (filter not_nan col)) X)
  /\ (forall X : ndarray xreal,
         std np_sqrt np_power trim_mean X (lit 0)
         = Ok (map (fun v => np_power v (lit (1 # 2)))
                   (along_axis0 (fun col => np_var1 (filter not_nan col)) X)))
  /\ (forall x : list xreal,
         _euclidnorm np_sqrt x
         = np_sqrt (np_sum (map (fun e => e * e) (filter not_nan x)))).
Proof.
  split; [|split].
  - apply mean_skips_nan.
  - apply std_skips_nan.
  - intros x. unfold _euclidnorm. destruct (existsb isnan x) eqn:N.
    + unfold np_nansum, np_sum.
      rewrite ExactLaws.fold_nansum_filter, filter_not_nan_squares.
      reflexivity.
    + rewrite (filter_not_nan_id x N). reflexivity.
Qed.

(** ** The median as an order statistic *)

Lemma firstn_skipn_one {T} (k : nat) (s : list T) (d : T) :
  (k < length s)%nat -> firstn 1 (skipn k s) = [nth k s d].
Proof.
  revert k. induction s as [|x s IH]; intros k H; simpl in H; [lia|].
  destruct k as [|k]; [reflexivity|]. cbn [skipn nth]. apply IH. lia.
Qed.

Lemma firstn_skipn_two {T} (k : nat) (s : list T) (d : T) :
  (S k < length s)%nat -> firstn 2 (skipn k s) = [nth k s d; nth (S k) s d].
Proof.
  revert k. induction s as [|x s IH]; intros k H; simpl in H; [lia|].
  destruct k as [|k].
  - destruct s as [|y s]; simpl in H; [lia|]. reflexivity.
  - cbn [skipn]. rewrite (IH k) by lia. reflexivity.
Qed.

Lemma np_mean1_one (x : xreal) : np_mean1 [x] = x.
Proof.
  destruct x as [q|]; [|reflexivity].
  unfold np_mean1, np_sum. cbn [fold_left length].
  rewrite ExactLaws.of_nat_xnat.
  change (@zero xreal exact) with (Some (Q2Qc 0)).
  cbn [add exact lift2 div xdiv].
  rewrite (ExactLaws.xnat_nonzero 1) by lia. f_equal.
  change (xnat 1) with (Q2Qc 1). field. discriminate.
Qed.

Lemma np_mean1_two (x y : xreal) : np_mean1 [x; y] = (x + y) / two.
Proof.
  unfold np_mean1, np_sum. cbn [fold_left length].
  rewrite ExactLaws.of_nat_xnat.
  change (@zero xreal exact) with (Some (Q2Qc 0)).
  change (@two xreal exact) with (Some (Q2Qc 2)).
  change (xnat 2) with (Q2Qc 2).
  destruct x as [a|], y as [b|]; try reflexivity.
  cbn [add exact lift2 div xdiv].
  destruct (Qeq_bool (Q2Qc 2) 0); [reflexivity|]. f_equal.
  f_equal. ring.
Qed.

Lemma np_median1_middle (l : list xreal) :
  np_median1 l = middle (np_sort l).
Proof.
  unfold np_median1, middle. rewrite np_sort_length.
  destruct (length l) as [|n] eqn:En.
  - destruct l; [reflexivity | discriminate].
  - assert (L : length (np_sort l) = S n) by (rewrite np_sort_length; exact En).
    assert (Hhalf : (S n / 2 < S n)%nat)
      by (apply Nat.div_lt; lia).
    destruct (Nat.even (S n)) eqn:Ev.
    + assert (H1 : (1 <= S n / 2)%nat).
      { destruct n as [|n]; [discriminate|].
        change 1%nat with (2 / 2)%nat at 1.
        apply Nat.Div0.div_le_mono. lia. }
      rewrite (firstn_skipn_two (S n / 2 - 1) (np_sort l) zero) by lia.
      replace (S (S n / 2 - 1)) with (S n / 2)%nat by lia.
      apply np_mean1_two.
    + rewrite (firstn_skipn_one (S n / 2) (np_sort l) zero) by lia.
      apply np_mean1_one.
Qed.

Lemma ascending_numbers (a b : Qc) :
  ascending (Some a : xreal) (Some b) <-> (a <= b)%Qc.
Proof.
  unfold ascending, np_lt. cbn. rewrite orb_false_r.
  unfold Qlt_bool. rewrite negb_false_iff. apply Qle_bool_iff.
Qed.

(** X7. [median] is the textbook median of the numbers of each column,
    in exact arithmetic.  There is a sorting of sequences (every
    sequence is rearranged into an ascending one; between two numbers
    ascending means [<=]) such that, for every one- or two-dimensional
    array X, with or without entries that are not numbers, [median(X)]
    holds for each column the middle of its sorted numbers: the middle
    entry when their count is odd, the mean of the two middle entries
    when it is even, and not-a-number when the column has no number. *)
Theorem median_is_middle_of_sorted_numbers :
  exists sorted : list xreal -> list xreal,
    (forall l, Permutation l (sorted l) /\ Sorted ascending (sorted l))
    /\ (forall a b : Qc, ascending (Some a : xreal) (Some b) <-> (a <= b)%Qc)
    /\ (forall X : ndarray xreal,
           median X
           = along_axis0 (fun col => middle (sorted (filter not_nan col))) X).
Proof.
  exists np_sort. split; [|split].
  - intros l. split; [apply np_sort_perm | apply np_sort_sorted].
  - apply ascending_numbers.
  - intros X. rewrite median_skips_nan.
    destruct X as [v|p rows]; cbn [along_axis0].
    + rewrite np_median1_middle. reflexivity.
    + apply map_ext. intros col. apply np_median1_middle.
Qed.

End MissingEntries.

Section HalfSample.

Import Exact Shift.
Local Open Scope arith_scope.

Variable trim_mean : ndarray xreal -> xreal -> list xreal.

Lemma ascending_trans (a b c : xreal) :
  ascending a b -> ascending b c -> ascending a c.
Proof.
  destruct a as [a|], b as [b|], c as [c|];
    try (intros; reflexivity); try (intros H1 H2; discriminate).
  rewrite !ascending_numbers. apply Qcle_trans.
Qed.

Lemma filter_length_perm {T} (f : T -> bool) (l l' : list T) :
  Permutation l l' -> length (filter f l) = length (filter f l').
Proof.
  induction 1 as [|x l l' _ IH|x y l|l l' l'' _ IH1 _ IH2]; cbn [filter].
  - reflexivity.
  - destruct (f x); cbn [length]; rewrite IH; reflexivity.
  - destruct (f x), (f y); reflexivity.
  - congruence.
Qed.

Lemma filter_map_length {T U} (f : U -> bool) (g : T -> U) (l : list T) :
  length (filter (fun t => f (g t)) l) = length (filter f (map g l)).
Proof.
  induction l as [|t l IH]; [reflexivity|]. cbn [map filter].
  destruct (f (g t)); cbn [length]; rewrite IH; reflexivity.
Qed.

(** In a sorted sequence of numbers the first [k] entries are at most
    the entry of rank [k]. *)
Lemma sorted_prefix_below (s : list xreal) (k : nat) :
  StronglySorted ascending s -> existsb isnan s = false ->
  (1 <= k <= length s)%nat ->
  Forall (fun x => (x <=? nth (k - 1) s zero) = true) (firstn k s).
Proof.
  intros SS. revert k. induction SS as [|a s SS IH Ha]; intros k N Hk;
    simpl in Hk; [lia|].
  cbn [existsb] in N. apply orb_false_iff in N. destruct N as [Na Ns].
  destruct a as [a|]; [|discriminate].
  assert (Hin : forall y, In y s -> (Some a <=? y) = true).
  { intros y Hy. rewrite Forall_forall in Ha. specialize (Ha y Hy).
    destruct y as [y|].
    - apply ascending_numbers in Ha. apply Qle_bool_iff. exact Ha.
    - exfalso. assert (E : existsb isnan s = true)
        by (apply existsb_exists; exists None; split; [exact Hy|reflexivity]).
      congruence. }
  destruct k as [|[|k]]; [lia| |].
  - cbn [firstn Nat.sub nth]. constructor; [|constructor].
    apply Qle_bool_iff. apply Qle_refl.
  - cbn [firstn]. replace (S (S k) - 1)%nat with (S k) by lia. cbn [nth].
    constructor.
    + apply Hin. apply nth_In. lia.
    + specialize (IH (S k) Ns ltac:(lia)).
      replace (S k - 1)%nat with k in IH by lia. exact IH.
Qed.

Lemma filter_all_length {T} (f : T -> bool) (l : list T) :
  Forall (fun x => f x = true) l -> length (filter f l) = length l.
Proof.
  induction 1 as [|x l Hx _ IH]; [reflexivity|]. cbn [filter].
  rewrite Hx. cbn [length]. rewrite IH. reflexivity.
Qed.

Lemma np_sort_strongly_sorted (l : list xreal) :
  StronglySorted ascending (np_sort l).
Proof.
  apply Sorted_StronglySorted; [|apply np_sort_sorted].
  intros a b c. apply ascending_trans.
Qed.

(** At least [k] numbers are at most the number of rank [k]. *)
Lemma rank_counts (l : list xreal) (k : nat) :
  existsb isnan l = false -> (1 <= k <= length l)%nat ->
  (k <= length (filter (fun x => (x <=? nth (k - 1) (np_sort l) zero)%A) l))%nat.
Proof.
  intros N Hk.
  set (cut := nth (k - 1) (np_sort l) zero).
  rewrite (filter_length_perm (fun x => x <=? cut) _ _ (np_sort_perm l)).
  assert (Ns : existsb isnan (np_sort l) = false).
  { destruct (existsb isnan (np_sort l)) eqn:E; [|reflexivity].
    apply existsb_exists in E. destruct E as [x [Hx Nx]].
    apply (Permutation_in x (Permutation_sym (np_sort_perm l))) in Hx.
    rewrite <- N. symmetry. apply existsb_exists. exists x. split; assumption. }
  pose proof (sorted_prefix_below (np_sort l) k (np_sort_strongly_sorted l) Ns
                ltac:(rewrite np_sort_length; exact Hk)) as P.
  fold cut in P.
  rewrite <- (firstn_skipn k (np_sort l)) at 1.
  rewrite filter_app, length_app, (filter_all_length _ _ P).
  rewrite length_firstn, np_sort_length. lia.
Qed.

Lemma np_sum_number (l : list xreal) :
  existsb isnan l = false -> isnan (np_sum l) = false.
Proof.
  unfold np_sum. change (@zero xreal exact) with (Some (Q2Qc 0)).
  generalize (Q2Qc 0). induction l as [|x l IH]; intros a N; [reflexivity|].
  cbn [existsb] in N. apply orb_false_iff in N. destruct N as [Nx Nl].
  destruct x as [x|]; [|discriminate]. cbn [fold_left]. apply IH, Nl.
Qed.

Lemma map2_sub_number (r m : list xreal) :
  existsb isnan r = false -> existsb isnan m = false ->
  existsb isnan (map (fun d => d * d) (map2 sub r m)) = false.
Proof.
  revert m. induction r as [|x r IH]; intros [|y m] Nr Nm; try reflexivity.
  cbn [existsb] in Nr, Nm.
  apply orb_false_iff in Nr. apply orb_false_iff in Nm.
  destruct Nr as [Nx Nr], Nm as [Ny Nm].
  destruct x as [x|], y as [y|]; try discriminate.
  cbn [map2 map existsb]. rewrite (IH m Nr Nm). reflexivity.
Qed.

(** The squared distance of a row of the data to an estimate made of
    numbers is a number. *)
Lemma sq_distance_number (p : nat) (rows : list (list xreal))
      (m1 row : list xreal) :
  existsb isnan m1 = false -> In row rows ->
  isnan (sq_distance p rows m1 row) = false.
Proof.
  intros Nm Hin. unfold sq_distance.
  destruct (any_nan (Arr2 p rows)) eqn:N.
  - unfold np_nansum. apply np_sum_number.
    generalize (map (fun d => d * d) (map2 sub row m1)).
    induction l as [|x l IH]; [reflexivity|]. cbn [map existsb].
    rewrite IH. destruct x; reflexivity.
  - apply np_sum_number, map2_sub_number; [|exact Nm].
    unfold any_nan in N. cbn [flat] in N.
    destruct (existsb isnan row) eqn:E; [|reflexivity].
    apply existsb_exists in E. destruct E as [x [Hx Nx]].
    rewrite <- N. symmetry. apply existsb_exists. exists x.
    split; [|exact Nx]. apply in_concat. exists row. split; assumption.
Qed.

(** X8. One pass of the loop of [kstepLTS] keeps at least half of the
    rows, in exact arithmetic: for a rectangular matrix of n >= 1 rows
    and p >= 1 columns (entries that are not numbers allowed) and a
    current estimate m1 of p numbers, the pass returns the column mean of
    the h-subset, the h-subset holds at least floor((n + 1) / 2) rows,
    and every row of it is a row of the data. *)
Theorem lts_update_keeps_at_least_half
        (p : nat) (rows : list (list xreal)) (m1 : list xreal) :
  rectangular (Arr2 p rows) -> (1 <= length rows)%nat -> (1 <= p)%nat ->
  length m1 = p -> existsb isnan m1 = false ->
  lts_update trim_mean (Arr2 p rows) (length rows) p m1
  = Ok (mean trim_mean (Arr2 p (h_subset p rows m1)) (lit 0))
  /\ ((length rows + 1) / 2 <= length (h_subset p rows m1))%nat
  /\ (forall row, In row (h_subset p rows m1) -> In row rows).
Proof.
  intros R Hn Hp Hm Nm. split; [|split].
  - apply (lts_update_refine trim_mean p rows R Hn Hp m1 Hm).
  - unfold h_subset, cut_distance, value_at_rank.
    rewrite (filter_map_length
               (fun d => d <=? nth ((length rows + 1) / 2 - 1)
                                   (np_sort (map (sq_distance p rows m1) rows))
                                   zero)
               (sq_distance p rows m1) rows).
    apply rank_counts.
    + destruct (existsb isnan (map (sq_distance p rows m1) rows)) eqn:E;
        [|reflexivity].
      apply existsb_exists in E. destruct E as [d [Hd Nd]].
      apply in_map_iff in Hd. destruct Hd as [row [<- Hrow]].
      rewrite (sq_distance_number p rows m1 row Nm Hrow) in Nd. discriminate.
    + rewrite length_map. split.
      * change 1%nat with (2 / 2)%nat at 1. apply Nat.Div0.div_le_mono. lia.
      * apply Nat.Div0.div_le_upper_bound. lia.
  - intros row H. unfold h_subset in H. apply filter_In in H. apply H.
Qed.

End HalfSample.

Lemma lts_update_keeps_at_least_half_witness :
  let m1 := [xq 4; xq 5] in
  lts_update (fun _ _ => []) (Arr2 2 exact_outlier_rows)
             (length exact_outlier_rows) 2 m1
  = Ok (mean (fun _ _ => []) (Arr2 2 (h_subset 2 exact_outlier_rows m1)) (lit 0))
  /\ ((length exact_outlier_rows + 1) / 2
      <= length (h_subset 2 exact_outlier_rows m1))%nat
  /\ (forall row, In row (h_subset 2 exact_outlier_rows m1)
                  -> In row exact_outlier_rows).
Proof.
  intros m1.
  apply (lts_update_keeps_at_least_half (fun _ _ => []) 2 exact_outlier_rows m1).
  - repeat constructor.
  - simpl. lia.
  - lia.
  - reflexivity.
  - reflexivity.
Defined.

Section RowOrder.

Import Exact Shift.
Local Open Scope arith_scope.

Variable np_sqrt : xreal -> xreal.
Variable np_power : xreal -> xreal -> xreal.
Variable trim_mean : ndarray xreal -> xreal -> list xreal.

Lemma fold_add_perm (l l' : list xreal) (a : xreal) :
  Permutation l l' -> fold_left add l a = fold_left add l' a.
Proof.
  intros P. revert a.
  induction P as [|x l l' _ IH|x y l|l l' l'' _ IH1 _ IH2]; intros a;
    cbn [fold_left].
  - reflexivity.
  - apply IH.
  - f_equal. rewrite <- !ExactLaws.xadd_assoc. f_equal.
    apply ExactLaws.xadd_comm.
  - rewrite IH1. apply IH2.
Qed.

Lemma np_sum_perm (l l' : list xreal) :
  Permutation l l' -> np_sum l = np_sum l'.
Proof. apply fold_add_perm. Qed.

Lemma filter_perm {T} (f : T -> bool) (l l' : list T) :
  Permutation l l' -> Permutation (filter f l) (filter f l').
Proof.
  induction 1 as [|x l l' _ IH|x y l|l l' l'' _ IH1 _ IH2]; cbn [filter].
  - constructor.
  - destruct (f x); [constructor|]; exact IH.
  - destruct (f x), (f y); try apply Permutation_refl. constructor.
  - eapply Permutation_trans; eassumption.
Qed.

Lemma ascending_antisym (a b : xreal) :
  ascending a b -> ascending b a -> a = b.
Proof.
  destruct a as [a|], b as [b|]; try reflexivity; try discriminate.
  rewrite !ascending_numbers. intros H1 H2. f_equal.
  apply Qcle_antisym; assumption.
Qed.

Lemma ascending_refl (a : xreal) : ascending a a.
Proof.
  destruct a as [a|]; [|reflexivity].
  apply ascending_numbers. apply Qcle_refl.
Qed.

(** Two sorted arrangements of the same values are equal. *)
Lemma sorted_unique (s s' : list xreal) :
  StronglySorted ascending s -> StronglySorted ascending s' ->
  Permutation s s' -> s = s'.
Proof.
  intros SS. revert s'. induction SS as [|a s SS IH Ha]; intros s' SS' P.
  - apply Permutation_nil in P. symmetry. exact P.
  - destruct SS' as [|b s' SS' Hb].
    + apply Permutation_sym, Permutation_nil in P. discriminate.
    + assert (E : a = b).
      { apply ascending_antisym.
        - assert (Hin : In b (a :: s))
            by (apply (Permutation_in b (Permutation_sym P)); left; reflexivity).
          destruct Hin as [<- | Hin]; [apply ascending_refl|].
          rewrite Forall_forall in Ha. apply Ha, Hin.
        - assert (Hin : In a (b :: s'))
            by (apply (Permutation_in a P); left; reflexivity).
          destruct Hin as [<- | Hin]; [apply ascending_refl|].
          rewrite Forall_forall in Hb. apply Hb, Hin. }
      subst b. f_equal. apply IH; [exact SS'|].
      apply Permutation_cons_inv with (a := a). exact P.
Qed.

Lemma np_sort_of_perm (l l' : list xreal) :
  Permutation l l' -> np_sort l = np_sort l'.
Proof.
  intros P. apply sorted_unique; try apply np_sort_strongly_sorted.
  eapply Permutation_trans; [apply Permutation_sym, np_sort_perm|].
  eapply Permutation_trans; [exact P | apply np_sort_perm].
Qed.

Lemma np_mean1_perm (l l' : list xreal) :
  Permutation l l' -> np_mean1 l = np_mean1 l'.
Proof.
  intros P. unfold np_mean1.
  rewrite (np_sum_perm l l' P), (Permutation_length P). reflexivity.
Qed.

Lemma np_median1_perm (l l' : list xreal) :
  Permutation l l' -> np_median1 l = np_median1 l'.
Proof.
  intros P. unfold np_median1.
  rewrite (np_sort_of_perm l l' P), (Permutation_length P). reflexivity.
Qed.

Lemma np_var1_perm (l l' : list xreal) :
  Permutation l l' -> np_var1 l = np_var1 l'.
Proof.
  intros P. unfold np_var1.
  rewrite (np_sum_perm l l' P), (Permutation_length P).
  f_equal. apply np_sum_perm. apply Permutation_map. exact P.
Qed.

(** A column-wise statistic of the entries that are numbers, on the
    rows in another order. *)
Lemma along_axis0_rows_perm (f : list xreal -> xreal) (p : nat)
      (rows rows' : list (list xreal)) :
  (forall l l', Permutation l l' -> f l = f l') ->
  Permutation rows rows' ->
  along_axis0 (fun col => f (filter not_nan col)) (Arr2 p rows)
  = along_axis0 (fun col => f (filter not_nan col)) (Arr2 p rows').
Proof.
  intros Hf P. cbn [along_axis0]. unfold columns. rewrite !map_map.
  apply map_ext. intros j. apply Hf, filter_perm.
  unfold column. apply Permutation_map. exact P.
Qed.

Lemma median_rows_perm (p : nat) (rows rows' : list (list xreal)) :
  Permutation rows rows' -> median (Arr2 p rows) = median (Arr2 p rows').
Proof.
  intros P. rewrite !median_skips_nan.
  apply along_axis0_rows_perm; [apply np_median1_perm | exact P].
Qed.

(** X9. The column statistics do not depend on the order of the rows, in
    exact arithmetic: if the rows of X' are the rows of X in another
    order, then [median], the untrimmed [mean], the untrimmed [std] and
    [mad] (for every constant c) return on X' what they return on X.
    (On binary64 the sums are rounded in the order of the rows, and the
    results can differ by that rounding.) *)
Theorem column_statistics_ignore_row_order
        (p : nat) (rows rows' : list (list xreal)) (c : xreal) :
  Permutation rows rows' ->
  median (Arr2 p rows) = median (Arr2 p rows')
  /\ mean trim_mean (Arr2 p rows) (lit 0) = mean trim_mean (Arr2 p rows') (lit 0)
  /\ std np_sqrt np_power trim_mean (Arr2 p rows) (lit 0)
     = std np_sqrt np_power trim_mean (Arr2 p rows') (lit 0)
  /\ mad (Arr2 p rows) c = mad (Arr2 p rows') c.
Proof.
  intros P. split; [|split; [|split]].
  - apply median_rows_perm, P.
  - rewrite !mean_skips_nan.
    apply along_axis0_rows_perm; [apply np_mean1_perm | exact P].
  - rewrite !std_skips_nan. do 2 f_equal.
    apply along_axis0_rows_perm; [apply np_var1_perm | exact P].
  - unfold mad. rewrite <- (median_rows_perm p rows rows' P).
    cbn [np_binop]. destruct (bdim p (length (median (Arr2 p rows))));
      [|reflexivity].
    cbn [rbind np_abs np_map]. do 2 f_equal.
    apply median_rows_perm. do 2 apply Permutation_map. exact P.
Qed.

End RowOrder.

Lemma column_statistics_ignore_row_order_witness :
  let rows := [[xq 1; xq 2]; [xq 3; None]; [xq 5; xq 6]] in
  let rows' := [[xq 3; None]; [xq 5; xq 6]; [xq 1; xq 2]] in
  Permutation rows rows'
  /\ median (Arr2 2 rows) = median (Arr2 2 rows')
  /\ mean (fun _ _ => []) (Arr2 2 rows) (lit 0)
     = mean (fun _ _ => []) (Arr2 2 rows') (lit 0)
  /\ std (fun x => x) (fun x _ => x) (fun _ _ => []) (Arr2 2 rows) (lit 0)
     = std (fun x => x) (fun x _ => x) (fun _ _ => []) (Arr2 2 rows') (lit 0)
  /\ mad (Arr2 2 rows) (xq 1) = mad (Arr2 2 rows') (xq 1).
Proof.
  intros rows rows'.
  assert (P : Permutation rows rows').
  { unfold rows, rows'.
    eapply Permutation_trans; [apply perm_swap|]. apply perm_skip, perm_swap. }
  split; [exact P|].
  apply (column_statistics_ignore_row_order
           (fun x => x) (fun x _ => x) (fun _ _ => []) 2 rows rows' (xq 1) P).
Defined.

(* ================================================================== *)
(** * Further properties: the objective of the L1-median *)
(* ================================================================== *)

Section L1ObjectiveProps.

Context {F : Type} {AF : Arith F} {LF : ArithLaws AF}.
Variable np_sqrt : F -> F.
Variable es : errstate.
Local Open Scope arith_scope.

Lemma map2_map_same {T U V} (f : T -> U -> V) (g : T -> U) (l : list T) :
  map2 f l (map g l) = map (fun t => f t (g t)) l.
Proof. induction l as [|t l IH]; simpl; [reflexivity|]. f_equal. exact IH. Qed.

(** An in-place operation on two matrices of one shape. *)
Lemma np_ibinop_matrix_matrix (op : F -> F -> F) (p : nat)
      (rows rows2 : list (list F)) :
  rectangular (Arr2 p rows) -> length rows2 = length rows ->
  Forall2 (fun r r2 => length r2 = length r) rows rows2 ->
  np_ibinop op (Arr2 p rows) (Arr2 p rows2)
  = Ok (Arr2 p (map2 (map2 op) rows rows2)).
Proof.
  intros R Hl H2. unfold np_ibinop. cbn [np_binop].
  rewrite Hl, !bdim_same.
  rewrite (bc_row_same_length (bc_row op) rows rows2) by congruence.
  assert (E : map2 (bc_row op) rows rows2 = map2 (map2 op) rows rows2).
  { clear R Hl. induction H2 as [|r r2 rows rows2 H _ IH]; simpl;
      [reflexivity|].
    rewrite bc_row_same_length by congruence. f_equal. exact IH. }
  rewrite E. cbn [shape].
  rewrite map2_length by congruence.
  destruct (list_eq_dec Nat.eq_dec _ _) as [_|N]; [reflexivity|].
  exfalso. apply N. reflexivity.
Qed.

Lemma diffmat_matrix (a : list F) (p : nat) (rows : list (list F)) :
  rectangular (Arr2 p rows) -> length a = p ->
  _diffmat_objective a (Arr2 p rows)
  = Ok (Arr2 p (map (fun r => map2 sub r a) rows)).
Proof.
  intros R Ha. unfold _diffmat_objective, tile_rows. rewrite Ha.
  apply np_binop_matrix_stack; assumption.
Qed.

Lemma apply_along_axis1_rows (f : list F -> F) (p : nat)
      (rows : list (list F)) :
  (1 <= length rows)%nat ->
  apply_along_axis1 f (Arr2 p rows) = Ok (map f rows).
Proof. destruct rows; simpl; [lia | reflexivity]. Qed.

(** X10. On a rectangular matrix X of n >= 1 rows and p columns and a
    point a of p entries, in any arithmetic and under either error
    state, [_l1m_objective] and [_l1m_jacobian] return: the objective is
    the sum ([np.sum], or [np.nansum] when X holds a not-a-number) of the
    Euclidean norms of the differences [row - a]; the Jacobian is the
    negated column-wise sum of the unit directions
    [(row - a) / norm(row - a)], a row at distance zero contributing
    [(row - a) / 1]; the Jacobian has p entries. *)
Theorem l1m_jacobian_is_negated_sum_of_unit_directions
        (a : list F) (p : nat) (rows : list (list F)) :
  rectangular (Arr2 p rows) -> (1 <= length rows)%nat -> length a = p ->
  _l1m_objective np_sqrt a (Arr2 p rows)
  = Ok (summ_of (Arr2 p rows)
                (map (fun r => _euclidnorm np_sqrt (map2 sub r a)) rows))
  /\ _l1m_jacobian np_sqrt es a (Arr2 p rows)
     = Ok (map opp (along_axis0 (summ_of (Arr2 p rows))
                                (Arr2 p (map (unit_direction np_sqrt a) rows))))
  /\ length (map opp (along_axis0 (summ_of (Arr2 p rows))
                                  (Arr2 p (map (unit_direction np_sqrt a) rows))))
     = p.
Proof.
  intros R Hn Ha. split; [|split].
  - unfold _l1m_objective, summ_of.
    rewrite (diffmat_matrix a p rows R Ha). cbn [rbind].
    rewrite apply_along_axis1_rows by (rewrite length_map; exact Hn).
    cbn [rbind]. rewrite map_map. destruct (any_nan (Arr2 p rows)); reflexivity.
  - rewrite (l1m_jacobian_errstate np_sqrt es a (Arr2 p rows)).
    unfold _l1m_jacobian.
    rewrite (diffmat_matrix a p rows R Ha). cbn [rbind].
    rewrite apply_along_axis1_rows by (rewrite length_map; exact Hn).
    cbn [rbind _handle_zeros_in_scale]. fold (@remap_zero F AF).
    unfold tile_columns. rewrite !length_map, Nat.eqb_refl. cbn [rbind].
    unfold np_idivide, trap_zero.
    rewrite !map_map.
    rewrite np_ibinop_matrix_matrix.
    + cbn [rbind].
      rewrite <- (map_map (fun r => map2 sub r a)
                          (fun d => repeat (remap_zero (_euclidnorm np_sqrt d)) p)).
      rewrite map2_map_same, map_map.
      assert (E : map (fun r => map2 div (map2 sub r a)
                                     (repeat (remap_zero
                                                (_euclidnorm np_sqrt (map2 sub r a))) p))
                      rows
                  = map (unit_direction np_sqrt a) rows).
      { apply map_ext_Forall. simpl in R.
        eapply Forall_impl; [|exact R]. simpl. intros r Hr.
        unfold unit_direction.
        apply map2_repeat. rewrite map2_length; congruence. }
      rewrite E. unfold summ_of.
      destruct (any_nan (Arr2 p rows)); reflexivity.
    + apply (rectangular_map2 sub a R Ha).
    + rewrite !length_map. reflexivity.
    + clear Hn. simpl in R. induction R as [|r rows Hr _ IH]; simpl;
        constructor; [|exact IH].
      rewrite repeat_length, map2_length; congruence.
  - rewrite length_map. apply along_axis0_length.
Qed.

(** X11. [_l1m_objective] and [_l1m_jacobian] reject data that is not a
    matrix with at least one row: on a one-dimensional array both raise
    the ValueError of the failed unpacking of [X.shape], and on a matrix
    without rows both raise a ValueError (of broadcasting, or of
    [np.apply_along_axis] on an empty iteration axis), whatever the
    point. *)
Theorem l1m_objective_rejects_flat_and_empty_data (a : list F) :
  (forall v : list F,
      _l1m_objective np_sqrt a (Arr1 v) = Err unpack_error
      /\ _l1m_jacobian np_sqrt es a (Arr1 v) = Err unpack_error)
  /\ (forall p : nat,
         (exists msg, _l1m_objective np_sqrt a (Arr2 p []) = Err (ValueError msg))
         /\ (exists msg,
                _l1m_jacobian np_sqrt es a (Arr2 p []) = Err (ValueError msg))).
Proof.
  split.
  - intros v. split; [|reflexivity].
    unfold _l1m_objective. destruct (any_nan (Arr1 v)); reflexivity.
  - intros p. unfold _l1m_objective, _l1m_jacobian, _diffmat_objective,
      tile_rows, any_nan.
    cbn [flat concat existsb length repeat np_binop bdim Nat.eqb].
    destruct (bdim p (length a)) as [q|]; cbn [rbind bc_row length Nat.eqb map2
                                               apply_along_axis1];
      split; eexists; reflexivity.
Qed.

End L1ObjectiveProps.

Lemma l1m_jacobian_is_negated_sum_of_unit_directions_witness :
  let rows := [[fl 0; fl 0]; [fl 3; fl 4]; [fl 0; fl 5]] in
  let a := [fl 0; fl 0] in
  _l1m_objective PrimFloat.sqrt a (Arr2 2 rows) = Ok (fl 10)
  /\ _l1m_jacobian PrimFloat.sqrt RaiseFPE a (Arr2 2 rows)
     = Ok [fl (-3 # 5); (-0x1.ccccccccccccdp+0)%float].
Proof.
  intros rows a.
  destruct (l1m_jacobian_is_negated_sum_of_unit_directions
              (LF := binary64_laws) PrimFloat.sqrt RaiseFPE a 2 rows)
    as (Ho & Hj & _).
  - repeat constructor.
  - simpl. lia.
  - reflexivity.
  - split.
    + rewrite Ho. vm_compute. reflexivity.
    + rewrite Hj. vm_compute. reflexivity.
Defined.

(* ================================================================== *)
(** * Further properties: the ends of kstepLTS *)
(* ================================================================== *)

Section KstepEdges.

Context {F : Type} {AF : Arith F}.
Variable np_sqrt : F -> F.
Variable trim_mean : ndarray F -> F -> list F.
Variable es : errstate.
Local Open Scope arith_scope.

Lemma rbind_Ok_r {T} (r : result T) : rbind r (fun t => Ok t) = r.
Proof. destruct r; reflexivity. Qed.

Lemma reshape1_length (v m : list F) (p : nat) :
  reshape1 v p = Ok m -> length m = p.
Proof.
  unfold reshape1. destruct (length v =? p)%nat eqn:E; [|discriminate].
  intros H. injection H as <-. apply Nat.eqb_eq, E.
Qed.

Lemma lts_update_returns_length (X : ndarray F) (n p : nat) (m1 m2 : list F) :
  lts_update trim_mean X n p m1 = Ok m2 -> length m2 = p.
Proof.
  unfold lts_update.
  destruct (np_binop sub X (Arr1 m1)) as [D|e]; [|discriminate]. cbn [rbind].
  destruct (if any_nan X then _ else _) as [dists|e]; [|discriminate].
  cbn [rbind].
  destruct (py_index _ _) as [cut|e]; [|discriminate]. cbn [rbind].
  destruct (take_rows X _) as [Xh|e]; [|discriminate]. cbn [rbind].
  apply reshape1_length.
Qed.

Lemma kstep_loop_returns_length (fuel : nat) (X : ndarray F) (n p : nat)
      (tol : F) (m1 m2 m : list F) (unconverged : bool) :
  length m2 = p ->
  kstep_loop trim_mean fuel X n p tol m1 m2 unconverged = Ok m ->
  length m = p.
Proof.
  revert m1 m2 unconverged.
  induction fuel as [|fuel IH]; intros m1 m2 unconverged H2; cbn [kstep_loop].
  - intros E. injection E as <-. exact H2.
  - destruct unconverged; [|intros E; injection E as <-; exact H2].
    destruct (lts_update trim_mean X n p m1) as [m2'|e] eqn:E1;
      [|discriminate].
    cbn [rbind].
    destruct (max_abs_diff m1 m2') as [c|e]; [|discriminate]. cbn [rbind].
    apply IH. apply (lts_update_returns_length _ _ _ _ _ E1).
Qed.

(** X12. With an iteration cap of zero or below, [kstepLTS] makes no
    step: on a two-dimensional array it returns what [l1median(X)]
    returns, and raises what it raises, whatever the optimiser and the
    tolerance. *)
Theorem kstepLTS_without_iterations_is_l1median
        (solver : solver_t F) (p : nat) (rows : list (list F))
        (maxit : Z) (tol : F) :
  (maxit <= 0)%Z ->
  run solver (kstepLTS np_sqrt trim_mean es (Arr2 p rows) maxit tol)
  = run solver (l1median np_sqrt es (Arr2 p rows) no_kwargs).
Proof.
  intros H. unfold kstepLTS. rewrite run_pbind.
  replace (Z.to_nat maxit) with 0%nat by lia. cbn [kstep_loop lift run].
  apply rbind_Ok_r.
Qed.

(** X13. With an iteration cap of one or more, whatever [kstepLTS]
    returns on a matrix of p columns is a vector of p entries: this holds
    for every optimiser, also one that answers a start point of another
    length, for every tolerance and in any arithmetic. *)
Theorem kstepLTS_result_has_one_entry_per_column
        (solver : solver_t F) (p : nat) (rows : list (list F))
        (maxit : Z) (tol : F) (m : list F) :
  (0 < maxit)%Z ->
  run solver (kstepLTS np_sqrt trim_mean es (Arr2 p rows) maxit tol) = Ok m ->
  length m = p.
Proof.
  intros H. unfold kstepLTS. rewrite run_pbind.
  destruct (run solver (l1median np_sqrt es (Arr2 p rows) no_kwargs))
    as [m1|e]; [|discriminate].
  cbn [rbind]. rewrite run_lift.
  destruct (Z.to_nat maxit) as [|fuel] eqn:E; [lia|].
  cbn [kstep_loop].
  destruct (lts_update trim_mean (Arr2 p rows) (length rows) p m1)
    as [m2|e] eqn:E1; [|discriminate].
  cbn [rbind].
  destruct (max_abs_diff m1 m2) as [c|e]; [|discriminate]. cbn [rbind].
  apply kstep_loop_returns_length.
  apply (lts_update_returns_length _ _ _ _ _ E1).
Qed.

Lemma lts_update_no_rows (p : nat) (m1 : list F) :
  raises (lts_update trim_mean (Arr2 p []) 0 p m1).
Proof.
  unfold lts_update. cbn [np_binop].
  destruct (bdim p (length m1)) as [q|]; cbn [rbind map];
    [|apply raises_Err].
  unfold any_nan. cbn [flat concat existsb np_square np_map map reduce_axis1
                       along_axis1 rbind np_sort length].
  apply raises_Err.
Qed.

(** X14. On a matrix without rows, with an iteration cap of one or more,
    [kstepLTS] never returns: it raises for every optimiser and every
    number of columns; with fewer than two columns, where the optimiser
    is not called, the exception is the IndexError of reading rank
    floor((0 + 1) / 2) - 1 = -1 of the empty sequence of sorted
    distances. *)
Theorem kstepLTS_on_no_rows_raises
        (solver : solver_t F) (p : nat) (maxit : Z) (tol : F) :
  (0 < maxit)%Z ->
  raises (run solver (kstepLTS np_sqrt trim_mean es (Arr2 p []) maxit tol))
  /\ ((p < 2)%nat ->
      run solver (kstepLTS np_sqrt trim_mean es (Arr2 p []) maxit tol)
      = Err (IndexError "index out of bounds")).
Proof.
  intros H.
  assert (Hloop : forall m1,
             raises (kstep_loop trim_mean (Z.to_nat maxit) (Arr2 p []) 0 p tol
                                m1 m1 true)).
  { intros m1. destruct (Z.to_nat maxit) as [|fuel] eqn:E; [lia|].
    cbn [kstep_loop].
    destruct (lts_update_no_rows p m1) as [e ->]. apply raises_Err. }
  split.
  - unfold kstepLTS. rewrite run_pbind. cbn [length].
    destruct (run solver (l1median np_sqrt es (Arr2 p []) no_kwargs))
      as [m1|e]; [|apply raises_Err].
    cbn [rbind]. rewrite run_lift. apply Hloop.
  - intros Hp. unfold kstepLTS. rewrite run_pbind.
    unfold l1median. cbn [kw_x0 no_kwargs].
    apply Nat.ltb_lt in Hp. rewrite Hp. cbn [run rbind length].
    rewrite run_lift.
    destruct (Z.to_nat maxit) as [|fuel] eqn:E; [lia|].
    cbn [kstep_loop]. unfold lts_update. cbn [np_binop].
    rewrite median_length, bdim_same. cbn [rbind map].
    unfold any_nan. cbn [flat concat existsb np_square np_map map reduce_axis1
                         along_axis1 rbind np_sort length].
    reflexivity.
Qed.

End KstepEdges.

Lemma kstepLTS_without_iterations_is_l1median_witness :
  (0 <= 0)%Z
  /\ run start_point_solver
         (kstepLTS PrimFloat.sqrt (fun _ _ => []) Warn (Arr2 2 outlier_rows)
                   0 (fl (1 # 10000000000)))
     = run start_point_solver
           (l1median PrimFloat.sqrt Warn (Arr2 2 outlier_rows) no_kwargs).
Proof.
  split; [lia|].
  apply (kstepLTS_without_iterations_is_l1median
           PrimFloat.sqrt (fun _ _ => []) Warn). lia.
Defined.

Lemma kstepLTS_result_has_one_entry_per_column_witness :
  (0 < 5)%Z
  /\ run start_point_solver
         (kstepLTS PrimFloat.sqrt (fun _ _ => []) Warn (Arr2 2 outlier_rows)
                   5 (fl (1 # 10000000000)))
     = Ok [fl 4; fl 5]
  /\ length [fl 4; fl 5] = 2%nat.
Proof.
  split; [lia|]. split; [vm_compute; reflexivity|].
  apply (kstepLTS_result_has_one_entry_per_column
           PrimFloat.sqrt (fun _ _ => []) Warn start_point_solver
           2 outlier_rows 5 (fl (1 # 10000000000))).
  - lia.
  - vm_compute. reflexivity.
Defined.

Lemma kstepLTS_on_no_rows_raises_witness :
  (0 < 5)%Z
  /\ raises (run start_point_solver
                 (kstepLTS PrimFloat.sqrt (fun _ _ => []) Warn
                           (Arr2 3 []) 5 (fl (1 # 10000000000))))
  /\ run start_point_solver
         (kstepLTS PrimFloat.sqrt (fun _ _ => []) Warn
                   (Arr2 1 []) 5 (fl (1 # 10000000000)))
     = Err (IndexError "index out of bounds").
Proof.
  split; [lia|]. split.
  - apply (kstepLTS_on_no_rows_raises PrimFloat.sqrt (fun _ _ => []) Warn
             start_point_solver 3 5 (fl (1 # 10000000000))). lia.
  - apply (kstepLTS_on_no_rows_raises PrimFloat.sqrt (fun _ _ => []) Warn
             start_point_solver 1 5 (fl (1 # 10000000000))); lia.
Defined.

(* ================================================================== *)
(** * Further properties: the arguments of scale_data *)
(* ================================================================== *)

Section ScaleDataEdges.

Context {F : Type} {AF : Arith F}.
Local Open Scope arith_scope.

Lemma handle_zeros_idempotent {LF : ArithLaws AF} (s : list F) :
  _handle_zeros_in_scale (PyArray (map remap_zero s))
  = _handle_zeros_in_scale (PyArray s).
Proof.
  cbn [_handle_zeros_in_scale]. f_equal.
  change (map remap_zero (map remap_zero s) = map remap_zero s).
  apply remap_zero_id, no_zero_map_remap.
Qed.

Lemma scalar_broadcast (op : F -> F -> F) (u : list F) (d : F) :
  np_binop op (Arr1 u) (Arr1 [d]) = Ok (Arr1 (map (fun x => op x d) u)).
Proof.
  cbn [np_binop length]. unfold bdim, bc_row. cbn [length].
  destruct (length u =? 1)%nat eqn:E.
  - destruct u as [|x [|y u]]; try discriminate. reflexivity.
  - cbn [Nat.eqb]. destruct u as [|x [|y u]]; try discriminate; reflexivity.
Qed.

Lemma bdim_mismatch (p q : nat) :
  q <> p -> q <> 1%nat -> p <> 1%nat -> bdim p q = None.
Proof.
  intros H1 H2 H3. unfold bdim.
  destruct (Nat.eqb_spec p q); [congruence|].
  destruct (Nat.eqb_spec p 1); [congruence|].
  destruct (Nat.eqb_spec q 1); [congruence|]. reflexivity.
Qed.

Lemma stack_array (v : list F) (n : nat) :
  (1 <= n)%nat -> stack (PyArray v) n = Ok (Arr2 (length v) (repeat v n)).
Proof. destruct n; [lia | reflexivity]. Qed.

(** A matrix and a stack of one-entry rows: the entry is applied to
    every column. *)
Lemma np_binop_matrix_single (op : F -> F -> F) (p : nat)
      (rows : list (list F)) (b : F) :
  (2 <= p)%nat -> rectangular (Arr2 p rows) ->
  np_binop op (Arr2 p rows) (Arr2 1 (repeat [b] (length rows)))
  = Ok (Arr2 p (map (map (fun x => op x b)) rows)).
Proof.
  intros Hp R. cbn [np_binop]. rewrite repeat_length, bdim_same.
  unfold bdim at 1.
  destruct (Nat.eqb_spec p 1); [lia|]. cbn [Nat.eqb].
  rewrite bc_row_same_length by (rewrite repeat_length; reflexivity).
  rewrite map2_repeat by reflexivity. do 2 f_equal.
  apply map_ext_Forall. simpl in R. eapply Forall_impl; [|exact R]. simpl.
  intros r Hr. unfold bc_row. cbn [length].
  destruct (Nat.eqb_spec (length r) 1); [lia|].
  destruct r as [|x [|y r]]; simpl in Hr; try lia. reflexivity.
Qed.

(** X15. [scale_data] leaves a feature of scale zero unscaled.  Under
    either error state and with s' the scale with each zero replaced by
    one: for a rectangular matrix of n >= 1 rows and p <> 1 columns and
    arrays m and s of p entries the result is [(row - m) / s'] for every
    row; for a matrix of one column with a scalar location m0 and a scale
    of one entry s0 it is [(x - m0) / s0'] entry by entry; and for a
    one-dimensional array with a scalar location and a scalar scale it
    is [(x - m) / s'] entry by entry.  (For one column a location that
    is an array stops [float(m)] with a TypeError.) *)
Theorem scale_data_divides_zero_scales_by_one (LF : ArithLaws AF) :
  (forall (es : errstate) (p : nat) (rows : list (list F)) (m s : list F),
      rectangular (Arr2 p rows) -> (1 <= length rows)%nat -> p <> 1%nat ->
      length m = p -> length s = p ->
      scale_data es (Arr2 p rows) (PyArray m) (PyArray s)
      = Ok (Arr2 p (map (fun r => map2 div (map2 sub r m) (map remap_zero s))
                        rows)))
  /\ (forall (es : errstate) (rows : list (list F)) (m0 s0 : F),
         rectangular (Arr2 1 rows) ->
         scale_data es (Arr2 1 rows) (PyFloat m0) (PyArray [s0])
         = Ok (Arr2 1 (map (map (fun x => (x - m0) / remap_zero s0)) rows)))
  /\ (forall (es : errstate) (x : list F) (m s : F),
         scale_data es (Arr1 x) (PyFloat m) (PyFloat s)
         = Ok (Arr1 (map (fun e => (e - m) / remap_zero s) x))).
Proof.
  split; [|split].
  - intros es p rows m s R Hn Hp Hm Hs.
    transitivity (scale_data es (Arr2 p rows) (PyArray m)
                             (PyArray (map remap_zero s))).
    + unfold scale_data. rewrite handle_zeros_idempotent. reflexivity.
    + apply (scale_data_matrix es m (map remap_zero s) R Hn Hp Hm).
      * rewrite length_map. exact Hs.
      * apply no_zero_map_remap.
  - intros es rows m0 s0 R.
    transitivity (scale_data es (Arr2 1 rows) (PyFloat m0)
                             (PyArray (map remap_zero [s0]))).
    + unfold scale_data. rewrite handle_zeros_idempotent. reflexivity.
    + cbn [map]. apply scale_data_column;
        [exact R | apply remap_zero_nonzero].
  - intros es x m s. unfold scale_data. cbn [Nat.eqb py_float rbind np_map
      _handle_zeros_in_scale divide_by].
    fold (remap_zero s).
    rewrite np_divide_no_zero.
    + rewrite scalar_broadcast, map_map. reflexivity.
    + cbn [flat existsb]. rewrite remap_zero_nonzero. reflexivity.
Qed.

(** X16. A scale that is neither a scalar nor a NumPy array is lost:
    [_handle_zeros_in_scale] falls off its end for a Python list and
    returns None, so that [scale_data] on data without an empty axis
    never returns for a list (or None) as scale, whatever the location;
    for data of one column the exception is a TypeError.  (For data with
    an empty axis NumPy has no entry to divide; the statement leaves
    that case out.) *)
Theorem scale_data_rejects_list_scale
        (es : errstate) (X : ndarray F) (m : pyval F) (s : list F) :
  Forall (fun d => 1 <= d)%nat (shape X) ->
  _handle_zeros_in_scale (PyList s) = PyNone
  /\ raises (scale_data es X m (PyList s))
  /\ raises (scale_data es X m PyNone)
  /\ (ncols_of X = 1%nat ->
      exists msg, scale_data es X m (PyList s) = Err (TypeError msg)).
Proof.
  intros Hd.
  assert (H : forall s', _handle_zeros_in_scale s' = PyNone ->
                         raises (scale_data es X m s')
                         /\ (ncols_of X = 1%nat ->
                             exists msg, scale_data es X m s' = Err (TypeError msg))).
  { intros s' E. unfold scale_data. rewrite E.
    destruct ((match X with Arr2 p _ => p | Arr1 _ => 1%nat end) =? 1)%nat eqn:Ep.
    - assert (Hr : exists msg,
                 rbind (py_float m)
                       (fun m0 => divide_by es (np_map (fun x => x - m0) X) PyNone)
                 = Err (TypeError msg)).
      { destruct m as [x|[|x [|y v]]|v|]; cbn [py_float rbind divide_by];
          eexists; reflexivity. }
      destruct Hr as [msg Hr]. split; [exists (TypeError msg); exact Hr|].
      intros _. exists msg. exact Hr.
    - split.
      + destruct (stack m _) as [M|e]; cbn [rbind]; [|apply raises_Err].
        destruct (np_binop sub X M) as [Xm|e]; cbn [rbind stack];
          apply raises_Err.
      + intros Hp. exfalso. destruct X as [v|p rows]; cbn in Hp, Ep.
        * discriminate.
        * subst p. discriminate. }
  split; [reflexivity|].
  destruct (H (PyList s) eq_refl) as [H1 H2].
  destruct (H PyNone eq_refl) as [H3 _].
  split; [exact H1|]. split; [exact H3 | exact H2].
Qed.

(** X17. [scale_data] checks no length itself; NumPy's broadcasting
    decides.  Under either error state, for a rectangular matrix of
    n >= 1 rows and p >= 2 columns: a location array whose length is
    neither p nor 1 raises the broadcasting ValueError; with a location
    of length p, a scale array whose length is neither p nor 1 raises it
    as well; and a location and a scale of one entry each are applied to
    every column, the result being [(x - m0) / s0'] entry by entry (s0'
    is s0, or one when s0 is zero). *)
Theorem scale_data_broadcasts_or_rejects_lengths
        (LF : ArithLaws AF) (es : errstate)
        (p : nat) (rows : list (list F)) (m s : list F) :
  (2 <= p)%nat -> rectangular (Arr2 p rows) -> (1 <= length rows)%nat ->
  (length m <> p -> length m <> 1%nat ->
   scale_data es (Arr2 p rows) (PyArray m) (PyArray s) = Err broadcast_error)
  /\ (length m = p -> length s <> p -> length s <> 1%nat ->
      scale_data es (Arr2 p rows) (PyArray m) (PyArray s) = Err broadcast_error)
  /\ (forall m0 s0 : F,
         scale_data es (Arr2 p rows) (PyArray [m0]) (PyArray [s0])
         = Ok (Arr2 p (map (map (fun x => (x - m0) / remap_zero s0)) rows))).
Proof.
  intros Hp R Hn.
  assert (Hp1 : (p =? 1)%nat = false) by (apply Nat.eqb_neq; lia).
  split; [|split].
  - intros H1 H2. unfold scale_data. rewrite Hp1.
    rewrite stack_array by exact Hn. cbn [rbind np_binop].
    rewrite repeat_length, bdim_same, bdim_mismatch by (assumption || lia).
    reflexivity.
  - intros Hm H1 H2. unfold scale_data. rewrite Hp1.
    rewrite stack_array by exact Hn. cbn [rbind]. rewrite Hm.
    rewrite (np_binop_matrix_stack sub m R Hm). cbn [rbind _handle_zeros_in_scale].
    rewrite stack_array by exact Hn. rewrite length_map.
    cbn [rbind]. unfold np_divide. cbn [np_binop].
    rewrite repeat_length, length_map, bdim_same, bdim_mismatch
      by (assumption || lia).
    destruct es; reflexivity.
  - intros m0 s0. rewrite (scale_data_errstate es). unfold scale_data.
    rewrite Hp1. rewrite stack_array by exact Hn. cbn [rbind length].
    rewrite (np_binop_matrix_single sub p rows m0 Hp R).
    cbn [rbind _handle_zeros_in_scale map]. rewrite stack_array by exact Hn.
    cbn [length]. unfold np_divide, trap_zero.
    rewrite <- (length_map (map (fun x => x - m0)) rows) at 1.
    cbn [rbind]. rewrite (np_binop_matrix_single div).
    + rewrite map_map. do 2 f_equal. apply map_ext. intros r.
      rewrite map_map. reflexivity.
    + exact Hp.
    + simpl. apply Forall_map. simpl in R. eapply Forall_impl; [|exact R].
      simpl. intros r Hr. rewrite length_map. exact Hr.
Qed.

End ScaleDataEdges.

Lemma scale_data_divides_zero_scales_by_one_witness :
  scale_data RaiseFPE (Arr2 2 [[fl 1; fl 7]; [fl 3; fl 7]])
             (PyArray [fl 2; fl 7]) (PyArray [fl 2; fl 0])
  = Ok (Arr2 2 [[fl (-1 # 2); fl 0]; [fl (1 # 2); fl 0]])
  /\ scale_data RaiseFPE (Arr2 1 [[fl 1]; [fl 3]]) (PyFloat (fl 2))
                 (PyArray [fl 0])
     = Ok (Arr2 1 [[fl (-1)]; [fl 1]])
  /\ scale_data RaiseFPE (Arr1 [fl 1; fl 3]) (PyFloat (fl 2)) (PyFloat (fl 0))
     = Ok (Arr1 [fl (-1); fl 1]).
Proof.
  destruct (scale_data_divides_zero_scales_by_one binary64_laws)
    as (Hm & Hc & Hv).
  split; [|split].
  - rewrite Hm; [vm_compute; reflexivity | repeat constructor | simpl; lia
                 | discriminate | reflexivity | reflexivity].
  - rewrite Hc; [vm_compute; reflexivity | repeat constructor].
  - rewrite Hv. vm_compute. reflexivity.
Defined.

Lemma scale_data_rejects_list_scale_witness :
  let X := Arr2 2 [[fl 1; fl 7]; [fl 3; fl 8]] in
  Forall (fun d => 1 <= d)%nat (shape X)
  /\ raises (scale_data Warn X (PyArray [fl 2; fl 7]) (PyList [fl 2; fl 1])).
Proof.
  intros X.
  assert (H : Forall (fun d => 1 <= d)%nat (shape X))
    by (repeat constructor).
  split; [exact H|].
  apply (scale_data_rejects_list_scale Warn X (PyArray [fl 2; fl 7])
                                       [fl 2; fl 1] H).
Defined.

Lemma scale_data_broadcasts_or_rejects_lengths_witness :
  let rows := [[fl 1; fl 7]; [fl 3; fl 8]] in
  scale_data Warn (Arr2 2 rows) (PyArray [fl 1; fl 2; fl 3]) (PyArray [fl 1; fl 2])
  = Err broadcast_error
  /\ scale_data Warn (Arr2 2 rows) (PyArray [fl 1; fl 2]) (PyArray [fl 1; fl 2; fl 3])
     = Err broadcast_error
  /\ scale_data Warn (Arr2 2 rows) (PyArray [fl 1]) (PyArray [fl 2])
     = Ok (Arr2 2 [[fl 0; fl 3]; [fl 1; fl (7 # 2)]]).
Proof.
  intros rows.
  assert (R : rectangular (Arr2 2 rows)) by (repeat constructor).
  assert (Hn : (1 <= length rows)%nat) by (simpl; lia).
  destruct (scale_data_broadcasts_or_rejects_lengths
              binary64_laws Warn 2 rows [fl 1; fl 2; fl 3] [fl 1; fl 2]
              (le_n 2) R Hn) as (H1 & _ & H3).
  destruct (scale_data_broadcasts_or_rejects_lengths
              binary64_laws Warn 2 rows [fl 1; fl 2] [fl 1; fl 2; fl 3]
              (le_n 2) R Hn) as (_ & H2 & _).
  split; [apply H1; simpl; lia|].
  split; [apply H2; simpl; lia|].
  rewrite H3. vm_compute. reflexivity.
Defined.

(* ================================================================== *)
(** * Further properties: the outcomes of scaleTau2 *)
(* ================================================================== *)

Section ScaleTau2Outcomes.

Context {F : Type} {AF : Arith F}.
Variable np_sqrt : F -> F.
Variables norm_cdf norm_pdf norm_ppf : F -> F.
Local Open Scope arith_scope.

(** A division of a matrix by a vector of its row length: it traps
    exactly when the trap is on and a divisor is zero. *)
Lemma np_idivide_vec_outcome (es : errstate) (p : nat) (rows : list (list F))
      (v : list F) :
  length v = p ->
  (exists msg, es = RaiseFPE /\ existsb is_zero v = true
               /\ np_idivide es (Arr2 p rows) (Arr1 v)
                  = Err (FloatingPointError msg))
  \/ (exists rows', (es = RaiseFPE -> existsb is_zero v = false)
                    /\ np_idivide es (Arr2 p rows) (Arr1 v) = Ok (Arr2 p rows')
                    /\ length rows' = length rows).
Proof.
  intros Hv. unfold np_idivide, trap_zero.
  destruct (np_ibinop_vec_ok div p rows v Hv) as [rows' [E L]].
  rewrite E. cbn [flat]. fold (@is_zero F AF).
  destruct es.
  - right. exists rows'. split; [discriminate|]. split; [reflexivity|exact L].
  - destruct (existsb is_zero v) eqn:Z.
    + left. eexists. split; [reflexivity|]. split; reflexivity.
    + right. exists rows'. split; [reflexivity|]. split; [reflexivity|exact L].
Qed.

Lemma tau2_sigma0_matrix (p : nat) (rows : list (list F)) :
  exists D, np_binop sub (Arr2 p rows) (Arr1 (median (Arr2 p rows)))
            = Ok (Arr2 p D)
            /\ length D = length rows
            /\ tau2_sigma0 (Arr2 p rows) = Ok (median (np_abs (Arr2 p D)))
            /\ length (median (np_abs (Arr2 p D))) = p.
Proof.
  destruct (np_binop_vec_ok sub p rows (median (Arr2 p rows))
                            (median_length p rows)) as [D [ED LD]].
  exists D. split; [exact ED|]. split; [exact LD|].
  unfold tau2_sigma0. rewrite ED. split; [reflexivity|].
  apply median_length.
Qed.

(** The first part of [scaleTau2], to the squares: it ends with the
    initial scale and a matrix of squares, or, with the trap on, in a
    FloatingPointError; and with the trap on it does not pass a zero in
    the initial scale. *)
Lemma tau2_squares_outcome (es : errstate) (p : nat) (rows : list (list F))
      (c1 : F) :
  exists sigma0,
    tau2_sigma0 (Arr2 p rows) = Ok sigma0 /\ length sigma0 = p
    /\ ((exists rho, tau2_squares es (Arr2 p rows) c1 = Ok (sigma0, Arr2 p rho)
                     /\ (es = RaiseFPE -> existsb is_zero sigma0 = false))
        \/ (es = RaiseFPE
            /\ exists msg, tau2_squares es (Arr2 p rows) c1
                           = Err (FloatingPointError msg))).
Proof.
  destruct (tau2_sigma0_matrix p rows) as [D [ED [LD [ES Hs]]]].
  eexists. split; [exact ES|]. split; [exact Hs|].
  unfold tau2_squares. rewrite ED. cbn [rbind].
  set (sigma0 := median (np_abs (Arr2 p D))) in *.
  assert (Hlast : forall x',
             (exists rho, rbind (np_idivide es (Arr2 p x') (Arr1 sigma0))
                                (fun x => Ok (sigma0, np_square x))
                          = Ok (sigma0, Arr2 p rho)
                          /\ (es = RaiseFPE -> existsb is_zero sigma0 = false))
             \/ (es = RaiseFPE
                 /\ exists msg, rbind (np_idivide es (Arr2 p x') (Arr1 sigma0))
                                      (fun x => Ok (sigma0, np_square x))
                                = Err (FloatingPointError msg))).
  { intros x'.
    destruct (np_idivide_vec_outcome es p x' sigma0 Hs)
      as [[msg [Ees [_ E]]] | [x'' [Z [E _]]]]; rewrite E; cbn [rbind].
    - right. split; [exact Ees|]. exists msg. reflexivity.
    - left. eexists. split; [reflexivity | exact Z]. }
  destruct (gtb c1 (lit 0)).
  - cbn [np_abs np_map].
    match goal with
    | |- context [np_idivide es (Arr2 p ?r) (Arr1 ?v)] =>
        destruct (np_idivide_vec_outcome es p r v)
          as [[msg [Ees [_ E]]] | [xc [_ [E Lxc]]]];
          [rewrite length_map; exact Hs | rewrite E | rewrite E]
    end.
    + right. split; [exact Ees|]. exists msg. reflexivity.
    + cbn [rbind np_square np_map].
      match goal with
      | |- context [np_binop mul (Arr2 p rows) (Arr2 p ?w)] =>
          destruct (np_binop_mat_ok mul p rows w) as [xw Exw];
            [rewrite !length_map, Lxc, length_map; exact LD | rewrite Exw]
      end.
      cbn [rbind].
      match goal with
      | |- context [scalar_divide es ?a ?b] =>
          destruct (scalar_divide es a b) as [q|e] eqn:Eq
      end.
      * cbn [rbind np_map]. apply Hlast.
      * right. unfold scalar_divide in Eq. destruct es; [discriminate|].
        split; [reflexivity|].
        match type of Eq with
        | (if ?c then _ else _) = _ => destruct c; [|discriminate]
        end.
        injection Eq as <-. eexists. reflexivity.
  - cbn [rbind].
    destruct (np_ibinop_vec_ok sub p rows (median (Arr2 p rows))
                (median_length p rows)) as [x' [Ex' _]].
    rewrite Ex'. cbn [rbind]. apply Hlast.
Qed.

Lemma py_square_cases (c : F) :
  (exists msg, py_square c = Err (OverflowError msg))
  \/ py_square c = Ok (c * c).
Proof.
  unfold py_square. destruct (is_finite c && negb (is_finite (c * c))).
  - left. eexists. reflexivity.
  - right. reflexivity.
Qed.

(** X18. On a two-dimensional array of p columns [scaleTau2] has these
    outcomes only, for all c1, c2 and consistency settings and in any
    arithmetic.  With warnings only (NumPy's default error state): when
    [c2 ** 2] returns, a vector of p entries, also for an array without
    rows or with constant columns; when [c2 ** 2] raises (OverflowError,
    for a finite Python float whose square is not finite), that
    exception.  With the floating-point trap on: a vector of p entries,
    FloatingPointError or OverflowError, and nothing else.  [c2 ** 2]
    itself returns the square or raises OverflowError. *)
Theorem scaleTau2_returns_one_scale_per_column_or_traps
        (p : nat) (rows : list (list F)) (c1 c2 : F)
        (consistency : consistency_arg) :
  (forall c22, py_square c2 = Ok c22 ->
               exists s, scaleTau2 np_sqrt norm_cdf norm_pdf norm_ppf Warn
                                   (Arr2 p rows) c1 c2 consistency = Ok s
                         /\ length s = p)
  /\ (forall e, py_square c2 = Err e ->
                scaleTau2 np_sqrt norm_cdf norm_pdf norm_ppf Warn
                          (Arr2 p rows) c1 c2 consistency = Err e)
  /\ ((exists msg, py_square c2 = Err (OverflowError msg))
      \/ py_square c2 = Ok (c2 * c2))
  /\ ((exists s, scaleTau2 np_sqrt norm_cdf norm_pdf norm_ppf RaiseFPE
                           (Arr2 p rows) c1 c2 consistency = Ok s
                 /\ length s = p)
      \/ (exists msg, scaleTau2 np_sqrt norm_cdf norm_pdf norm_ppf RaiseFPE
                                (Arr2 p rows) c1 c2 consistency
                      = Err (FloatingPointError msg))
      \/ (exists msg, scaleTau2 np_sqrt norm_cdf norm_pdf norm_ppf RaiseFPE
                                (Arr2 p rows) c1 c2 consistency
                      = Err (OverflowError msg))).
Proof.
  assert (H : forall es,
             (exists sigma0 rho,
                 length sigma0 = p
                 /\ scaleTau2 np_sqrt norm_cdf norm_pdf norm_ppf es
                              (Arr2 p rows) c1 c2 consistency
                    = rbind (py_square c2)
                            (fun c22 =>
                               rbind (scalar_divide
                                        es
                                        (if any_nan (Arr2 p rows)
                                         then np_nansum
                                                (flat (Arr2 p (map (cap_row c22) rho)))
                                         else np_sum
                                                (flat (Arr2 p (map (cap_row c22) rho))))
                                        (tau2_normaliser norm_cdf norm_pdf norm_ppf
                                                         (length rows) c2 consistency))
                                     (fun q => reshape1
                                                 (map (fun s => s * np_sqrt q) sigma0)
                                                 p)))
             \/ (es = RaiseFPE
                 /\ exists msg, scaleTau2 np_sqrt norm_cdf norm_pdf norm_ppf es
                                          (Arr2 p rows) c1 c2 consistency
                                = Err (FloatingPointError msg))).
  { intros es. unfold scaleTau2.
    destruct (tau2_squares_outcome es p rows c1)
      as [sigma0 [_ [Hs [[rho [E _]] | [Ees [msg E]]]]]]; rewrite E;
      cbn [rbind fst snd].
    - left. exists sigma0, rho. split; [exact Hs|].
      rewrite tau2_cap_rowwise.
      destruct (py_square c2) as [c22|e]; reflexivity.
    - right. split; [exact Ees|]. exists msg. reflexivity. }
  assert (Hre : forall (sigma0 : list F) (q : F),
             length sigma0 = p ->
             exists s, reshape1 (map (fun s => s * np_sqrt q) sigma0) p = Ok s
                       /\ length s = p).
  { intros sigma0 q Hs. unfold reshape1.
    rewrite length_map, Hs, Nat.eqb_refl.
    eexists. split; [reflexivity|]. rewrite length_map. exact Hs. }
  split; [|split; [|split]].
  - intros c22 Hc.
    destruct (H Warn) as [[sigma0 [rho [Hs E]]] | [Ees _]]; [|discriminate].
    rewrite E, Hc. cbn [rbind scalar_divide]. apply Hre, Hs.
  - intros e Hc.
    destruct (H Warn) as [[sigma0 [rho [Hs E]]] | [Ees _]]; [|discriminate].
    rewrite E, Hc. reflexivity.
  - apply py_square_cases.
  - destruct (H RaiseFPE) as [[sigma0 [rho [Hs E]]] | [_ Hfpe]];
      [|right; left; exact Hfpe].
    rewrite E.
    destruct (py_square_cases c2) as [[msg Hc] | Hc]; rewrite Hc; cbn [rbind].
    + right. right. exists msg. reflexivity.
    + match goal with
      | |- context [scalar_divide RaiseFPE ?a ?b] =>
          destruct (scalar_divide RaiseFPE a b) as [q|e] eqn:Eq
      end; cbn [rbind].
      * left. apply Hre, Hs.
      * right. left. unfold scalar_divide in Eq.
        match type of Eq with
        | (if ?c then _ else _) = _ => destruct c; [|discriminate]
        end.
        injection Eq as <-. eexists. reflexivity.
Qed.

(** X19. [scaleTau2] divides by its initial scale as it is: on a
    two-dimensional array one column of which has initial scale
    [sigma0] (the median absolute deviation from the median) zero, as a
    constant column has, and with the floating-point trap on, it raises
    FloatingPointError, for all c1, c2 and consistency settings.
    ([scale_data] and [_l1m_jacobian] replace such a zero by one;
    [scaleTau2] does not.) *)
Theorem scaleTau2_traps_on_zero_initial_scale
        (p : nat) (rows : list (list F)) (c1 c2 : F)
        (consistency : consistency_arg) (sigma0 : list F) :
  tau2_sigma0 (Arr2 p rows) = Ok sigma0 ->
  existsb is_zero sigma0 = true ->
  exists msg, scaleTau2 np_sqrt norm_cdf norm_pdf norm_ppf RaiseFPE
                        (Arr2 p rows) c1 c2 consistency
              = Err (FloatingPointError msg).
Proof.
  intros Es Z. unfold scaleTau2.
  destruct (tau2_squares_outcome RaiseFPE p rows c1)
    as [sigma0' [Es' [_ [[rho [_ N]] | [_ [msg E]]]]]].
  - rewrite Es in Es'. injection Es' as <-.
    rewrite (N eq_refl) in Z. discriminate.
  - rewrite E. exists msg. reflexivity.
Qed.

(** ** One column *)

Lemma rectangular_map (f : F -> F) (p : nat) (rows : list (list F)) :
  rectangular (Arr2 p rows) -> rectangular (Arr2 p (map (map f) rows)).
Proof.
  simpl. intros R. apply Forall_map. eapply Forall_impl; [|exact R].
  simpl. intros r Hr. rewrite length_map. exact Hr.
Qed.

Lemma np_ibinop_matrix_vector (op : F -> F -> F) (p : nat)
      (rows : list (list F)) (v : list F) :
  rectangular (Arr2 p rows) -> length v = p ->
  np_ibinop op (Arr2 p rows) (Arr1 v)
  = Ok (Arr2 p (map (fun r => map2 op r v) rows)).
Proof.
  intros R Hv. unfold np_ibinop.
  rewrite (np_binop_matrix_vector op v R Hv). cbn [shape].
  rewrite length_map.
  destruct (list_eq_dec Nat.eq_dec _ _) as [_|N]; [reflexivity|].
  exfalso. apply N. reflexivity.
Qed.

(** On a rectangular matrix, with warnings only, the squares have the
    shape of the data. *)
Lemma tau2_squares_rectangular (p : nat) (rows : list (list F)) (c1 : F) :
  rectangular (Arr2 p rows) ->
  exists sigma0 rho,
    tau2_squares Warn (Arr2 p rows) c1 = Ok (sigma0, Arr2 p rho)
    /\ length sigma0 = p
    /\ rectangular (Arr2 p rho)
    /\ length rho = length rows.
Proof.
  intros R. unfold tau2_squares.
  rewrite (np_binop_matrix_vector sub (median (Arr2 p rows)) R
             (median_length p rows)).
  cbn [rbind np_abs np_map].
  set (D := map (fun r => map2 sub r (median (Arr2 p rows))) rows).
  assert (RD : rectangular (Arr2 p D))
    by (apply (rectangular_map2 sub _ R (median_length p rows))).
  assert (LD : length D = length rows) by apply length_map.
  set (sigma0 := median (Arr2 p (map (map fabs) D))).
  assert (Hs : length sigma0 = p) by apply median_length.
  assert (Hlast : forall x',
             rectangular (Arr2 p x') -> length x' = length rows ->
             exists rho,
               rbind (np_idivide Warn (Arr2 p x') (Arr1 sigma0))
                     (fun x => Ok (sigma0, np_square x))
               = Ok (sigma0, Arr2 p rho)
               /\ length sigma0 = p
               /\ rectangular (Arr2 p rho)
               /\ length rho = length rows).
  { intros x' Rx Lx. unfold np_idivide, trap_zero.
    rewrite (np_ibinop_matrix_vector div p x' sigma0 Rx Hs).
    cbn [rbind np_square np_map]. eexists. split; [reflexivity|].
    split; [exact Hs|]. split.
    - apply rectangular_map. apply (rectangular_map2 div _ Rx Hs).
    - rewrite !length_map. exact Lx. }
  destruct (gtb c1 (lit 0)).
  - unfold np_idivide at 1, trap_zero.
    rewrite np_ibinop_matrix_vector;
      [|apply rectangular_map; exact RD | rewrite length_map; exact Hs].
    cbn [rbind np_square np_map].
    match goal with
    | |- context [np_binop mul (Arr2 p rows) (Arr2 p ?w)] =>
        destruct (np_binop_mat_ok mul p rows w) as [xw Exw];
          [rewrite !length_map; exact LD | rewrite Exw]
    end.
    cbn [rbind scalar_divide np_map].
    match goal with
    | |- context [np_idivide Warn (Arr2 p ?x') (Arr1 sigma0)] =>
        destruct (Hlast x') as [rho Hrho];
          [apply rectangular_map; exact R | apply length_map |]
    end.
    exists sigma0, rho. exact Hrho.
  - cbn [rbind].
    rewrite (np_ibinop_matrix_vector sub p rows _ R (median_length p rows)).
    cbn [rbind].
    destruct (Hlast D RD LD) as [rho Hrho].
    exists sigma0, rho. exact Hrho.
Qed.

Lemma single_column_cap (c : F) (rho : list (list F)) :
  rectangular (Arr2 1 rho) -> map (cap_row c) rho = winsorize rho c.
Proof.
  simpl. intros R. unfold winsorize. apply map_ext_Forall.
  eapply Forall_impl; [|exact R]. simpl.
  intros [|e [|e' r]] Hr; try discriminate. apply cap_row_single.
Qed.

Lemma single_column_flat (rho : list (list F)) :
  rectangular (Arr2 1 rho) -> concat rho = column 0 rho.
Proof.
  simpl. induction 1 as [|r rho Hr _ IH]; [reflexivity|].
  destruct r as [|e [|e' r]]; try discriminate.
  cbn [concat column map nth app]. f_equal. exact IH.
Qed.

(** X20. For data of one column [scaleTau2] computes the estimate as the
    specification words it.  With warnings only, for every rectangular
    matrix of one column, all c1 and consistency settings and every c2
    whose square [c2 ** 2] is returned (it is c22 = c2 * c2), in any
    arithmetic: the capping of the squares is the entrywise one (an
    entry above c22 becomes c22, every other entry is kept), and the
    result is the per-column estimate, [sigma0] times the root of the
    sum of the capped squares of the column over the normalising
    constant.  (The assignment through row indices and the sum without
    axis differ from these for two columns or more only.) *)
Theorem scaleTau2_single_column_is_per_column_estimate
        (rows : list (list F)) (c1 c2 c22 : F) (consistency : consistency_arg) :
  rectangular (Arr2 1 rows) ->
  py_square c2 = Ok c22 ->
  c22 = c2 * c2
  /\ exists (sigma0 : list F) (rho : list (list F)),
      tau2_squares Warn (Arr2 1 rows) c1 = Ok (sigma0, Arr2 1 rho)
      /\ tau2_cap (Arr2 1 rho) c2 = Ok (Arr2 1 (winsorize rho c22))
      /\ scaleTau2 np_sqrt norm_cdf norm_pdf norm_ppf Warn
                   (Arr2 1 rows) c1 c2 consistency
         = Ok (tau2_per_column np_sqrt sigma0 1 (winsorize rho c22)
                               (summ_of (Arr2 1 rows))
                               (tau2_normaliser norm_cdf norm_pdf norm_ppf
                                                (length rows) c2 consistency)).
Proof.
  intros R Hc. split.
  { destruct (py_square_cases c2) as [[msg E] | E]; rewrite E in Hc;
      [discriminate | injection Hc as <-; reflexivity]. }
  destruct (tau2_squares_rectangular 1 rows c1 R)
    as [sigma0 [rho [E [Hs [Rrho Lrho]]]]].
  exists sigma0, rho. split; [exact E|].
  assert (Ecap : tau2_cap (Arr2 1 rho) c2
                 = Ok (Arr2 1 (winsorize rho c22))).
  { rewrite tau2_cap_rowwise, Hc. cbn [rbind].
    rewrite (single_column_cap c22 rho Rrho). reflexivity. }
  split; [exact Ecap|].
  unfold scaleTau2. rewrite E. cbn [rbind fst snd]. rewrite Ecap.
  cbn [rbind scalar_divide flat].
  unfold reshape1. rewrite length_map, Hs. cbn [Nat.eqb].
  f_equal. unfold tau2_per_column, columns. cbn [seq map].
  destruct sigma0 as [|s0 [|s1 sigma0]]; try discriminate.
  cbn [map map2]. unfold summ_of.
  rewrite single_column_flat.
  - reflexivity.
  - unfold winsorize. apply rectangular_map. exact Rrho.
Qed.

End ScaleTau2Outcomes.

Lemma scaleTau2_traps_on_zero_initial_scale_witness :
  let rows := [[fl 1; fl 7]; [fl 3; fl 7]; [fl 6; fl 7]] in
  tau2_sigma0 (Arr2 2 rows) = Ok [fl 2; fl 0]
  /\ existsb is_zero [fl 2; fl 0] = true
  /\ exists msg, scaleTau2 PrimFloat.sqrt (fun x => x) (fun x => x) (fun x => x)
                           RaiseFPE (Arr2 2 rows) (fl (9 # 2)) (fl 3)
                           (CBool false)
                 = Err (FloatingPointError msg).
Proof.
  intros rows.
  assert (Hs : tau2_sigma0 (Arr2 2 rows) = Ok [fl 2; fl 0])
    by (vm_compute; reflexivity).
  assert (Hz : existsb is_zero [fl 2; fl 0] = true)
    by (vm_compute; reflexivity).
  split; [exact Hs|]. split; [exact Hz|].
  exact (scaleTau2_traps_on_zero_initial_scale
           PrimFloat.sqrt (fun x => x) (fun x => x) (fun x => x)
           2 rows (fl (9 # 2)) (fl 3) (CBool false) [fl 2; fl 0] Hs Hz).
Defined.

Lemma scaleTau2_returns_one_scale_per_column_or_traps_witness :
  let rows := [[fl 1; fl 7]; [fl 3; fl 8]; [fl 6; fl 10]] in
  py_square (fl 3) = Ok (fl 9)
  /\ (exists s, scaleTau2 PrimFloat.sqrt (fun x => x) (fun x => x) (fun x => x)
                          Warn (Arr2 2 rows) (fl (9 # 2)) (fl 3) (CBool false)
                = Ok s
                /\ length s = 2%nat)
  /\ py_square 0x1p+700%float
     = Err (OverflowError "(34, 'Numerical result out of range')")
  /\ scaleTau2 PrimFloat.sqrt (fun x => x) (fun x => x) (fun x => x)
               Warn (Arr2 2 rows) (fl (9 # 2)) 0x1p+700%float (CBool false)
     = Err (OverflowError "(34, 'Numerical result out of range')").
Proof.
  intros rows.
  assert (H3 : py_square (fl 3) = Ok (fl 9)) by (vm_compute; reflexivity).
  assert (H7 : py_square 0x1p+700%float
               = Err (OverflowError "(34, 'Numerical result out of range')"))
    by (vm_compute; reflexivity).
  split; [exact H3|]. split.
  - apply (proj1 (scaleTau2_returns_one_scale_per_column_or_traps
                    PrimFloat.sqrt (fun x => x) (fun x => x) (fun x => x)
                    2 rows (fl (9 # 2)) (fl 3) (CBool false)) (fl 9) H3).
  - split; [exact H7|].
    apply (proj1 (proj2 (scaleTau2_returns_one_scale_per_column_or_traps
                           PrimFloat.sqrt (fun x => x) (fun x => x) (fun x => x)
                           2 rows (fl (9 # 2)) 0x1p+700%float (CBool false)))
                 _ H7).
Defined.

Lemma scaleTau2_single_column_is_per_column_estimate_witness :
  let rows := [[fl 0]; [fl 2]; [fl 4]; [fl 40]] in
  rectangular (Arr2 1 rows)
  /\ py_square (fl 3) = Ok (fl 9)
  /\ fl 9 = mul (fl 3) (fl 3)
  /\ exists (sigma0 : list float) (rho : list (list float)),
      tau2_squares Warn (Arr2 1 rows) (fl (9 # 2)) = Ok (sigma0, Arr2 1 rho)
      /\ tau2_cap (Arr2 1 rho) (fl 3) = Ok (Arr2 1 (winsorize rho (fl 9)))
      /\ scaleTau2 PrimFloat.sqrt (fun x => x) (fun x => x) (fun x => x) Warn
                   (Arr2 1 rows) (fl (9 # 2)) (fl 3) (CBool false)
         = Ok (tau2_per_column PrimFloat.sqrt sigma0 1
                               (winsorize rho (fl 9))
                               (summ_of (Arr2 1 rows))
                               (tau2_normaliser (fun x => x) (fun x => x)
                                                (fun x => x)
                                                (length rows) (fl 3)
                                                (CBool false))).
Proof.
  intros rows.
  assert (R : rectangular (Arr2 1 rows)) by (repeat constructor).
  assert (H3 : py_square (fl 3) = Ok (fl 9)) by (vm_compute; reflexivity).
  split; [exact R|]. split; [exact H3|].
  exact (scaleTau2_single_column_is_per_column_estimate
           PrimFloat.sqrt (fun x => x) (fun x => x) (fun x => x)
           rows (fl (9 # 2)) (fl 3) (fl 9) (CBool false) R H3).
Defined.
